(** * Polyphase arbitrary resampler kernel (gr-filter, pfb_arb_resampler.cc)

    A shallow embedding of [gr::filter::kernel::pfb_arb_resampler_ccf]:
    tap partitioning ([create_taps], [create_diff_taps], [set_taps]), the
    rate and phase controls ([set_rate], [set_phase], [phase]) and the
    resampling loop ([filter]).

    Numbers are modelled as the C++ code has them: [unsigned int] as [Z]
    reduced modulo 2^32, [int] as [Z] with overflow being undefined,
    [float] as IEEE-754 binary32 and [double] as binary64, both through the
    parametric operations of [SpecFloat] (round to nearest, ties to even).
    Every floating-point operation is rounded to the type of its operands
    after the usual arithmetic conversions.  The size of a vector is a
    64-bit [size_t]; it is reduced modulo 2^32 where the kernel stores it
    in an [unsigned int]. *)

From Stdlib Require Import Ascii String.
From Stdlib Require Import ZArith List Bool Lia.
From Stdlib Require Import Floats.SpecFloat.
Import ListNotations.
Local Open Scope Z_scope.

(** ** IEEE-754 arithmetic at the two precisions the kernel uses *)

Module IEEE.

Definition float32 := spec_float.
Definition float64 := spec_float.

Definition prec32 : Z := 24.
Definition emax32 : Z := 128.
Definition prec64 : Z := 53.
Definition emax64 : Z := 1024.

Definition f32_add : float32 -> float32 -> float32 := SFadd prec32 emax32.
Definition f32_sub : float32 -> float32 -> float32 := SFsub prec32 emax32.
Definition f32_mul : float32 -> float32 -> float32 := SFmul prec32 emax32.
Definition f32_div : float32 -> float32 -> float32 := SFdiv prec32 emax32.
Definition f32_ltb : float32 -> float32 -> bool := SFltb.
Definition f64_div : float64 -> float64 -> float64 := SFdiv prec64 emax64.
Definition f64_mul : float64 -> float64 -> float64 := SFmul prec64 emax64.
Definition f64_leb : float64 -> float64 -> bool := SFleb.

(** The value [m * 2^e] rounded to binary32, resp. binary64. *)
Definition B32 (m e : Z) : float32 := binary_normalize prec32 emax32 m e false.
Definition B64 (m e : Z) : float64 := binary_normalize prec64 emax64 m e false.

(** Integer to floating-point conversion, [(float)n] and [(double)n]. *)
Definition f32_of_Z (n : Z) : float32 := B32 n 0.
Definition f64_of_Z (n : Z) : float64 := B64 n 0.

(** Widening [float -> double] (exact) and narrowing [double -> float]
    (rounds). *)
Definition f64_of_f32 (x : float32) : float64 :=
  match x with
  | S754_finite s m e => binary_round prec64 emax64 s m e
  | _ => x
  end.

Definition f32_of_f64 (x : float64) : float32 :=
  match x with
  | S754_finite s m e => binary_round prec32 emax32 s m e
  | _ => x
  end.

(** [floor], [ceil] and truncation.  The result of the C functions is an
    integer-valued float, a NaN or an infinity; the integer is kept as a
    [Z], and [None] stands for NaN and the infinities. *)
Definition f_floor (x : spec_float) : option Z :=
  match x with
  | S754_zero _ => Some 0
  | S754_finite s m e =>
      Some (if 0 <=? e then cond_Zopp s (Zpos m) * 2 ^ e
            else cond_Zopp s (Zpos m) / 2 ^ (- e))
  | _ => None
  end.

Definition f_ceil (x : spec_float) : option Z :=
  match x with
  | S754_zero _ => Some 0
  | S754_finite s m e =>
      Some (if 0 <=? e then cond_Zopp s (Zpos m) * 2 ^ e
            else - ((- cond_Zopp s (Zpos m)) / 2 ^ (- e)))
  | _ => None
  end.

Definition f_trunc (x : spec_float) : option Z :=
  match x with
  | S754_zero _ => Some 0
  | S754_finite s m e =>
      Some (if 0 <=? e then cond_Zopp s (Zpos m) * 2 ^ e
            else Z.quot (cond_Zopp s (Zpos m)) (2 ^ (- e)))
  | _ => None
  end.

(** [fmodf(x, 1.0f)]: the remainder has the sign of [x] and magnitude
    [|x| - trunc |x|]; it is always representable, so nothing is rounded. *)
Definition fmodf1 (x : float32) : float32 :=
  match x with
  | S754_nan | S754_infinity _ => S754_nan
  | S754_zero s => S754_zero s
  | S754_finite s m e =>
      if 0 <=? e then S754_zero s
      else match Zpos m mod 2 ^ (- e) with
           | Zpos r => binary_round prec32 emax32 s r e
           | _ => S754_zero s
           end
  end.

(** [M_PI] of <cmath>: the binary64 number nearest to pi,
    0x400921FB54442D18. *)
Definition M_PI : float64 := S754_finite false 7074237752028440 (-51).

(** The value of a finite binary32 number in units of 2^-149, the
    smallest positive binary32 number: an integer for every valid
    binary32 value. *)
Definition units (x : float32) : Z :=
  match x with
  | S754_finite s m e => cond_Zopp s (Zpos m) * 2 ^ (e + 149)
  | _ => 0
  end.

(** The value of a finite number multiplied by 2^1300: an integer for
    every binary32 and every normal binary64 number of magnitude at least
    2^-1300, which allows values of the two formats to be compared. *)
Definition scaled (x : spec_float) : Z :=
  match x with
  | S754_finite s m e => cond_Zopp s (Zpos m) * 2 ^ (e + 1300)
  | _ => 0
  end.

(** [x] is a finite number with [0 <= x < 1]. *)
Definition unit_range (x : float32) : Prop :=
  match x with
  | S754_zero _ => True
  | S754_finite false m e =>
      bounded prec32 emax32 m e = true /\ Zpos (digits2_pos m) + e <= 0
  | _ => False
  end.

(** [z] is a finite number with [0 <= z < 4]. *)
Definition below_four (z : float32) : Prop :=
  match z with
  | S754_zero _ => True
  | S754_finite false m e =>
      bounded prec32 emax32 m e = true /\ Zpos (digits2_pos m) + e <= 2
  | _ => False
  end.

(** [x] is [+0] or a positive binary32 number. *)
Definition nonneg_finite (x : float32) : Prop :=
  x = S754_zero false
  \/ exists (m : positive) (e : Z),
       x = S754_finite false m e /\ bounded prec32 emax32 m e = true.

End IEEE.
Import IEEE.

(** ** Outcomes of an operation

    [Throw] is a C++ exception reaching the caller, [Undefined] is
    undefined behaviour (an out-of-range conversion, a read past the end of
    a vector, signed overflow, a division by zero), [OutOfFuel] is the
    model running out of loop iterations. *)

Inductive exn : Type :=
| runtime_error (what : string).

Inductive outcome (A : Type) : Type :=
| Ok (a : A)
| Throw (e : exn)
| Undefined
| OutOfFuel.
Arguments Ok {A} a.
Arguments Throw {A} e.
Arguments Undefined {A}.
Arguments OutOfFuel {A}.

Definition bind {A B : Type} (m : outcome A) (k : A -> outcome B) : outcome B :=
  match m with
  | Ok a => k a
  | Throw e => Throw e
  | Undefined => Undefined
  | OutOfFuel => OutOfFuel
  end.

Notation "x <- m ;; k" := (bind m (fun x => k))
  (at level 61, m at next level, right associativity).
Notation "' pat <- m ;; k" := (bind m (fun x => match x with pat => k end))
  (at level 61, pat pattern, m at next level, right associativity).

(** ** Machine integers *)

Definition UINT_MOD : Z := 2 ^ 32.
(** [size_t] arithmetic wraps modulo 2^64. *)
Definition SIZE_MOD : Z := 2 ^ 64.
Definition INT_MAX : Z := 2 ^ 31 - 1.
Definition INT_MIN : Z := - 2 ^ 31.

(** Reduction into [unsigned int]. *)
Definition uint (n : Z) : Z := n mod UINT_MOD.

(** [unsigned int -> int]: two's complement. *)
Definition int_of_uint (u : Z) : Z := if u <=? INT_MAX then u else u - UINT_MOD.

(** Signed addition; overflow is undefined. *)
Definition int_add (a b : Z) : outcome Z :=
  let s := a + b in
  if (INT_MIN <=? s) && (s <=? INT_MAX) then Ok s else Undefined.

(** Floating-point to integer conversions: undefined unless the truncated
    value fits the destination type. *)
Definition cast_uint (v : option Z) : outcome Z :=
  match v with
  | Some n => if (0 <=? n) && (n <? UINT_MOD) then Ok n else Undefined
  | None => Undefined
  end.

Definition cast_int (v : option Z) : outcome Z :=
  match v with
  | Some n => if (INT_MIN <=? n) && (n <=? INT_MAX) then Ok n else Undefined
  | None => Undefined
  end.

(** ** Vectors *)

Definition size {A : Type} (v : list A) : Z := Z.of_nat (length v).

(** [v[i]]: undefined outside the vector. *)
Definition read {A : Type} (v : list A) (i : Z) : outcome A :=
  if i <? 0 then Undefined
  else match nth_error v (Z.to_nat i) with
       | Some a => Ok a
       | None => Undefined
       end.

Fixpoint update_nth {A : Type} (n : nat) (a : A) (v : list A) : option (list A) :=
  match v, n with
  | [], _ => None
  | _ :: t, O => Some (a :: t)
  | h :: t, S n' =>
      match update_nth n' a t with
      | Some t' => Some (h :: t')
      | None => None
      end
  end.

(** [v[i] = a]: undefined outside the vector. *)
Definition write {A : Type} (v : list A) (i : Z) (a : A) : outcome (list A) :=
  if i <? 0 then Undefined
  else match update_nth (Z.to_nat i) a v with
       | Some v' => Ok v'
       | None => Undefined
       end.

(** [v.resize(n)] with value-initialised new elements. *)
Definition resize {A : Type} (d : A) (n : nat) (v : list A) : list A :=
  firstn n v ++ repeat d (n - length v).

(** [for (unsigned int i = lo; i < lo + n; i++) body], [n] iterations. *)
Fixpoint for_loop {S : Type} (body : Z -> S -> outcome S) (lo : Z) (n : nat) (s : S)
  : outcome S :=
  match n with
  | O => Ok s
  | S n' => s' <- body lo s ;; for_loop body (lo + 1) n' s'
  end.

(** ** The kernel *)

Definition complex : Type := float32 * float32.

Definition c_zero : complex := (S754_zero false, S754_zero false).
Definition c_add (a b : complex) : complex :=
  (f32_add (fst a) (fst b), f32_add (snd a) (snd b)).
(** [std::complex<float> * float]. *)
Definition c_scale (a : complex) (k : float32) : complex :=
  (f32_mul (fst a) k, f32_mul (snd a) k).

(** Modelled from the spec: the data members of [pfb_arb_resampler_ccf],
    whose class declaration (pfb_arb_resampler.h) is not among the sources.
    The engine state of the spec (filter index, accumulator, integer and
    fractional rate) and the two banks, with the types their uses in
    pfb_arb_resampler.cc fit: [unsigned int] for the counts and indices,
    [float] for [d_flt_rate] and [d_acc].  A FIR filter object is
    represented by the taps it holds. *)
Record resampler : Type := mk_resampler {
  d_filters : list (list float32);
  d_diff_filters : list (list float32);
  d_taps : list (list float32);
  d_dtaps : list (list float32);
  d_int_rate : Z;
  d_dec_rate : Z;
  d_flt_rate : float32;
  d_acc : float32;
  d_last_filter : Z;
  d_taps_per_filter : Z
}.

Definition with_rate (r : resampler) (dec : Z) (flt : float32) : resampler :=
  mk_resampler (d_filters r) (d_diff_filters r) (d_taps r) (d_dtaps r)
    (d_int_rate r) dec flt (d_acc r) (d_last_filter r) (d_taps_per_filter r).

Definition with_last_filter (r : resampler) (j : Z) : resampler :=
  mk_resampler (d_filters r) (d_diff_filters r) (d_taps r) (d_dtaps r)
    (d_int_rate r) (d_dec_rate r) (d_flt_rate r) (d_acc r) j (d_taps_per_filter r).

Definition with_acc (r : resampler) (acc : float32) : resampler :=
  mk_resampler (d_filters r) (d_diff_filters r) (d_taps r) (d_dtaps r)
    (d_int_rate r) (d_dec_rate r) (d_flt_rate r) acc (d_last_filter r)
    (d_taps_per_filter r).

(** *** set_rate *)

(** [d_dec_rate = (unsigned int)floor(d_int_rate/rate);
     d_flt_rate = (d_int_rate/rate) - d_dec_rate;] *)
Definition rate_quotient (r : resampler) (rate : float32) : float32 :=
  f32_div (f32_of_Z (d_int_rate r)) rate.

Definition set_rate (r : resampler) (rate : float32) : outcome resampler :=
  let q := rate_quotient r rate in
  dec <- cast_uint (f_floor q) ;;
  Ok (with_rate r dec (f32_sub q (f32_of_Z dec))).

(** *** set_phase and phase *)

Definition TWO_PI : float64 := f64_mul (f64_of_Z 2) M_PI.

(** The message ends with a line feed. *)
Definition set_phase_error : exn :=
  runtime_error
    ("pfb_arb_resampler_ccf: set_phase value out of bounds [0, 2pi)."
     ++ String (ascii_of_nat 10) EmptyString)%string.

(** [float ph_diff = 2.0*M_PI / (float)d_filters.size();] *)
Definition ph_diff (r : resampler) : float32 :=
  f32_of_f64 (f64_div TWO_PI (f64_of_f32 (f32_of_Z (size (d_filters r))))).

Definition set_phase (r : resampler) (ph : float32) : outcome resampler :=
  if f32_ltb ph (f32_of_Z 0) || f64_leb TWO_PI (f64_of_f32 ph)
  then Throw set_phase_error
  else
    k <- cast_int (f_trunc (f32_div ph (ph_diff r))) ;;
    Ok (with_last_filter r (uint k)).

Definition phase (r : resampler) : float32 :=
  f32_mul (f32_of_Z (d_last_filter r)) (ph_diff r).

(** *** create_diff_taps *)

(** One turn of the loop of [create_diff_taps]; the state is the local
    [tap], indeterminate until its first assignment, and [difftaps]. *)
Definition diff_body (newtaps : list float32) (i : Z)
    (s : option float32 * list float32) : outcome (option float32 * list float32) :=
  a <- read newtaps (uint (i + 1)) ;;
  b <- read newtaps i ;;
  let tap := f32_sub a b in
  Ok (Some tap, snd s ++ [tap]).

(** [for(unsigned int i = 0; i < newtaps.size()-1; i++) { ... }]: the index
    is an [unsigned int], the bound [newtaps.size()-1] a [size_t].  On an
    empty vector the bound wraps around to 2^64 - 1 and the first turn
    reads [newtaps[1]]; on a vector of more than 2^32 elements the index
    wraps around before it reaches the bound. *)
Fixpoint diff_loop (fuel : nat) (newtaps : list float32) (i : Z)
    (s : option float32 * list float32) : outcome (option float32 * list float32) :=
  if i <? (size newtaps - 1) mod SIZE_MOD then
    match fuel with
    | O => OutOfFuel
    | S fuel' =>
        s' <- diff_body newtaps i s ;;
        diff_loop fuel' newtaps (uint (i + 1)) s'
    end
  else Ok s.

(** After the loop, [difftaps.push_back(tap)] reads the local [tap]: on a
    one-element vector the loop has not run and [tap] is uninitialised. *)
Definition create_diff_taps (fuel : nat) (newtaps : list float32)
  : outcome (list float32) :=
  '(tap, difftaps) <- diff_loop fuel newtaps 0 (None, []) ;;
  match tap with
  | Some t => Ok (difftaps ++ [t])
  | None => Undefined
  end.

(** The finite difference of [taps] at position [k]. *)
Definition diff_at (taps : list float32) (k : nat) : float32 :=
  f32_sub (nth (S k) taps S754_nan) (nth k taps S754_nan).

(** *** create_taps *)

(** [(unsigned int)ceil((double)ntaps/(double)d_int_rate)] *)
Definition taps_per_filter (ntaps N : Z) : outcome Z :=
  cast_uint (f_ceil (f64_div (f64_of_Z ntaps) (f64_of_Z N))).

(** [while((float)(tmp_taps.size()) < d_int_rate*d_taps_per_filter)
       tmp_taps.push_back(0.0);]
    [target] is the unsigned product; both sides are compared as [float]. *)
Fixpoint pad_loop (fuel : nat) (target : Z) (tmp_taps : list float32)
  : outcome (list float32) :=
  if f32_ltb (f32_of_Z (size tmp_taps)) (f32_of_Z target) then
    match fuel with
    | O => OutOfFuel
    | S fuel' => pad_loop fuel' target (tmp_taps ++ [f32_of_Z 0])
    end
  else Ok tmp_taps.

(** [ourtaps[d_int_rate - 1 - i][j] = tmp_taps[i + j*d_int_rate];] *)
Definition row_body (tmp_taps : list float32) (N i j : Z) (row : list float32)
  : outcome (list float32) :=
  v <- read tmp_taps (uint (i + uint (j * N))) ;;
  write row j v.

(** The body of the partition loop: channel [d_int_rate-1-i] of [ourtaps]
    is reset to [d_taps_per_filter] zeros and filled, then handed to filter
    object [i]. *)
Definition partition_body (tmp_taps : list float32) (N tpf i : Z)
    (s : list (list float32) * list (list float32))
  : outcome (list (list float32) * list (list float32)) :=
  let zeros := repeat (f32_of_Z 0) (Z.to_nat tpf) in
  ourtaps <- write (fst s) (uint (N - 1 - i)) zeros ;;
  row <- for_loop (row_body tmp_taps N i) 0 (Z.to_nat tpf) zeros ;;
  ourtaps <- write ourtaps (uint (N - 1 - i)) row ;;
  ourfilter <- write (snd s) i row ;;
  Ok (ourtaps, ourfilter).

(** The zero-padded copy [tmp_taps] of the prototype. *)
Definition pad_taps (fuel : nat) (N : Z) (newtaps : list float32)
  : outcome (Z * list float32) :=
  tpf <- taps_per_filter (uint (size newtaps)) N ;;
  tmp_taps <- pad_loop fuel (uint (N * tpf)) newtaps ;;
  Ok (tpf, tmp_taps).

(** Returns the new [d_taps_per_filter], [ourtaps] and [ourfilter]. *)
Definition create_taps (fuel : nat) (N : Z) (newtaps : list float32)
    (ourtaps ourfilter : list (list float32))
  : outcome (Z * list (list float32) * list (list float32)) :=
  '(tpf, tmp_taps) <- pad_taps fuel N newtaps ;;
  let ourtaps := resize [] (Z.to_nat N) ourtaps in
  '(ourtaps, ourfilter) <-
     for_loop (partition_body tmp_taps N tpf) 0 (Z.to_nat N) (ourtaps, ourfilter) ;;
  Ok (tpf, ourtaps, ourfilter).

(** *** set_taps and the constructor *)

(** [create_diff_taps(taps, dtaps); create_taps(taps, d_taps, d_filters);
     create_taps(dtaps, d_dtaps, d_diff_filters);] *)
Definition set_taps (fuel : nat) (r : resampler) (taps : list float32)
  : outcome resampler :=
  dtaps <- create_diff_taps fuel taps ;;
  '(_, t, f) <- create_taps fuel (d_int_rate r) taps (d_taps r) (d_filters r) ;;
  '(tpf, dt, df) <-
     create_taps fuel (d_int_rate r) dtaps (d_dtaps r) (d_diff_filters r) ;;
  Ok (mk_resampler f df t dt (d_int_rate r) (d_dec_rate r) (d_flt_rate r)
        (d_acc r) (d_last_filter r) tpf).

(** [pfb_arb_resampler_ccf(rate, taps, filter_size)].  The filter objects
    are created over the empty tap vector [vtaps(0, d_int_rate)].  The
    members not yet assigned when [set_rate] and [set_taps] run are given
    as zeros; both calls overwrite them before they are read. *)
Definition pfb_arb_resampler_ccf (fuel : nat) (rate : float32)
    (taps : list float32) (filter_size : Z) : outcome resampler :=
  let r0 := mk_resampler [] [] [] [] filter_size 0 (f32_of_Z 0) (f32_of_Z 0) 0 0 in
  r1 <- set_rate r0 rate ;;
  let n := Z.to_nat filter_size in
  let r2 := mk_resampler (repeat [] n) (repeat [] n) [] [] filter_size
              (d_dec_rate r1) (d_flt_rate r1) (d_acc r1) 0 0 in
  set_taps fuel r2 taps.

(** *** taps and print_taps *)

(** [taps()] returns the tap matrix [d_taps]. *)
Definition taps (r : resampler) : list (list float32) := d_taps r.

(** What [print_taps] sends to the standard output, call of [printf] by
    call: the header of a filter with its index (an [unsigned int] printed
    through [%d]), one tap, the closing bracket. *)
Inductive printed : Type :=
| print_header (i : Z)
| print_tap (v : float32)
| print_footer.

(** [printf(" %.4e", d_taps[i][j]);] *)
Definition print_tap_body (r : resampler) (i j : Z) (out : list printed)
  : outcome (list printed) :=
  row <- read (d_taps r) i ;;
  v <- read row j ;;
  Ok (out ++ [print_tap v]).

Definition print_filter_body (r : resampler) (i : Z) (out : list printed)
  : outcome (list printed) :=
  out <- for_loop (print_tap_body r i) 0 (Z.to_nat (d_taps_per_filter r))
           (out ++ [print_header (int_of_uint i)]) ;;
  Ok (out ++ [print_footer]).

Definition print_taps (r : resampler) : outcome (list printed) :=
  for_loop (print_filter_body r) 0 (Z.to_nat (d_int_rate r)) [].

(** The lines [print_taps] is to print for a tap matrix whose rows are
    numbered from [lo]. *)
Fixpoint printed_rows (lo : Z) (rows : list (list float32)) : list printed :=
  match rows with
  | [] => []
  | row :: rest =>
      print_header lo :: map print_tap row ++ print_footer :: printed_rows (lo + 1) rest
  end.

(** *** filter *)

(** What the statements of [filter] have done when control reaches the
    closing brace of the function: the samples stored in [output[0]],
    [output[1]], ..., the offsets into [input] handed to the FIR filters,
    the final value of the local cursor [count], and the engine. *)
Record filter_result : Type := mk_filter_result {
  fr_written : list complex;
  fr_reads : list Z;
  fr_count : Z;
  fr_engine : resampler
}.

Record loop_state : Type := mk_loop_state {
  ls_i : Z;
  ls_count : Z;
  ls_j : Z;
  ls_acc : float32;
  ls_out : list complex;
  ls_reads : list Z
}.

Section Filter.

(** [fir_filter_ccf::filter(const gr_complex input[])] of a filter object
    holding [taps], applied at [&input[count]]. *)
Variable fir : list float32 -> (Z -> complex) -> Z -> complex.

Variable r : resampler.
Variable input : Z -> complex.
Variable nitems : Z.

(** [while(j < d_int_rate) { ... }] *)
Fixpoint inner_loop (fuel : nat) (s : loop_state) : outcome loop_state :=
  if ls_j s <? d_int_rate r then
    match fuel with
    | O => OutOfFuel
    | S fuel' =>
        f0 <- read (d_filters r) (ls_j s) ;;
        f1 <- read (d_diff_filters r) (ls_j s) ;;
        let o0 := fir f0 input (ls_count s) in
        let o1 := fir f1 input (ls_count s) in
        let y := c_add o0 (c_scale o1 (ls_acc s)) in
        i <- int_add (ls_i s) 1 ;;
        let acc := f32_add (ls_acc s) (d_flt_rate r) in
        fl <- cast_int (f_floor acc) ;;
        let j := uint (ls_j s + uint (d_dec_rate r + uint fl)) in
        inner_loop fuel'
          (mk_loop_state i (ls_count s) j (fmodf1 acc)
             (ls_out s ++ [y]) (ls_reads s ++ [ls_count s]))
    end
  else Ok s.

(** [while(i < nitems) { inner loop; count += (int)(j / d_int_rate);
     j = j % d_int_rate; }] *)
Fixpoint outer_loop (fuel : nat) (s : loop_state) : outcome loop_state :=
  if ls_i s <? nitems then
    match fuel with
    | O => OutOfFuel
    | S fuel' =>
        s1 <- inner_loop fuel s ;;
        if d_int_rate r =? 0 then Undefined
        else
          count <- int_add (ls_count s1) (int_of_uint (ls_j s1 / d_int_rate r)) ;;
          outer_loop fuel'
            (mk_loop_state (ls_i s1) count (ls_j s1 mod d_int_rate r)
               (ls_acc s1) (ls_out s1) (ls_reads s1))
    end
  else Ok s.

(** The statements of [filter], from its first line to [d_last_filter = j;]. *)
Definition filter_body (fuel : nat) : outcome filter_result :=
  s <- outer_loop fuel (mk_loop_state 0 0 (d_last_filter r) (d_acc r) [] []) ;;
  Ok (mk_filter_result (ls_out s) (ls_reads s) (ls_count s)
        (with_last_filter (with_acc r (ls_acc s)) (ls_j s))).

(** [int filter(...)]: the function is declared to return an [int] and has
    no [return] statement, so that control which reaches the closing brace
    flows off the end of a value-returning function: the behaviour of the
    call is undefined. *)
Definition filter (fuel : nat) : outcome Z :=
  _ <- filter_body fuel ;; Undefined.

End Filter.

(** Modelled from the spec: [fir_filter_ccf::filter], whose source file is
    not part of the kernel: one complex sample, the dot product of the real
    taps against the complex samples starting at the given offset into the
    input buffer. *)
Definition fir_dot (taps : list float32) (input : Z -> complex) (off : Z) : complex :=
  fst (fold_left
         (fun (s : complex * Z) (t : float32) =>
            (c_add (fst s) (c_scale (input (off + snd s)) t), snd s + 1))
         taps (c_zero, 0)).

(** The statements of two successive calls on the same engine: the second
    call is given the input advanced by the cursor of the first and stores
    from [output + n1] on. *)
Definition store (buf : list complex) (base : nat) (w : list complex) : list complex :=
  firstn base buf ++ w ++ skipn (base + length w) buf.

Definition filter_twice (fir : list float32 -> (Z -> complex) -> Z -> complex)
    (r : resampler) (input : Z -> complex) (n1 n2 : Z) (fuel : nat)
  : outcome (list complex * resampler) :=
  fr1 <- filter_body fir r input n1 fuel ;;
  fr2 <- filter_body fir (fr_engine fr1) (fun k => input (fr_count fr1 + k)) n2 fuel ;;
  Ok (store (fr_written fr1) (Z.to_nat n1) (fr_written fr2), fr_engine fr2).

(** The state invariant of the spec: the filter index lies in [[0, N)] and
    the accumulator in [[0, 1)]. *)
Definition index_in_range (r : resampler) : Prop :=
  0 <= d_last_filter r < d_int_rate r.

Definition state_invariant (r : resampler) : Prop :=
  index_in_range r /\ unit_range (d_acc r).

(** What is left for the filter index [j] to leave the bank can be covered
    in [k] samples: by the decimation step alone, or by the least advance
    of filter index and accumulator together (the steps [d_dec_rate] and
    [d_flt_rate], less the 2^-23 that rounding the accumulator can cost),
    in units of 2^-149. *)
Definition within (r : resampler) (s : loop_state) (k : Z) : Prop :=
  d_int_rate r - ls_j s <= k * d_dec_rate r
  \/ d_int_rate r * 2 ^ 149 - (ls_j s * 2 ^ 149 + units (ls_acc s))
     <= k * (d_dec_rate r * 2 ^ 149 + units (d_flt_rate r) - 2 ^ 126).

(** The prototype zero-padded to [N * tpf] coefficients, and its strided
    subsequence [tmp[i], tmp[i+N], tmp[i+2N], ...] of [tpf] elements. *)
Definition padded (N tpf : Z) (taps : list float32) : list float32 :=
  taps ++ repeat (f32_of_Z 0) (Z.to_nat (N * tpf - size taps)).

Definition stride (tmp : list float32) (N tpf : Z) (i : nat) : list float32 :=
  map (fun j : nat => nth (i + j * Z.to_nat N) tmp S754_nan)
    (seq 0 (Z.to_nat tpf)).

Definition strides (tmp : list float32) (N tpf : Z) : list (list float32) :=
  map (stride tmp N tpf) (seq 0 (Z.to_nat N)).

(** ** Concrete inputs used below *)

(** A five-tap prototype and a ramp as input signal. *)
Definition proto : list float32 := map f32_of_Z [1; 3; 4; 3; 1].
Definition ramp (k : Z) : complex := (f32_of_Z k, f32_of_Z 0).

(** 6.2831850051879883f (0x40C90FDA), the largest binary32 number below
    2 pi. *)
Definition below_two_pi : float32 := S754_finite false 13176794 (-21).

(** 2^-32 as a [float]. *)
Definition tiny_rate : float32 := B32 1 (-32).

(** 1.80000007f (0x3FE66667), the binary32 number next above 1.8. *)
Definition rate_above_1_8 : float32 := S754_finite false 15099495 (-23).

(** A prototype of 2^24 taps. *)
Definition big_proto : list float32 := repeat (f32_of_Z 1) (Z.to_nat 16777216).

(** A prototype of 2^32 + 1 taps. *)
Definition huge_proto : list float32 := repeat (f32_of_Z 1) (Z.to_nat 4294967297).

(** Engines as the constructor builds them. *)
Definition engine (rate : float32) (filter_size : Z) : outcome resampler :=
  pfb_arb_resampler_ccf 16 rate proto filter_size.

Definition the_engine (rate : float32) (filter_size : Z) : resampler :=
  match engine rate filter_size with
  | Ok r => r
  | _ => mk_resampler [] [] [] [] 0 0 S754_nan S754_nan 0 0
  end.

(** Four filters at rate 8 (interpolation: [d_dec_rate = 0],
    [d_flt_rate = 0.5]). *)
Definition interp8 : resampler := Eval vm_compute in the_engine (f32_of_Z 8) 4.

(** Three filters at rate 1.5 ([d_dec_rate = 2], [d_flt_rate = 0]). *)
Definition interp15 : resampler := Eval vm_compute in the_engine (B32 3 (-1)) 3.

(** Nine filters at rate 1. *)
Definition nine : resampler := Eval vm_compute in the_engine (f32_of_Z 1) 9.

(** Four filters at an infinite rate ([d_dec_rate = 0], [d_flt_rate = 0]). *)
Definition stalled : resampler :=
  Eval vm_compute in the_engine (S754_infinity false) 4.

(** Four filters at rate 0.75 (decimation: [d_dec_rate = 5],
    [d_flt_rate] = 0.3333...). *)
Definition decim : resampler := Eval vm_compute in the_engine (B32 3 (-2)) 4.

(** Two filters at rate 7, after the statements of one call of [filter]
    have left the accumulator at 2^-23, then set to the rate 2^100
    ([d_dec_rate = 0], [d_flt_rate = 2^-99]). *)
Definition stuck : resampler :=
  Eval vm_compute in
    match filter_body fir_dot (the_engine (f32_of_Z 7) 2) ramp 1 8 with
    | Ok fr =>
        match set_rate (fr_engine fr) (B32 1 100) with
        | Ok r => r
        | _ => fr_engine fr
        end
    | _ => the_engine (f32_of_Z 7) 2
    end.

(** * Properties *)

(** ** IEEE-754 rounding

    The facts about [SpecFloat]'s rounding that the kernel relies on: the
    results are canonical binary32 numbers, representable values are not
    rounded, and sums of numbers below 1 stay below 4. *)

(** *** Binary digits *)

Lemma fexp32_eq (e : Z) : fexp prec32 emax32 e = Z.max (e - 24) (-149).
Proof. reflexivity. Qed.

Lemma digits2_pos_size (m : positive) : digits2_pos m = Pos.size m.
Proof. induction m; simpl; congruence. Qed.

Lemma digits_bounds (m : positive) :
  2 ^ (Zpos (digits2_pos m) - 1) <= Zpos m < 2 ^ Zpos (digits2_pos m).
Proof.
  rewrite digits2_pos_size.
  pose proof (Pos.size_gt m) as Hgt.
  pose proof (Pos.size_le m) as Hle.
  apply Pos2Z.pos_lt_pos in Hgt. apply Pos2Z.pos_le_pos in Hle.
  rewrite Pos2Z.inj_pow in Hgt, Hle.
  assert (E : 2 ^ Zpos (Pos.size m) = 2 * 2 ^ (Zpos (Pos.size m) - 1)).
  { rewrite <- Z.pow_succ_r by lia. f_equal. lia. }
  lia.
Qed.

Lemma pow2_lt_inv (a b : Z) : 2 ^ a < 2 ^ b -> 0 <= a -> a < b.
Proof.
  intros H Ha.
  destruct (Z.lt_ge_cases a b) as [Hlt | Hge]; [exact Hlt |].
  destruct (Z.neg_nonneg_cases b) as [Hb | Hb].
  - rewrite (Z.pow_neg_r 2 b Hb) in H.
    pose proof (Z.pow_pos_nonneg 2 a ltac:(lia) Ha). lia.
  - pose proof (Z.pow_le_mono_r 2 b a ltac:(lia) Hge). lia.
Qed.

Lemma Zdigits2_pos_bounds (m : Z) :
  0 < m -> 1 <= Zdigits2 m /\ 2 ^ (Zdigits2 m - 1) <= m < 2 ^ Zdigits2 m.
Proof.
  destruct m as [| p | p]; try lia. intros _. cbn [Zdigits2].
  split; [lia | apply digits_bounds].
Qed.

Lemma Zdigits2_nonneg (m : Z) : 0 <= Zdigits2 m.
Proof. destruct m; cbn; lia. Qed.

Lemma Zdigits2_unique (m k : Z) :
  2 ^ (k - 1) <= m < 2 ^ k -> 0 < m -> Zdigits2 m = k.
Proof.
  intros [Hlo Hhi] Hm.
  destruct (Zdigits2_pos_bounds m Hm) as (Hd & Hdlo & Hdhi).
  assert (Hk : 1 <= k).
  { destruct (Z.lt_ge_cases k 1) as [Hk | Hk]; [| exact Hk].
    assert (2 ^ k <= 1).
    { destruct (Z.eq_dec k 0) as [-> | Hne]; [cbn; lia |].
      rewrite Z.pow_neg_r by lia. lia. }
    lia. }
  assert (Zdigits2 m - 1 < k) by (apply pow2_lt_inv; lia).
  assert (k - 1 < Zdigits2 m) by (apply pow2_lt_inv; lia).
  lia.
Qed.

Lemma Zdigits2_le (m k : Z) : 0 <= m < 2 ^ k -> 0 <= k -> Zdigits2 m <= k.
Proof.
  intros [Hm Hk] H0.
  destruct (Z.eq_dec m 0) as [-> | Hne]; [cbn; lia |].
  destruct (Zdigits2_pos_bounds m ltac:(lia)) as (Hd & Hdlo & _).
  assert (Zdigits2 m - 1 < k) by (apply pow2_lt_inv; lia).
  lia.
Qed.

Lemma Zdigits2_ge (m k : Z) : 2 ^ (k - 1) <= m -> 1 <= k -> k <= Zdigits2 m.
Proof.
  intros Hm Hk.
  assert (0 < 2 ^ (k - 1)) by (apply Z.pow_pos_nonneg; lia).
  destruct (Zdigits2_pos_bounds m ltac:(lia)) as (Hd & _ & Hdhi).
  assert (k - 1 < Zdigits2 m) by (apply pow2_lt_inv; lia).
  lia.
Qed.

Lemma Zdigits2_mul_pow2 (m n : Z) :
  0 < m -> 0 <= n -> Zdigits2 (m * 2 ^ n) = Zdigits2 m + n.
Proof.
  intros Hm Hn.
  destruct (Zdigits2_pos_bounds m Hm) as (Hd & Hlo & Hhi).
  assert (Hp : 0 < 2 ^ n) by (apply Z.pow_pos_nonneg; lia).
  apply Zdigits2_unique; [| nia].
  replace (Zdigits2 m + n - 1) with ((Zdigits2 m - 1) + n) by lia.
  rewrite !Z.pow_add_r by lia. nia.
Qed.

Lemma Zdigits2_div_pow2 (m n : Z) :
  0 <= m -> 0 <= n -> Zdigits2 (m / 2 ^ n) = Z.max 0 (Zdigits2 m - n).
Proof.
  intros Hm Hn.
  assert (Hp : 0 < 2 ^ n) by (apply Z.pow_pos_nonneg; lia).
  destruct (Z.eq_dec m 0) as [-> | Hne].
  { rewrite Z.div_0_l by lia. cbn. lia. }
  destruct (Zdigits2_pos_bounds m ltac:(lia)) as (Hd & Hlo & Hhi).
  destruct (Z.le_gt_cases (Zdigits2 m) n) as [Hsmall | Hbig].
  - assert (m < 2 ^ n).
    { pose proof (Z.pow_le_mono_r 2 (Zdigits2 m) n ltac:(lia) Hsmall). lia. }
    rewrite Z.div_small by lia. cbn. lia.
  - rewrite Z.max_r by lia.
    assert (E1 : 2 ^ (Zdigits2 m - 1) = 2 ^ (Zdigits2 m - n - 1) * 2 ^ n).
    { rewrite <- Z.pow_add_r by lia. f_equal. lia. }
    assert (E2 : 2 ^ Zdigits2 m = 2 ^ (Zdigits2 m - n) * 2 ^ n).
    { rewrite <- Z.pow_add_r by lia. f_equal. lia. }
    assert (0 < 2 ^ (Zdigits2 m - n - 1)) by (apply Z.pow_pos_nonneg; lia).
    assert (Hq1 : 2 ^ (Zdigits2 m - n - 1) <= m / 2 ^ n).
    { apply Z.div_le_lower_bound; [lia |]. rewrite Z.mul_comm. lia. }
    assert (Hq2 : m / 2 ^ n < 2 ^ (Zdigits2 m - n)).
    { apply Z.div_lt_upper_bound; [lia |]. rewrite Z.mul_comm. lia. }
    apply Zdigits2_unique; [| lia].
    replace (Zdigits2 m - n - 1) with (Zdigits2 m - n - 1) by lia. lia.
Qed.

Lemma Zdigits2_succ (m : Z) :
  0 <= m -> Zdigits2 m <= Zdigits2 (m + 1) <= Zdigits2 m + 1.
Proof.
  intros Hm.
  destruct (Z.eq_dec m 0) as [-> | Hne]; [cbn; lia |].
  destruct (Zdigits2_pos_bounds m ltac:(lia)) as (Hd & Hlo & Hhi).
  split.
  - apply Zdigits2_ge; lia.
  - apply Zdigits2_le; [| lia].
    rewrite Z.pow_add_r by lia. lia.
Qed.

Lemma Zdigits2_mono (a b : Z) : 0 <= a <= b -> Zdigits2 a <= Zdigits2 b.
Proof.
  intros [Ha Hab].
  destruct (Z.eq_dec a 0) as [-> | Hne]; [cbn; apply Zdigits2_nonneg |].
  destruct (Zdigits2_pos_bounds a ltac:(lia)) as (Hd & Hlo & Hhi).
  apply Zdigits2_ge; lia.
Qed.

(** *** Shifting and rounding *)

Lemma iter_pos_swap {A : Type} (f : A -> A) (p : positive) :
  forall x, iter_pos f p (f x) = f (iter_pos f p x).
Proof.
  induction p as [p IH | p IH |]; intros x; simpl.
  - now rewrite !IH.
  - now rewrite !IH.
  - reflexivity.
Qed.

Lemma iter_pos_succ {A : Type} (f : A -> A) (p : positive) :
  forall x, iter_pos f (Pos.succ p) x = f (iter_pos f p x).
Proof.
  induction p as [p IH | p IH |]; intros x; simpl.
  - rewrite !IH. now rewrite !iter_pos_swap.
  - now rewrite !iter_pos_swap.
  - reflexivity.
Qed.

Lemma shr_1_m (mrs : shr_record) :
  0 <= shr_m mrs -> shr_m (shr_1 mrs) = shr_m mrs / 2.
Proof.
  destruct mrs as [m r s]. cbn [shr_m]. intros Hm.
  rewrite <- Z.div2_div.
  destruct m as [| p | p]; [reflexivity | | lia].
  destruct p; reflexivity.
Qed.

Lemma shr_m_iter (p : positive) :
  forall mrs, 0 <= shr_m mrs ->
    shr_m (iter_pos shr_1 p mrs) = shr_m mrs / 2 ^ Zpos p.
Proof.
  induction p as [| p IH] using Pos.peano_ind; intros mrs Hm.
  - cbn [iter_pos]. now rewrite shr_1_m.
  - rewrite iter_pos_succ, shr_1_m.
    + rewrite IH by exact Hm.
      rewrite Pos2Z.inj_succ, Z.pow_succ_r by lia.
      rewrite Z.div_div by lia. f_equal. lia.
    + rewrite IH by exact Hm. apply Z.div_pos; [exact Hm |].
      apply Z.pow_pos_nonneg; lia.
Qed.

Lemma shr_1_even (k : Z) :
  0 <= k -> shr_1 (Build_shr_record (2 * k) false false) = Build_shr_record k false false.
Proof. destruct k; try lia; reflexivity. Qed.

(** Shifting out zeros is exact. *)
Lemma shr_exact (p : positive) :
  forall k, 0 <= k ->
    iter_pos shr_1 p (Build_shr_record (k * 2 ^ Zpos p) false false)
    = Build_shr_record k false false.
Proof.
  induction p as [| p IH] using Pos.peano_ind; intros k Hk.
  - cbn [iter_pos]. rewrite Z.mul_comm. now apply shr_1_even.
  - rewrite iter_pos_succ, <- iter_pos_swap.
    rewrite Pos2Z.inj_succ, Z.pow_succ_r by lia.
    replace (k * (2 * 2 ^ Zpos p)) with (2 * (k * 2 ^ Zpos p)) by lia.
    rewrite shr_1_even.
    + now apply IH.
    + apply Z.mul_nonneg_nonneg; [exact Hk |]. apply Z.pow_nonneg; lia.
Qed.

Lemma shr_record_of_loc_m (m : Z) (l : location) :
  shr_m (shr_record_of_loc m l) = m.
Proof. destruct l as [| []]; reflexivity. Qed.

Lemma shr_spec (mrs : shr_record) (e n : Z) :
  0 <= shr_m mrs -> 0 <= n ->
  snd (shr mrs e n) = e + n
  /\ shr_m (fst (shr mrs e n)) = shr_m mrs / 2 ^ n.
Proof.
  intros Hm Hn. destruct n as [| p | p]; [| | lia].
  - cbn. rewrite Z.div_1_r. split; [lia | reflexivity].
  - cbn [shr fst snd]. split; [reflexivity | now apply shr_m_iter].
Qed.

Lemma shr_nonpos (mrs : shr_record) (e n : Z) : n <= 0 -> shr mrs e n = (mrs, e).
Proof. destruct n; [reflexivity | lia | reflexivity]. Qed.

Lemma round_nearest_even_bounds (m : Z) (l : location) :
  m <= round_nearest_even m l <= m + 1.
Proof. destruct l as [| []]; cbn; try destruct (Z.even m); lia. Qed.

Lemma shr_fexp_spec (mx ex : Z) (lx : location) :
  0 <= mx ->
  ex <= fexp prec32 emax32 (Zdigits2 mx + ex) ->
  exists mrs' : shr_record,
    shr_fexp prec32 emax32 mx ex lx = (mrs', fexp prec32 emax32 (Zdigits2 mx + ex))
    /\ shr_m mrs' = mx / 2 ^ (fexp prec32 emax32 (Zdigits2 mx + ex) - ex).
Proof.
  intros Hmx Hex. unfold shr_fexp.
  set (n := fexp prec32 emax32 (Zdigits2 mx + ex) - ex).
  destruct (shr_spec (shr_record_of_loc mx lx) ex n) as [Hs1 Hs2];
    [rewrite shr_record_of_loc_m; lia | lia |].
  destruct (shr (shr_record_of_loc mx lx) ex n) as [mrs' e'].
  cbn [fst snd] in Hs1, Hs2. rewrite shr_record_of_loc_m in Hs2.
  exists mrs'. split; [f_equal; lia | exact Hs2].
Qed.

Lemma shr_fexp_nonpos (mx ex : Z) :
  fexp prec32 emax32 (Zdigits2 mx + ex) <= ex ->
  shr_fexp prec32 emax32 mx ex loc_Exact = (Build_shr_record mx false false, ex).
Proof. intros H. unfold shr_fexp. cbn [shr_record_of_loc]. apply shr_nonpos. lia. Qed.

(** What [binary_round_aux] returns on a mantissa carrying enough digits:
    a zero, an overflow, or a canonical binary32 number at most one binade
    above the input. *)
Lemma binary_round_aux_structure (s : bool) (mx ex : Z) (lx : location) :
  0 <= mx ->
  ex <= fexp prec32 emax32 (Zdigits2 mx + ex) ->
  let z := binary_round_aux prec32 emax32 s mx ex lx in
  z = S754_zero s
  \/ (z = S754_infinity s /\ 127 < Zdigits2 mx + ex)
  \/ exists (m : positive) (e : Z),
       z = S754_finite s m e
       /\ bounded prec32 emax32 m e = true
       /\ Zpos (digits2_pos m) + e <= Z.max (Zdigits2 mx + ex) (-149) + 1.
Proof.
  intros Hmx Hex z. subst z. unfold binary_round_aux.
  destruct (shr_fexp_spec mx ex lx Hmx Hex) as (mrs' & Eq1 & Hs2).
  rewrite Eq1. clear Eq1.
  set (E := Zdigits2 mx + ex) in *.
  set (e1 := fexp prec32 emax32 E) in *.
  assert (He1 : e1 = Z.max (E - 24) (-149)) by reflexivity.
  set (m1 := shr_m mrs') in *.
  assert (Hn : 0 <= e1 - ex) by lia.
  assert (Hm1 : 0 <= m1).
  { rewrite Hs2. apply Z.div_pos; [lia |]. apply Z.pow_pos_nonneg; lia. }
  assert (Hd1 : Zdigits2 m1 = Z.max 0 (Zdigits2 mx - (e1 - ex))).
  { rewrite Hs2. now apply Zdigits2_div_pow2. }
  set (mr := round_nearest_even m1 (loc_of_shr_record mrs')).
  pose proof (round_nearest_even_bounds m1 (loc_of_shr_record mrs')) as Hmr.
  fold mr in Hmr.
  assert (Hdr : Zdigits2 m1 <= Zdigits2 mr <= Zdigits2 m1 + 1).
  { pose proof (Zdigits2_succ m1 Hm1).
    pose proof (Zdigits2_mono m1 mr ltac:(lia)).
    pose proof (Zdigits2_mono mr (m1 + 1) ltac:(lia)). lia. }
  destruct (Z.le_gt_cases (Zdigits2 mr) 24) as [Hsmall | Hbig].
  - (* no renormalisation *)
    rewrite shr_fexp_nonpos by (rewrite fexp32_eq; lia).
    cbn [shr_m].
    destruct mr as [| m | m] eqn:Emr; [now left | | lia].
    right.
    assert (Hcanon : canonical_mantissa prec32 emax32 m e1 = true).
    { unfold canonical_mantissa. apply Z.eqb_eq. rewrite fexp32_eq.
      cbn [Zdigits2] in Hsmall, Hdr. lia. }
    destruct (Z.leb_spec e1 (emax32 - prec32)) as [Hle | Hgt].
    + right. exists m, e1. split; [reflexivity |]. split.
      * unfold bounded. rewrite Hcanon. cbn [andb]. now apply Z.leb_le.
      * cbn [Zdigits2] in Hsmall, Hdr. lia.
    + left. split; [reflexivity |]. unfold emax32, prec32 in Hgt. lia.
  - (* the rounded mantissa reached 2^24 *)
    assert (Hd25 : Zdigits2 mr = 25) by lia.
    assert (Hd24 : Zdigits2 m1 = 24) by lia.
    destruct (shr_fexp_spec mr e1 loc_Exact) as (mrs'' & Eq2 & Ht2);
      [lia | rewrite fexp32_eq; lia |].
    rewrite Eq2. clear Eq2.
    rewrite fexp32_eq in Ht2 |- *.
    replace (Z.max (Zdigits2 mr + e1 - 24) (-149)) with (e1 + 1) in Ht2 |- * by lia.
    replace (e1 + 1 - e1) with 1 in Ht2 by lia.
    assert (Hd2 : Zdigits2 (shr_m mrs'') = 24).
    { rewrite Ht2, Zdigits2_div_pow2 by lia. lia. }
    destruct (shr_m mrs'') as [| m | m] eqn:Em2; [cbn in Hd2; lia | | ].
    2:{ exfalso. assert (0 <= Z.neg m); [| lia].
        rewrite Ht2. apply Z.div_pos; lia. }
    right. cbn [Zdigits2] in Hd2.
    destruct (Z.leb_spec (e1 + 1) (emax32 - prec32)) as [Hle | Hgt].
    + right. exists m, (e1 + 1). split; [reflexivity |]. split.
      * unfold bounded, canonical_mantissa. rewrite fexp32_eq.
        apply andb_true_intro. split; [apply Z.eqb_eq; lia | now apply Z.leb_le].
      * lia.
    + left. split; [reflexivity |]. unfold emax32, prec32 in Hgt. lia.
Qed.

Lemma iter_xO_value (m d : positive) :
  Zpos (Pos.iter xO m d) = Zpos m * 2 ^ Zpos d.
Proof.
  induction d as [| d IH] using Pos.peano_ind.
  - cbn [Pos.iter]. lia.
  - rewrite Pos.iter_succ, Pos2Z.inj_succ, Z.pow_succ_r by lia.
    rewrite Pos2Z.inj_xO, IH. lia.
Qed.

(** [shl_align] keeps the value and reaches the wanted exponent when it
    lies below. *)
Lemma shl_align_spec (mx : positive) (ex ex' : Z) :
  let '(mz, ez) := shl_align mx ex ex' in
  ez = Z.min ex ex' /\ Zpos mz = Zpos mx * 2 ^ (ex - ez).
Proof.
  unfold shl_align.
  destruct (ex' - ex) as [| d | d] eqn:Ed.
  - split; [lia |]. rewrite Z.sub_diag. cbn. lia.
  - split; [lia |]. rewrite Z.sub_diag. cbn. lia.
  - split; [lia |]. rewrite iter_xO_value. f_equal. f_equal. lia.
Qed.

Lemma shl_align_digits (mx : positive) (ex ex' : Z) :
  let '(mz, ez) := shl_align mx ex ex' in
  Zpos (digits2_pos mz) + ez = Zpos (digits2_pos mx) + ex.
Proof.
  pose proof (shl_align_spec mx ex ex') as H.
  destruct (shl_align mx ex ex') as [mz ez]. destruct H as [Hez Hmz].
  change (Zdigits2 (Zpos mz) + ez = Zdigits2 (Zpos mx) + ex).
  rewrite Hmz, Zdigits2_mul_pow2 by lia. lia.
Qed.

(** The same structure for [binary_round], on any mantissa. *)
Lemma binary_round_structure (s : bool) (mx : positive) (ex : Z) :
  let z := binary_round prec32 emax32 s mx ex in
  z = S754_zero s
  \/ (z = S754_infinity s /\ 127 < Zpos (digits2_pos mx) + ex)
  \/ exists (m : positive) (e : Z),
       z = S754_finite s m e
       /\ bounded prec32 emax32 m e = true
       /\ Zpos (digits2_pos m) + e <= Z.max (Zpos (digits2_pos mx) + ex) (-149) + 1.
Proof.
  unfold binary_round.
  pose proof (shl_align_spec mx ex (fexp prec32 emax32 (Zpos (digits2_pos mx) + ex))) as Hv.
  pose proof (shl_align_digits mx ex (fexp prec32 emax32 (Zpos (digits2_pos mx) + ex))) as Hd.
  destruct (shl_align mx ex _) as [mz ez]. destruct Hv as [Hez Hmz].
  rewrite <- Hd.
  apply (binary_round_aux_structure s (Zpos mz) ez loc_Exact); [lia |].
  cbn [Zdigits2]. rewrite Hd. lia.
Qed.

(** A canonical mantissa goes through [binary_round_aux] unchanged. *)
Lemma binary_round_aux_canonical (s : bool) (m : positive) (e : Z) :
  bounded prec32 emax32 m e = true ->
  binary_round_aux prec32 emax32 s (Zpos m) e loc_Exact = S754_finite s m e.
Proof.
  unfold bounded, canonical_mantissa. intros H.
  apply andb_prop in H. destruct H as [Hc He]. apply Z.eqb_eq in Hc.
  unfold binary_round_aux.
  rewrite shr_fexp_nonpos by (cbn [Zdigits2]; lia).
  cbn [shr_m loc_of_shr_record round_nearest_even].
  rewrite shr_fexp_nonpos by (cbn [Zdigits2]; lia).
  cbn [shr_m]. now rewrite He.
Qed.

(** Rounding a representable value is exact. *)
Lemma binary_round_exact (s : bool) (mx : positive) (ex : Z) :
  let e := fexp prec32 emax32 (Zpos (digits2_pos mx) + ex) in
  e <= ex -> e <= 104 ->
  exists m : positive,
    binary_round prec32 emax32 s mx ex = S754_finite s m e
    /\ Zpos m = Zpos mx * 2 ^ (ex - e)
    /\ bounded prec32 emax32 m e = true.
Proof.
  intros e He Hmax. unfold binary_round. fold e.
  pose proof (shl_align_spec mx ex e) as Hv.
  pose proof (shl_align_digits mx ex e) as Hd.
  destruct (shl_align mx ex e) as [mz ez]. destruct Hv as [Hez Hmz].
  assert (Hee : ez = e) by lia. clear Hez. subst ez.
  assert (Hb : bounded prec32 emax32 mz e = true).
  { unfold bounded, canonical_mantissa. rewrite Hd. fold e.
    apply andb_true_intro. split; [apply Z.eqb_refl | apply Z.leb_le; exact Hmax]. }
  exists mz. split; [now apply binary_round_aux_canonical |]. now split.
Qed.

Lemma bounded_inv (m : positive) (e : Z) :
  bounded prec32 emax32 m e = true ->
  e = Z.max (Zpos (digits2_pos m) + e - 24) (-149) /\ e <= 104.
Proof.
  unfold bounded, canonical_mantissa. intros H.
  apply andb_prop in H. destruct H as [Hc He].
  apply Z.eqb_eq in Hc. apply Z.leb_le in He.
  rewrite fexp32_eq in Hc. unfold emax32, prec32 in He. lia.
Qed.

(** *** The accumulator step *)

Lemma unit_range_below_four (x : float32) : unit_range x -> below_four x.
Proof.
  destruct x as [s | s | | [] m e]; cbn [unit_range below_four]; try tauto.
  intros [Hb Hd]. split; [exact Hb | lia].
Qed.

(** [unit_range] read on the value: between 0 and 1 in units of 2^-149. *)
Lemma unit_range_units (x : float32) :
  unit_range x -> 0 <= units x < 2 ^ 149.
Proof.
  destruct x as [s | s | | [] m e]; cbn [unit_range units]; try tauto; try lia.
  intros [Hb Hd]. destruct (bounded_inv m e Hb) as [Hc _].
  pose proof (digits_bounds m) as [_ Hhi].
  change (cond_Zopp false (Zpos m)) with (Zpos m).
  assert (Hp : 0 < 2 ^ (e + 149)) by (apply Z.pow_pos_nonneg; lia).
  assert (Hle : 2 ^ Zpos (digits2_pos m) * 2 ^ (e + 149) <= 2 ^ 149).
  { rewrite <- Z.pow_add_r by lia. apply Z.pow_le_mono_r; lia. }
  nia.
Qed.

Lemma aligned_below (m : positive) (e ez : Z) :
  Zpos (digits2_pos m) + e <= 0 -> ez <= e ->
  Zpos m * 2 ^ (e - ez) < 2 ^ (- ez).
Proof.
  intros Hd Hez.
  pose proof (digits_bounds m) as [_ Hhi].
  assert (Hp : 0 < 2 ^ (e - ez)) by (apply Z.pow_pos_nonneg; lia).
  assert (Hle : 2 ^ Zpos (digits2_pos m) * 2 ^ (e - ez) <= 2 ^ (- ez)).
  { rewrite <- Z.pow_add_r by lia. apply Z.pow_le_mono_r; lia. }
  nia.
Qed.

(** [d_acc += d_flt_rate] on values in [[0, 1)]. *)
Lemma f32_add_unit_range (x y : float32) :
  unit_range x -> unit_range y -> below_four (f32_add x y).
Proof.
  intros Hx Hy.
  destruct x as [sx | sx | | [] mx ex]; cbn [unit_range] in Hx; try tauto;
    destruct y as [sy | sy | | [] my ey]; cbn [unit_range] in Hy; try tauto.
  - destruct sx, sy; exact I.
  - cbn [f32_add SFadd below_four]. destruct Hy. split; [assumption | lia].
  - cbn [f32_add SFadd below_four]. destruct Hx. split; [assumption | lia].
  - destruct Hx as [Hbx Hdx], Hy as [Hby Hdy].
    unfold f32_add, SFadd. cbn [cond_Zopp].
    set (ez := Z.min ex ey).
    pose proof (shl_align_spec mx ex ez) as Hax.
    pose proof (shl_align_spec my ey ez) as Hay.
    destruct (shl_align mx ex ez) as [ax ezx].
    destruct (shl_align my ey ez) as [ay ezy].
    destruct Hax as [Hezx Hax], Hay as [Hezy Hay]. cbn [fst].
    replace ezx with ez in Hax by (unfold ez in *; lia).
    replace ezy with ez in Hay by (unfold ez in *; lia).
    change (Zpos ax + Zpos ay) with (Zpos (ax + ay)).
    cbn [binary_normalize].
    assert (Hsum : Zpos (digits2_pos (ax + ay)) + ez <= 1).
    { pose proof (aligned_below mx ex ez Hdx ltac:(unfold ez; lia)).
      pose proof (aligned_below my ey ez Hdy ltac:(unfold ez; lia)).
      pose proof (digits_bounds mx). pose proof (digits_bounds my).
      pose proof (Pos2Z.is_pos (digits2_pos mx)).
      assert (Hez : ez <= -1) by (unfold ez; lia).
      assert (Zdigits2 (Zpos (ax + ay)) <= 1 - ez); [| cbn [Zdigits2] in *; lia].
      apply Zdigits2_le; [| lia].
      replace (1 - ez) with (Z.succ (- ez)) by lia.
      rewrite Z.pow_succ_r by lia. rewrite Pos2Z.inj_add. lia. }
    destruct (binary_round_structure false (ax + ay) ez)
      as [Hz | [[Hz Hbig] | (m & e & Hz & Hb & Hd)]].
    + rewrite Hz. exact I.
    + lia.
    + rewrite Hz. cbn [below_four]. split; [exact Hb | lia].
Qed.

(** [(int)floor(d_acc)] after the addition. *)
Lemma f_floor_below_four (z : float32) :
  below_four z -> exists fl : Z, f_floor z = Some fl /\ 0 <= fl <= 3.
Proof.
  destruct z as [s | s | | [] m e]; cbn [below_four]; try tauto.
  - intros _. exists 0. split; [reflexivity | lia].
  - intros [_ Hd]. cbn [f_floor cond_Zopp].
    pose proof (digits_bounds m) as [_ Hhi].
    destruct (Z.leb_spec 0 e) as [He | He].
    + eexists. split; [reflexivity |].
      assert (Hp : 0 < 2 ^ e) by (apply Z.pow_pos_nonneg; lia).
      assert (2 ^ Zpos (digits2_pos m) * 2 ^ e <= 2 ^ 2).
      { rewrite <- Z.pow_add_r by lia. apply Z.pow_le_mono_r; lia. }
      change (2 ^ 2) with 4 in *. nia.
    + eexists. split; [reflexivity |].
      assert (Hp : 0 < 2 ^ (- e)) by (apply Z.pow_pos_nonneg; lia).
      assert (2 ^ Zpos (digits2_pos m) <= 2 ^ 2 * 2 ^ (- e)).
      { rewrite <- Z.pow_add_r by lia. apply Z.pow_le_mono_r; lia. }
      change (2 ^ 2) with 4 in *.
      split.
      * apply Z.div_pos; lia.
      * assert (Zpos m / 2 ^ (- e) < 4); [| lia].
        apply Z.div_lt_upper_bound; lia.
Qed.

(** [fmodf(d_acc, 1.0)] brings a non-negative finite number back into
    [[0, 1)]. *)
Lemma fmodf1_unit_range (m : positive) (e : Z) :
  bounded prec32 emax32 m e = true ->
  unit_range (fmodf1 (S754_finite false m e)).
Proof.
  intros Hb. destruct (bounded_inv m e Hb) as [Hc He].
  cbn [fmodf1].
  destruct (Z.leb_spec 0 e) as [Hpos | Hneg]; [exact I |].
  assert (Hp : 0 < 2 ^ (- e)) by (apply Z.pow_pos_nonneg; lia).
  pose proof (Z.mod_pos_bound (Zpos m) (2 ^ (- e)) Hp) as Hr.
  destruct (Zpos m mod 2 ^ (- e)) as [| r | r] eqn:Er; [exact I | | lia].
  assert (Hdr : Zpos (digits2_pos r) <= - e).
  { change (Zdigits2 (Zpos r) <= - e). apply Zdigits2_le; lia. }
  assert (Hdm : Zpos (digits2_pos r) <= Zpos (digits2_pos m)).
  { change (Zdigits2 (Zpos r) <= Zdigits2 (Zpos m)). apply Zdigits2_mono.
    pose proof (Z.mod_le (Zpos m) (2 ^ (- e)) ltac:(lia) Hp). lia. }
  destruct (binary_round_exact false r e) as (m' & Hz & Hm' & Hb');
    [rewrite fexp32_eq; lia | rewrite fexp32_eq; lia |].
  rewrite Hz. cbn [unit_range]. split; [exact Hb' |].
  rewrite fexp32_eq in Hm' |- *.
  set (ec := Z.max (Zpos (digits2_pos r) + e - 24) (-149)) in *.
  assert (Zdigits2 (Zpos m') = Zdigits2 (Zpos r) + (e - ec)).
  { rewrite Hm'. apply Zdigits2_mul_pow2; unfold ec; lia. }
  cbn [Zdigits2] in *. lia.
Qed.

Lemma fmodf1_below_four (z : float32) : below_four z -> unit_range (fmodf1 z).
Proof.
  destruct z as [s | s | | [] m e]; cbn [below_four]; try tauto.
  intros [Hb _]. now apply fmodf1_unit_range.
Qed.

(** *** Exact results *)

(** A canonical number given with trailing zero bits is recovered. *)
Lemma binary_round_aux_shifted (s : bool) (m : positive) (e k : Z) :
  bounded prec32 emax32 m e = true -> 0 <= k ->
  binary_round_aux prec32 emax32 s (Zpos m * 2 ^ k) (e - k) loc_Exact
  = S754_finite s m e.
Proof.
  intros Hb Hk. destruct (bounded_inv m e Hb) as [Hc He].
  assert (Hp : 0 < 2 ^ k) by (apply Z.pow_pos_nonneg; lia).
  assert (Hd : Zdigits2 (Zpos m * 2 ^ k) = Zpos (digits2_pos m) + k).
  { rewrite Zdigits2_mul_pow2 by lia. reflexivity. }
  unfold binary_round_aux.
  assert (E1 : shr_fexp prec32 emax32 (Zpos m * 2 ^ k) (e - k) loc_Exact
               = (Build_shr_record (Zpos m) false false, e)).
  { unfold shr_fexp. rewrite Hd, fexp32_eq. cbn [shr_record_of_loc].
    replace (Z.max (Zpos (digits2_pos m) + k + (e - k) - 24) (-149) - (e - k))
      with k by lia.
    destruct k as [| p | p]; [| | lia].
    - cbn [shr]. rewrite Z.mul_1_r. f_equal. lia.
    - cbn [shr]. rewrite shr_exact by lia. f_equal. lia. }
  rewrite E1. cbn [shr_m loc_of_shr_record round_nearest_even].
  rewrite shr_fexp_nonpos by (cbn [Zdigits2]; rewrite fexp32_eq; lia).
  cbn [shr_m].
  destruct (Z.leb_spec e (emax32 - prec32)) as [_ | Hgt]; [reflexivity |].
  unfold emax32, prec32 in Hgt. lia.
Qed.

(** Rounding a value that is a binary32 number returns that number. *)
Lemma binary_round_repr (s : bool) (mx : positive) (ex : Z) (m : positive) (e : Z) :
  bounded prec32 emax32 m e = true ->
  (e <= ex /\ Zpos m = Zpos mx * 2 ^ (ex - e))
  \/ (ex <= e /\ Zpos mx = Zpos m * 2 ^ (e - ex)) ->
  binary_round prec32 emax32 s mx ex = S754_finite s m e.
Proof.
  intros Hb Hrepr. destruct (bounded_inv m e Hb) as [Hc He].
  assert (Hd : Zpos (digits2_pos mx) + ex = Zpos (digits2_pos m) + e).
  { change (Zdigits2 (Zpos mx) + ex = Zdigits2 (Zpos m) + e).
    destruct Hrepr as [[Hle Hv] | [Hle Hv]]; rewrite Hv;
      rewrite Zdigits2_mul_pow2 by lia; lia. }
  destruct Hrepr as [[Hle Hv] | [Hle Hv]].
  - destruct (binary_round_exact s mx ex) as (m' & Hz & Hm' & _);
      [rewrite Hd, fexp32_eq; lia | rewrite Hd, fexp32_eq; lia |].
    rewrite Hd, fexp32_eq in Hz, Hm'.
    replace (Z.max (Zpos (digits2_pos m) + e - 24) (-149)) with e in Hz, Hm' by lia.
    rewrite Hz. f_equal. apply Pos2Z.inj. lia.
  - unfold binary_round. rewrite Hd, fexp32_eq.
    replace (Z.max (Zpos (digits2_pos m) + e - 24) (-149)) with e by lia.
    assert (Es : shl_align mx ex e = (mx, ex)).
    { unfold shl_align. destruct (e - ex) eqn:Ed; try reflexivity. lia. }
    rewrite Es, Hv.
    replace ex with (e - (e - ex)) at 2 by lia.
    apply binary_round_aux_shifted; [exact Hb | lia].
Qed.

(** The quotient handed to the rounding of a division carries enough
    digits. *)
Lemma SFdiv_core_digits (m1 : positive) (e1 : Z) (m2 : positive) (e2 : Z) :
  let '(q, e', l) := SFdiv_core_binary prec32 emax32 (Zpos m1) e1 (Zpos m2) e2 in
  0 <= q /\ e' <= fexp prec32 emax32 (Zdigits2 q + e').
Proof.
  unfold SFdiv_core_binary.
  set (d1 := Zdigits2 (Zpos m1)). set (d2 := Zdigits2 (Zpos m2)).
  set (e' := Z.min (fexp prec32 emax32 (d1 + e1 - (d2 + e2))) (e1 - e2)).
  set (sh := e1 - e2 - e').
  assert (Hsh : 0 <= sh) by (unfold sh, e'; lia).
  set (m' := match sh with
             | 0 => Zpos m1
             | Zpos _ => Z.shiftl (Zpos m1) sh
             | Zneg _ => 0
             end).
  assert (Hm' : m' = Zpos m1 * 2 ^ sh).
  { unfold m'. destruct sh as [| p | p] eqn:Esh; [cbn; lia | | lia].
    now rewrite Z.shiftl_mul_pow2 by lia. }
  assert (Hq : Z.div_eucl m' (Zpos m2) = (m' / Zpos m2, m' mod Zpos m2)).
  { unfold Z.div, Z.modulo. now destruct (Z.div_eucl m' (Zpos m2)). }
  rewrite Hq.
  assert (Hp : 0 < 2 ^ sh) by (apply Z.pow_pos_nonneg; lia).
  assert (Hq0 : 0 <= m' / Zpos m2) by (apply Z.div_pos; lia).
  split; [exact Hq0 |].
  rewrite fexp32_eq.
  destruct (Z.le_gt_cases e' (-149)) as [Hlow | Hhigh]; [lia |].
  assert (He' : e' <= d1 + e1 - (d2 + e2) - 24).
  { unfold e' in *. rewrite fexp32_eq in *. lia. }
  assert (Hs24 : 24 - d1 + d2 <= sh) by (unfold sh; lia).
  destruct (Zdigits2_pos_bounds (Zpos m1) ltac:(lia)) as (Hd1 & Hlo1 & _).
  destruct (Zdigits2_pos_bounds (Zpos m2) ltac:(lia)) as (Hd2 & _ & Hhi2).
  fold d1 in Hd1, Hlo1. fold d2 in Hd2, Hhi2.
  assert (Hbig : 2 ^ 23 * 2 ^ d2 <= m').
  { rewrite Hm'.
    assert (2 ^ 23 * 2 ^ d2 <= 2 ^ (d1 - 1) * 2 ^ sh); [| nia].
    rewrite <- !Z.pow_add_r by lia. apply Z.pow_le_mono_r; lia. }
  assert (H23 : 2 ^ 23 <= m' / Zpos m2).
  { apply Z.div_le_lower_bound; [lia |]. nia. }
  assert (24 <= Zdigits2 (m' / Zpos m2)) by (apply Zdigits2_ge; [exact H23 | lia]).
  lia.
Qed.

Lemma f32_of_Z_shape (n : Z) :
  0 <= n -> nonneg_finite (f32_of_Z n) \/ f32_of_Z n = S754_infinity false.
Proof.
  intros Hn. unfold f32_of_Z, B32.
  destruct n as [| p | p]; [left; now left | | lia].
  cbn [binary_normalize].
  destruct (binary_round_structure false p 0) as [Hz | [[Hz _] | (m & e & Hz & Hb & _)]].
  - left. now left.
  - now right.
  - left. right. now exists m, e.
Qed.

(** The shape of [d_int_rate/rate] whenever its floor exists. *)
Lemma rate_quotient_shape (r : resampler) (rate : float32) (q : Z) :
  0 <= d_int_rate r ->
  f32_ltb (f32_of_Z 0) rate = true ->
  f_floor (rate_quotient r rate) = Some q ->
  nonneg_finite (rate_quotient r rate).
Proof.
  intros HN Hrate Hq. unfold rate_quotient in *.
  assert (Hpos : (exists m e, rate = S754_finite false m e) \/ rate = S754_infinity false).
  { destruct rate as [s | [] | | [] m e]; try discriminate Hrate.
    - now right.
    - left. now exists m, e. }
  destruct (f32_of_Z_shape (d_int_rate r) HN) as [[Hn | (mn & en & Hn & Hbn)] | Hn];
    rewrite Hn in *.
  - destruct Hpos as [(m & e & ->) | ->]; now left.
  - destruct Hpos as [(m & e & ->) | ->]; [| now left].
    unfold f32_div, SFdiv in *. cbn [xorb] in *.
    pose proof (SFdiv_core_digits mn en m e) as Hcore.
    destruct (SFdiv_core_binary prec32 emax32 (Zpos mn) en (Zpos m) e) as [[qz ez] lz].
    destruct Hcore as [Hq0 Hez].
    destruct (binary_round_aux_structure false qz ez lz Hq0 Hez)
      as [Hz | [[Hz _] | (m' & e' & Hz & Hb & _)]].
    + now left.
    + rewrite Hz in Hq. discriminate.
    + right. now exists m', e'.
  - destruct Hpos as [(m & e & ->) | ->]; discriminate Hq.
Qed.

Lemma f_floor_finite (m : positive) (e : Z) :
  f_floor (S754_finite false m e)
  = Some (if 0 <=? e then Zpos m * 2 ^ e else Zpos m / 2 ^ (- e)).
Proof. reflexivity. Qed.

Lemma units_finite (m : positive) (e : Z) :
  units (S754_finite false m e) = Zpos m * 2 ^ (e + 149).
Proof. reflexivity. Qed.

Lemma fmodf1_finite (m : positive) (e : Z) :
  fmodf1 (S754_finite false m e)
  = if 0 <=? e then S754_zero false
    else match Zpos m mod 2 ^ (- e) with
         | Zpos r => binary_round prec32 emax32 false r e
         | _ => S754_zero false
         end.
Proof. reflexivity. Qed.

Lemma f_floor_nonneg (x : float32) (q : Z) :
  nonneg_finite x -> f_floor x = Some q -> 0 <= q.
Proof.
  intros [-> | (m & e & -> & _)] Hq.
  - injection Hq as <-. lia.
  - rewrite f_floor_finite in Hq.
    assert (q = if 0 <=? e then Zpos m * 2 ^ e else Zpos m / 2 ^ (- e))
      as -> by congruence.
    destruct (Z.leb_spec 0 e).
    + apply Z.mul_nonneg_nonneg; [lia |]. apply Z.pow_nonneg; lia.
    + apply Z.div_pos; [lia |]. apply Z.pow_pos_nonneg; lia.
Qed.

(** [fmodf(x, 1.0f)] subtracts exactly the integer part. *)
Lemma fmodf1_exact (m : positive) (e q : Z) :
  bounded prec32 emax32 m e = true ->
  f_floor (S754_finite false m e) = Some q ->
  units (fmodf1 (S754_finite false m e))
  = units (S754_finite false m e) - q * 2 ^ 149.
Proof.
  intros Hb Hq. destruct (bounded_inv m e Hb) as [Hc He].
  rewrite f_floor_finite in Hq. rewrite fmodf1_finite, units_finite.
  assert (q = if 0 <=? e then Zpos m * 2 ^ e else Zpos m / 2 ^ (- e))
    as -> by congruence.
  clear Hq.
  destruct (Z.leb_spec 0 e) as [Hpos | Hneg].
  - cbn [units]. rewrite Z.pow_add_r by lia. lia.
  - assert (Hp : 0 < 2 ^ (- e)) by (apply Z.pow_pos_nonneg; lia).
    pose proof (Z.mod_pos_bound (Zpos m) (2 ^ (- e)) Hp) as Hr.
    pose proof (Z.div_mod (Zpos m) (2 ^ (- e)) ltac:(lia)) as Hdm.
    assert (Hsplit : 2 ^ 149 = 2 ^ (- e) * 2 ^ (e + 149)).
    { rewrite <- Z.pow_add_r by lia. f_equal. lia. }
    destruct (Zpos m mod 2 ^ (- e)) as [| rr | rr] eqn:Er; [| | lia].
    + cbn [units]. rewrite Hsplit. nia.
    + assert (Hdr : Zpos (digits2_pos rr) <= Zpos (digits2_pos m)).
      { change (Zdigits2 (Zpos rr) <= Zdigits2 (Zpos m)). apply Zdigits2_mono.
        pose proof (Z.mod_le (Zpos m) (2 ^ (- e)) ltac:(lia) Hp). lia. }
      destruct (binary_round_exact false rr e) as (m' & Hz & Hm' & Hb');
        [rewrite fexp32_eq; lia | rewrite fexp32_eq; lia |].
      rewrite Hz, units_finite, Hm'.
      rewrite fexp32_eq.
      set (ec := Z.max (Zpos (digits2_pos rr) + e - 24) (-149)).
      assert (Hec : 2 ^ (e - ec) * 2 ^ (ec + 149) = 2 ^ (e + 149)).
      { rewrite <- Z.pow_add_r by (unfold ec; lia). f_equal. lia. }
      rewrite Hsplit. nia.
Qed.

Lemma f32_sub_aligned (m m' : positive) (e : Z) :
  f32_sub (S754_finite false m e) (S754_finite false m' e)
  = B32 (Zpos m - Zpos m') e.
Proof.
  unfold f32_sub, SFsub, B32. cbn [cond_Zopp]. rewrite Z.min_id.
  unfold shl_align. rewrite Z.sub_diag. reflexivity.
Qed.

(** [x - (float)floor(x)] is [fmodf(x, 1.0f)] on non-negative numbers
    whose floor converts exactly. *)
Lemma f32_sub_floor (x : float32) (q : Z) :
  nonneg_finite x -> f_floor x = Some q ->
  f32_sub x (f32_of_Z q) = fmodf1 x.
Proof.
  intros [-> | (m & e & -> & Hb)] Hq.
  - injection Hq as <-. reflexivity.
  - destruct (bounded_inv m e Hb) as [Hc He].
    rewrite f_floor_finite in Hq. rewrite fmodf1_finite.
    assert (q = if 0 <=? e then Zpos m * 2 ^ e else Zpos m / 2 ^ (- e))
      as -> by congruence.
    clear Hq.
    destruct (Z.leb_spec 0 e) as [Hpos | Hneg].
    + assert (Hp : 0 < 2 ^ e) by (apply Z.pow_pos_nonneg; lia).
      destruct (Zpos m * 2 ^ e) as [| Q | Q] eqn:EQ; [lia | | lia].
      unfold f32_of_Z, B32. cbn [binary_normalize].
      rewrite (binary_round_repr false Q 0 m e Hb)
        by (right; split; [lia | rewrite Z.sub_0_r; lia]).
      rewrite f32_sub_aligned, Z.sub_diag. reflexivity.
    + assert (Hp : 0 < 2 ^ (- e)) by (apply Z.pow_pos_nonneg; lia).
      pose proof (Z.mod_pos_bound (Zpos m) (2 ^ (- e)) Hp) as Hr.
      pose proof (Z.div_mod (Zpos m) (2 ^ (- e)) ltac:(lia)) as Hdm.
      pose proof (Z.div_pos (Zpos m) (2 ^ (- e)) ltac:(lia) Hp) as Hq0.
      destruct (Zpos m / 2 ^ (- e)) as [| Q | Q] eqn:EQ; [| | lia].
      * (* x < 1 *)
        change (f32_of_Z 0) with (S754_zero false).
        assert (Er : Zpos m mod 2 ^ (- e) = Zpos m) by lia.
        rewrite Er.
        rewrite (binary_round_repr false m e m e Hb)
          by (left; split; [lia | rewrite Z.sub_diag; lia]).
        reflexivity.
      * (* x >= 1 *)
        assert (HdQ : Zdigits2 (Zpos Q) = Zpos (digits2_pos m) + e).
        { rewrite <- EQ, Zdigits2_div_pow2 by lia. cbn [Zdigits2].
          assert (0 < Zdigits2 (Zpos m / 2 ^ (- e))); [| rewrite Zdigits2_div_pow2 in *; cbn [Zdigits2] in *; lia].
          rewrite EQ. cbn [Zdigits2]. lia. }
        destruct (Zpos Q * 2 ^ (- e)) as [| MQ | MQ] eqn:EMQ; [lia | | lia].
        assert (HbQ : bounded prec32 emax32 MQ e = true).
        { assert (Hd : Zpos (digits2_pos MQ) = Zpos (digits2_pos m)).
          { change (Zdigits2 (Zpos MQ) = Zpos (digits2_pos m)).
            rewrite <- EMQ, Zdigits2_mul_pow2 by lia. lia. }
          unfold bounded, canonical_mantissa in *. now rewrite Hd. }
        unfold f32_of_Z, B32 at 1. cbn [binary_normalize].
        rewrite (binary_round_repr false Q 0 MQ e HbQ)
          by (left; split; [lia | rewrite Z.sub_0_l; lia]).
        rewrite f32_sub_aligned.
        replace (Zpos m - Zpos MQ) with (Zpos m mod 2 ^ (- e)) by lia.
        unfold B32. destruct (Zpos m mod 2 ^ (- e)); [reflexivity | reflexivity | lia].
Qed.


(** ** Vectors and loops *)

Lemma read_in_range {A : Type} (v : list A) (k : nat) (d : A) :
  (k < length v)%nat -> read v (Z.of_nat k) = Ok (nth k v d).
Proof.
  intros Hk. unfold read.
  destruct (Z.ltb_spec (Z.of_nat k) 0) as [Hneg | _]; [lia |].
  rewrite Nat2Z.id.
  destruct (nth_error v k) as [a |] eqn:E.
  - now rewrite (nth_error_nth _ _ d E).
  - apply nth_error_None in E. lia.
Qed.

Lemma read_Ok_bound {A : Type} (v : list A) (i : Z) (a : A) :
  read v i = Ok a -> 0 <= i < size v.
Proof.
  unfold read, size.
  destruct (Z.ltb_spec i 0) as [Hneg | Hpos]; [discriminate |].
  destruct (nth_error v (Z.to_nat i)) eqn:E; [| discriminate].
  intros _.
  assert (Z.to_nat i < length v)%nat by (apply nth_error_Some; congruence).
  lia.
Qed.

Lemma resampler_eta (r : resampler) :
  with_last_filter (with_acc r (d_acc r)) (d_last_filter r) = r.
Proof. now destruct r. Qed.

(** ** The derivative taps *)

Lemma uint_small (n : Z) : 0 <= n < UINT_MOD -> uint n = n.
Proof. intros H. unfold uint. now apply Z.mod_small. Qed.

(** The loop on a vector of at most 2^32 elements, [n] turns before its
    end. *)
Lemma diff_loop_run (taps : list float32) (n : nat) :
  size taps <= UINT_MOD ->
  forall (fuel lo : nat) (tap : option float32) (acc : list float32),
    (lo + n + 1 = length taps)%nat ->
    (n <= fuel)%nat ->
    diff_loop fuel taps (Z.of_nat lo) (tap, acc)
    = Ok (match n with O => tap | S _ => Some (diff_at taps (lo + n - 1)) end,
          acc ++ map (diff_at taps) (seq lo n)).
Proof.
  intros Hsize.
  assert (Hbound : (size taps - 1) mod SIZE_MOD = size taps - 1 \/ taps = []).
  { destruct taps as [| t0 rest]; [now right | left].
    apply Z.mod_small. unfold size, UINT_MOD, SIZE_MOD in *.
    cbn [length] in *. lia. }
  induction n as [| n IH]; intros fuel lo tap acc Hlen Hfuel.
  - destruct Hbound as [Hbound | ->]; [| cbn [length] in Hlen; lia].
    assert (E : (Z.of_nat lo <? (size taps - 1) mod SIZE_MOD) = false).
    { rewrite Hbound. apply Z.ltb_ge. unfold size. lia. }
    destruct fuel; cbn [diff_loop]; rewrite E; cbn [map seq];
      now rewrite app_nil_r.
  - destruct Hbound as [Hbound | ->]; [| cbn [length] in Hlen; lia].
    assert (E : (Z.of_nat lo <? (size taps - 1) mod SIZE_MOD) = true).
    { rewrite Hbound. apply Z.ltb_lt. unfold size. lia. }
    destruct fuel as [| fuel]; [lia |].
    cbn [diff_loop]. rewrite E.
    assert (Eu : uint (Z.of_nat lo + 1) = Z.of_nat (S lo)).
    { rewrite uint_small; [lia |]. unfold size in Hsize. lia. }
    unfold diff_body at 1. rewrite Eu.
    rewrite (read_in_range taps (S lo) S754_nan) by lia.
    rewrite (read_in_range taps lo S754_nan) by lia.
    cbn [bind snd].
    rewrite (IH fuel (S lo)) by lia.
    f_equal. f_equal.
    + destruct n.
      * now replace (lo + 1 - 1)%nat with lo by lia.
      * now replace (S lo + S n - 1)%nat with (lo + S (S n) - 1)%nat by lia.
    + cbn [seq map]. now rewrite <- app_assoc.
Qed.

Lemma create_diff_taps_run (fuel : nat) (newtaps : list float32) :
  (2 <= length newtaps)%nat ->
  size newtaps <= UINT_MOD ->
  (length newtaps <= fuel)%nat ->
  create_diff_taps fuel newtaps
  = Ok (map (diff_at newtaps) (seq 0 (length newtaps - 1))
        ++ [diff_at newtaps (length newtaps - 2)]).
Proof.
  intros HL Hsize Hfuel. unfold create_diff_taps.
  change 0 with (Z.of_nat 0).
  rewrite (diff_loop_run newtaps (length newtaps - 1) Hsize fuel 0 None [])
    by lia.
  cbn [bind app].
  destruct (length newtaps - 1)%nat as [| m] eqn:Em; [lia |].
  now replace (0 + S m - 1)%nat with (length newtaps - 2)%nat by lia.
Qed.

(** C6, amended.  For a prototype of length L with 2 <= L <= 2^32,
    [create_diff_taps] returns a vector of the same length L whose element
    [i] is [taps[i+1] - taps[i]] for every [i] in [[0, L-2]], and whose
    last element repeats the last difference [d[L-2]]. *)
Theorem create_diff_taps_spec (fuel : nat) (taps : list float32) :
  (2 <= length taps)%nat ->
  size taps <= UINT_MOD ->
  (length taps <= fuel)%nat ->
  exists d : list float32,
    create_diff_taps fuel taps = Ok d
    /\ length d = length taps
    /\ (forall i, (i + 1 < length taps)%nat ->
          nth i d S754_nan
          = f32_sub (nth (i + 1) taps S754_nan) (nth i taps S754_nan))
    /\ nth (length taps - 1) d S754_nan = nth (length taps - 2) d S754_nan.
Proof.
  intros HL Hsize Hfuel.
  exists (map (diff_at taps) (seq 0 (length taps - 1))
          ++ [diff_at taps (length taps - 2)]).
  split; [now apply create_diff_taps_run |].
  split; [| split].
  - rewrite length_app, length_map, length_seq. cbn [length]. lia.
  - intros i Hi.
    rewrite app_nth1 by (rewrite length_map, length_seq; lia).
    rewrite (nth_indep _ S754_nan (diff_at taps 0))
      by (rewrite length_map, length_seq; lia).
    rewrite map_nth, seq_nth by lia.
    unfold diff_at. now replace (S (0 + i)) with (i + 1)%nat by lia.
  - rewrite app_nth2 by (rewrite length_map, length_seq; lia).
    rewrite length_map, length_seq, Nat.sub_diag.
    cbn [nth].
    rewrite app_nth1 by (rewrite length_map, length_seq; lia).
    rewrite (nth_indep _ S754_nan (diff_at taps 0))
      by (rewrite length_map, length_seq; lia).
    rewrite map_nth, seq_nth by lia.
    reflexivity.
Qed.

Lemma create_diff_taps_spec_witness :
  (2 <= length proto)%nat
  /\ size proto <= UINT_MOD
  /\ exists d : list float32,
       create_diff_taps 5 proto = Ok d
       /\ length d = length proto
       /\ (forall i, (i + 1 < length proto)%nat ->
             nth i d S754_nan
             = f32_sub (nth (i + 1) proto S754_nan) (nth i proto S754_nan))
       /\ nth (length proto - 1) d S754_nan = nth (length proto - 2) d S754_nan.
Proof.
  split; [simpl; lia |].
  split; [vm_compute; discriminate |].
  apply (create_diff_taps_spec 5 proto); [simpl; lia | | simpl; lia].
  vm_compute. discriminate.
Defined.

(** *** Beyond 2^32 taps *)

Lemma read_repeat {A : Type} (a : A) (n : nat) (i : Z) :
  0 <= i < Z.of_nat n -> read (repeat a n) i = Ok a.
Proof.
  intros Hi. unfold read.
  destruct (Z.ltb_spec i 0) as [Hneg | _]; [lia |].
  now rewrite nth_error_repeat by lia.
Qed.

Lemma size_huge_proto : size huge_proto = 4294967297.
Proof.
  unfold size, huge_proto. rewrite repeat_length. apply Z2Nat.id. lia.
Qed.

Lemma read_huge_proto (i : Z) :
  0 <= i < 4294967297 -> read huge_proto i = Ok (f32_of_Z 1).
Proof.
  intros Hi. unfold huge_proto. apply read_repeat.
  rewrite Z2Nat.id; lia.
Qed.

(** On a prototype of 2^32 + 1 taps the index never reaches the bound 2^32:
    every turn reads inside the vector and the loop goes on. *)
Lemma diff_loop_huge (fuel : nat) :
  forall (i : Z) (s : option float32 * list float32),
    0 <= i < UINT_MOD ->
    diff_loop fuel huge_proto i s = OutOfFuel.
Proof.
  assert (Hbound : (size huge_proto - 1) mod SIZE_MOD = UINT_MOD).
  { rewrite size_huge_proto. reflexivity. }
  induction fuel as [| fuel IH]; intros i s Hi; cbn [diff_loop];
    rewrite Hbound; destruct (Z.ltb_spec i UINT_MOD) as [_ | Hge];
    try lia; [reflexivity |].
  assert (Hu : 0 <= uint (i + 1) < UINT_MOD).
  { unfold uint. apply Z.mod_pos_bound. reflexivity. }
  unfold diff_body.
  rewrite read_huge_proto by (unfold UINT_MOD in Hu; lia).
  rewrite read_huge_proto by (unfold UINT_MOD in Hi; lia).
  cbn [bind]. apply IH. exact Hu.
Qed.

(** C6, as stated, fails: a prototype of 2^32 + 1 taps has length L >= 2,
    and on it the loop of [create_diff_taps] never reaches its exit,
    whatever the number of iterations allowed. *)
Lemma create_diff_taps_loops_past_2_32 :
  2 <= size huge_proto
  /\ forall fuel : nat, create_diff_taps fuel huge_proto = OutOfFuel.
Proof.
  split; [rewrite size_huge_proto; lia |].
  intros fuel. unfold create_diff_taps.
  rewrite diff_loop_huge by (unfold UINT_MOD; lia).
  reflexivity.
Qed.

(** ** The resampling loop *)

(** With nothing to produce the outer loop is not entered. *)
Lemma filter_body_no_items
    (fir : list float32 -> (Z -> complex) -> Z -> complex)
    (r : resampler) (input : Z -> complex) (nitems : Z) (fuel : nat) :
  nitems <= 0 ->
  filter_body fir r input nitems fuel = Ok (mk_filter_result [] [] 0 r).
Proof.
  intros Hn. unfold filter_body.
  assert (Hloop : forall s, ls_i s = 0 -> outer_loop fir r input nitems fuel s = Ok s).
  { intros s Hs. destruct fuel; simpl; rewrite Hs;
      destruct (Z.ltb_spec 0 nitems); try lia; reflexivity. }
  rewrite Hloop by reflexivity.
  cbn [bind ls_out ls_reads ls_count ls_acc ls_j].
  now rewrite resampler_eta.
Qed.

(** C10.  For nitems <= 0 the statements of [filter] store no output
    sample, hand no input offset to a FIR filter and leave the whole
    engine as it was; control then reaches the end of the function, which
    has no [return] statement, and the behaviour of the call is
    undefined. *)
Theorem filter_no_items
    (fir : list float32 -> (Z -> complex) -> Z -> complex)
    (r : resampler) (input : Z -> complex) (nitems : Z) (fuel : nat) :
  nitems <= 0 ->
  filter_body fir r input nitems fuel = Ok (mk_filter_result [] [] 0 r)
  /\ filter fir r input nitems fuel = Undefined.
Proof.
  intros Hn. pose proof (filter_body_no_items fir r input nitems fuel Hn) as E.
  split; [exact E |]. unfold filter. now rewrite E.
Qed.

Lemma filter_no_items_witness :
  0 <= 0
  /\ filter_body fir_dot interp8 ramp 0 0 = Ok (mk_filter_result [] [] 0 interp8)
  /\ filter fir_dot interp8 ramp 0 0 = Undefined.
Proof.
  split; [lia | apply (filter_no_items fir_dot interp8 ramp 0 0); lia].
Defined.

(** No call of [filter] returns a value: when its statements have run,
    control flows off the end of the function. *)
Lemma filter_returns_nothing
    (fir : list float32 -> (Z -> complex) -> Z -> complex)
    (r : resampler) (input : Z -> complex) (nitems : Z) (fuel : nat) (n : Z) :
  filter fir r input nitems fuel <> Ok n.
Proof.
  unfold filter.
  destruct (filter_body fir r input nitems fuel); cbn [bind]; discriminate.
Qed.

(** C1.  On the engine built for four filters at rate 8, a call with
    nitems = 1 stores eight output samples, not one, and returns no
    value: control reaches the end of the function without a [return]
    statement. *)
Theorem filter_writes_past_nitems :
  engine (f32_of_Z 8) 4 = Ok interp8
  /\ state_invariant interp8
  /\ (exists fr : filter_result,
        filter_body fir_dot interp8 ramp 1 16 = Ok fr
        /\ length (fr_written fr) = 8%nat)
  /\ filter fir_dot interp8 ramp 1 16 = Undefined.
Proof.
  split; [vm_compute; reflexivity |].
  split; [vm_compute; intuition discriminate |].
  split; [| vm_compute; reflexivity].
  eexists. split; [vm_compute; reflexivity |].
  reflexivity.
Qed.

(** C2.  On the engine built for three filters at rate 1.5, one call for
    two samples and two calls for one sample each leave different output
    buffers and different filter indices. *)
Theorem filter_split_differs :
  engine (B32 3 (-1)) 3 = Ok interp15
  /\ exists (single : filter_result) (split : list complex * resampler),
       filter_body fir_dot interp15 ramp 2 8 = Ok single
       /\ filter_twice fir_dot interp15 ramp 1 1 8 = Ok split
       /\ fr_written single <> fst split
       /\ d_last_filter (fr_engine single) = 1
       /\ d_last_filter (snd split) = 0.
Proof.
  split; [vm_compute; reflexivity |].
  eexists. eexists.
  split; [vm_compute; reflexivity |].
  split; [vm_compute; reflexivity |].
  split; [| split; reflexivity].
  cbn [fr_written fst]. intros H. discriminate H.
Qed.

(** In the degenerate state (no decimation step, no fractional step) the
    inner loop never leaves a filter index below [d_int_rate]. *)
Lemma inner_loop_stalled
    (fir : list float32 -> (Z -> complex) -> Z -> complex)
    (r : resampler) (input : Z -> complex) :
  d_dec_rate r = 0 ->
  d_flt_rate r = S754_zero false ->
  d_int_rate r <= UINT_MOD ->
  forall (fuel : nat) (s s' : loop_state),
    0 <= ls_j s < d_int_rate r ->
    ls_acc s = S754_zero false ->
    inner_loop fir r input fuel s <> Ok s'.
Proof.
  intros Hdec Hflt HN.
  induction fuel as [| fuel IH]; intros s s' Hj Hacc; simpl.
  - destruct (Z.ltb_spec (ls_j s) (d_int_rate r)); [discriminate | lia].
  - destruct (Z.ltb_spec (ls_j s) (d_int_rate r)); [| lia].
    destruct (read (d_filters r) (ls_j s)); cbn [bind]; try discriminate.
    destruct (read (d_diff_filters r) (ls_j s)); cbn [bind]; try discriminate.
    destruct (int_add (ls_i s) 1); cbn [bind]; try discriminate.
    rewrite Hacc, Hflt, Hdec.
    change (f32_add (S754_zero false) (S754_zero false)) with (S754_zero false).
    change (cast_int (f_floor (S754_zero false))) with (Ok (A:=Z) 0).
    cbn [bind].
    change (uint 0) with 0. rewrite Z.add_0_l. change (uint 0) with 0.
    rewrite Z.add_0_r.
    assert (Hu : uint (ls_j s) = ls_j s)
      by (unfold uint; apply Z.mod_small; lia).
    rewrite Hu.
    apply IH; cbn [ls_j ls_acc]; [lia | reflexivity].
Qed.

Lemma outer_loop_S
    (fir : list float32 -> (Z -> complex) -> Z -> complex)
    (r : resampler) (input : Z -> complex) (nitems : Z)
    (fuel : nat) (s : loop_state) :
  outer_loop fir r input nitems (S fuel) s
  = if ls_i s <? nitems then
      s1 <- inner_loop fir r input (S fuel) s ;;
      if d_int_rate r =? 0 then Undefined
      else
        count <- int_add (ls_count s1) (int_of_uint (ls_j s1 / d_int_rate r)) ;;
        outer_loop fir r input nitems fuel
          (mk_loop_state (ls_i s1) count (ls_j s1 mod d_int_rate r)
             (ls_acc s1) (ls_out s1) (ls_reads s1))
    else Ok s.
Proof. reflexivity. Qed.

Lemma filter_stalled
    (fir : list float32 -> (Z -> complex) -> Z -> complex)
    (r : resampler) (input : Z -> complex) (nitems : Z) :
  d_dec_rate r = 0 ->
  d_flt_rate r = S754_zero false ->
  d_acc r = S754_zero false ->
  0 <= d_last_filter r < d_int_rate r ->
  d_int_rate r <= UINT_MOD ->
  0 < nitems ->
  forall (fuel : nat) (fr : filter_result),
    filter_body fir r input nitems fuel <> Ok fr.
Proof.
  intros Hdec Hflt Hacc Hj HN Hn fuel fr. unfold filter_body.
  destruct fuel as [| fuel].
  - simpl. destruct (Z.ltb_spec 0 nitems); [discriminate | lia].
  - rewrite outer_loop_S. cbn [ls_i].
    destruct (Z.ltb_spec 0 nitems); [| lia].
    destruct (inner_loop fir r input (S fuel) _) eqn:E;
      cbn [bind]; try discriminate.
    exfalso.
    revert E. apply (inner_loop_stalled fir r input Hdec Hflt HN); assumption.
Qed.

(** C3, as stated, fails: an infinite rate is positive and gives the
    degenerate steps [d_dec_rate = 0], [d_flt_rate = 0]; on the engine so
    built, a call for one sample never runs to completion, whatever the
    number of iterations allowed. *)
Lemma filter_degenerate_never_completes :
  f32_ltb (f32_of_Z 0) (S754_infinity false) = true
  /\ engine (S754_infinity false) 4 = Ok stalled
  /\ d_dec_rate stalled = 0
  /\ d_flt_rate stalled = S754_zero false
  /\ ~ (exists (fuel : nat) (fr : filter_result),
          filter_body fir_dot stalled ramp 1 fuel = Ok fr).
Proof.
  split; [reflexivity |].
  split; [vm_compute; reflexivity |].
  split; [reflexivity |].
  split; [reflexivity |].
  intros (fuel & fr & H). revert H.
  apply filter_stalled; try reflexivity; vm_compute; intuition discriminate.
Qed.


(** ** Completion of [filter] when every sample advances the filter index *)

Section FilterCompletes.

Variable fir : list float32 -> (Z -> complex) -> Z -> complex.
Variable r : resampler.
Variable input : Z -> complex.
Variable nitems : Z.

Hypothesis Hdec : 1 <= d_dec_rate r.
Hypothesis HN : 1 <= d_int_rate r.
Hypothesis Hflt : unit_range (d_flt_rate r).
Hypothesis Hbank : size (d_filters r) = d_int_rate r.
Hypothesis Hdbank : size (d_diff_filters r) = d_int_rate r.
Hypothesis Hwrap : d_int_rate r + d_dec_rate r + 3 < UINT_MOD.

Lemma inner_loop_S (fuel : nat) (s : loop_state) :
  inner_loop fir r input (S fuel) s
  = if ls_j s <? d_int_rate r then
      f0 <- read (d_filters r) (ls_j s) ;;
      f1 <- read (d_diff_filters r) (ls_j s) ;;
      let o0 := fir f0 input (ls_count s) in
      let o1 := fir f1 input (ls_count s) in
      let y := c_add o0 (c_scale o1 (ls_acc s)) in
      i <- int_add (ls_i s) 1 ;;
      let acc := f32_add (ls_acc s) (d_flt_rate r) in
      fl <- cast_int (f_floor acc) ;;
      let j := uint (ls_j s + uint (d_dec_rate r + uint fl)) in
      inner_loop fir r input fuel
        (mk_loop_state i (ls_count s) j (fmodf1 acc)
           (ls_out s ++ [y]) (ls_reads s ++ [ls_count s]))
    else Ok s.
Proof. reflexivity. Qed.

Lemma inner_loop_done (fuel : nat) (s : loop_state) :
  d_int_rate r <= ls_j s -> inner_loop fir r input fuel s = Ok s.
Proof.
  intros Hj. destruct fuel; cbn [inner_loop];
    destruct (Z.ltb_spec (ls_j s) (d_int_rate r)); (reflexivity || lia).
Qed.

Lemma read_bank (bank : list (list float32)) (j : Z) :
  size bank = d_int_rate r -> 0 <= j < d_int_rate r -> exists f, read bank j = Ok f.
Proof.
  intros Hsize Hj. exists (nth (Z.to_nat j) bank []).
  rewrite <- (Z2Nat.id j) at 1 by lia.
  apply read_in_range. unfold size in Hsize. lia.
Qed.

Lemma inner_loop_completes (k : nat) :
  forall (fuel : nat) (s : loop_state),
    d_int_rate r - ls_j s <= Z.of_nat k ->
    (k <= fuel)%nat ->
    0 <= ls_j s ->
    unit_range (ls_acc s) ->
    0 <= ls_i s ->
    ls_i s + Z.of_nat k <= INT_MAX ->
    exists s' : loop_state,
      inner_loop fir r input fuel s = Ok s'
      /\ d_int_rate r <= ls_j s'
      /\ (ls_j s < d_int_rate r -> ls_j s' < d_int_rate r + d_dec_rate r + 4 /\ ls_i s < ls_i s')
      /\ (d_int_rate r <= ls_j s -> s' = s)
      /\ unit_range (ls_acc s')
      /\ ls_count s' = ls_count s
      /\ ls_i s <= ls_i s' <= ls_i s + Z.max 0 (d_int_rate r - ls_j s)
      /\ Z.of_nat (length (ls_out s'))
         = Z.of_nat (length (ls_out s)) + (ls_i s' - ls_i s).
Proof.
  induction k as [| k IH]; intros fuel s Hk Hfuel Hj Hacc Hi Himax.
  - exists s. rewrite inner_loop_done by lia.
    repeat split; try lia; try assumption.
  - destruct (Z.le_gt_cases (d_int_rate r) (ls_j s)) as [Hdone | Hrun].
    { exists s. rewrite inner_loop_done by lia.
      repeat split; try lia; try assumption. }
    destruct fuel as [| fuel]; [lia |].
    rewrite inner_loop_S.
    destruct (Z.ltb_spec (ls_j s) (d_int_rate r)) as [_ | Hge];
      [| lia].
    destruct (read_bank (d_filters r) (ls_j s) Hbank ltac:(lia)) as [f0 ->].
    destruct (read_bank (d_diff_filters r) (ls_j s) Hdbank ltac:(lia)) as [f1 ->].
    cbn [bind].
    assert (Eadd : int_add (ls_i s) 1 = Ok (ls_i s + 1)).
    { unfold int_add, INT_MIN, INT_MAX in *.
      destruct (Z.leb_spec (- 2 ^ 31) (ls_i s + 1)); [| lia].
      destruct (Z.leb_spec (ls_i s + 1) (2 ^ 31 - 1)); [reflexivity | lia]. }
    rewrite Eadd. cbn [bind].
    pose proof (f32_add_unit_range _ _ Hacc Hflt) as Hsum.
    destruct (f_floor_below_four _ Hsum) as (fl & Efl & Hfl).
    rewrite Efl.
    assert (Ecast : cast_int (Some fl) = Ok fl).
    { unfold cast_int, INT_MIN, INT_MAX.
      destruct (Z.leb_spec (- 2 ^ 31) fl); [| lia].
      destruct (Z.leb_spec fl (2 ^ 31 - 1)); [reflexivity | lia]. }
    rewrite Ecast. cbn [bind].
    assert (Ej : uint (ls_j s + uint (d_dec_rate r + uint fl))
                 = ls_j s + d_dec_rate r + fl).
    { unfold uint, UINT_MOD in *.
      rewrite (Z.mod_small fl) by lia.
      rewrite (Z.mod_small (d_dec_rate r + fl)) by lia.
      rewrite Z.mod_small by lia. lia. }
    rewrite Ej.
    set (s1 := mk_loop_state _ _ _ _ _ _).
    destruct (IH fuel s1) as (s' & Erun & HjN & Hstep & Hstay & Hacc' & Hcount & Hi' & Hlen);
      try (subst s1; cbn [ls_j ls_i ls_acc]; lia).
    { subst s1. cbn [ls_acc]. now apply fmodf1_below_four. }
    exists s'. split; [exact Erun |].
    subst s1. cbn [ls_j ls_i ls_acc ls_count ls_out] in *.
    rewrite length_app in Hlen. cbn [length] in Hlen.
    split; [exact HjN |].
    split.
    { intros _. destruct (Z.le_gt_cases (d_int_rate r) (ls_j s + d_dec_rate r + fl)) as [Hout | Hin].
      - rewrite (Hstay Hout). cbn [ls_j ls_i]. lia.
      - destruct (Hstep Hin). lia. }
    split; [intros; lia |].
    split; [exact Hacc' |].
    split; [exact Hcount |].
    split; lia.
Qed.

Hypothesis Hcursor : (Z.max 0 nitems + d_int_rate r) * (d_dec_rate r + 4) <= INT_MAX.

Lemma outer_loop_completes (k : nat) :
  forall (fuel : nat) (s : loop_state),
    nitems - ls_i s <= Z.of_nat k ->
    (k + Z.to_nat (d_int_rate r) <= fuel)%nat ->
    0 <= ls_j s < d_int_rate r ->
    unit_range (ls_acc s) ->
    0 <= ls_i s ->
    0 <= ls_count s <= ls_i s * (d_dec_rate r + 4) ->
    exists s' : loop_state,
      outer_loop fir r input nitems fuel s = Ok s'
      /\ 0 <= ls_j s' < d_int_rate r
      /\ unit_range (ls_acc s')
      /\ (nitems <= ls_i s -> s' = s)
      /\ (ls_i s < nitems -> nitems <= ls_i s' < nitems + d_int_rate r)
      /\ Z.of_nat (length (ls_out s'))
         = Z.of_nat (length (ls_out s)) + (ls_i s' - ls_i s).
Proof.
  induction k as [| k IH]; intros fuel s Hk Hfuel Hj Hacc Hi Hcount.
  - exists s.
    assert (E : outer_loop fir r input nitems fuel s = Ok s).
    { destruct fuel; cbn [outer_loop];
        destruct (Z.ltb_spec (ls_i s) nitems); (reflexivity || lia). }
    rewrite E. repeat split; try lia; try assumption.
  - destruct (Z.le_gt_cases nitems (ls_i s)) as [Hdone | Hrun].
    { exists s.
      assert (E : outer_loop fir r input nitems fuel s = Ok s).
      { destruct fuel; cbn [outer_loop];
          destruct (Z.ltb_spec (ls_i s) nitems); (reflexivity || lia). }
      rewrite E. repeat split; try lia; try assumption. }
    destruct fuel as [| fuel]; [lia |].
    rewrite outer_loop_S.
    destruct (Z.ltb_spec (ls_i s) nitems) as [_ | Hge]; [| lia].
    assert (Hbound : ls_i s + d_int_rate r <= INT_MAX) by nia.
    destruct (inner_loop_completes (Z.to_nat (d_int_rate r)) (S fuel) s)
      as (s1 & Erun & HjN & Hstep & _ & Hacc1 & Hcount1 & Hi1 & Hlen1);
      try lia; try assumption.
    destruct (Hstep ltac:(lia)) as [Hj1 Hprog].
    rewrite Erun. cbn [bind].
    destruct (Z.eqb_spec (d_int_rate r) 0) as [H0 | _]; [lia |].
    assert (Hq : 0 <= ls_j s1 / d_int_rate r <= d_dec_rate r + 4).
    { split; [apply Z.div_pos; lia |].
      assert (ls_j s1 / d_int_rate r < d_dec_rate r + 5); [| lia].
      apply Z.div_lt_upper_bound; [lia |]. nia. }
    assert (Hi1max : ls_i s1 < nitems + d_int_rate r) by lia.
    assert (Hcnt : ls_count s1 + ls_j s1 / d_int_rate r <= ls_i s1 * (d_dec_rate r + 4)) by nia.
    assert (Hcmax : ls_i s1 * (d_dec_rate r + 4) <= INT_MAX) by nia.
    assert (Eq : int_of_uint (ls_j s1 / d_int_rate r) = ls_j s1 / d_int_rate r).
    { unfold int_of_uint. destruct (Z.leb_spec (ls_j s1 / d_int_rate r) INT_MAX); [reflexivity | lia]. }
    rewrite Eq.
    assert (Eadd : int_add (ls_count s1) (ls_j s1 / d_int_rate r) = Ok (ls_count s1 + ls_j s1 / d_int_rate r)).
    { unfold int_add, INT_MIN in *.
      destruct (Z.leb_spec (- 2 ^ 31) (ls_count s1 + ls_j s1 / d_int_rate r)); [| lia].
      destruct (Z.leb_spec (ls_count s1 + ls_j s1 / d_int_rate r) INT_MAX); [reflexivity | lia]. }
    rewrite Eadd. cbn [bind].
    set (s2 := mk_loop_state _ _ _ _ _ _).
    destruct (IH fuel s2) as (s' & Erun' & Hj' & Hacc' & Hstay' & Hgo' & Hlen');
      try (subst s2; cbn [ls_i ls_j ls_acc ls_count]; lia).
    { subst s2. cbn [ls_j]. apply Z.mod_pos_bound. lia. }
    { subst s2. cbn [ls_acc]. exact Hacc1. }
    exists s'. split; [exact Erun' |].
    subst s2. cbn [ls_i ls_j ls_acc ls_count ls_out] in *.
    split; [exact Hj' |]. split; [exact Hacc' |].
    split; [intros; lia |].
    split.
    { intros _. destruct (Z.le_gt_cases nitems (ls_i s1)) as [Hout | Hin].
      - rewrite (Hstay' Hout). cbn [ls_i]. lia.
      - specialize (Hgo' Hin). lia. }
    lia.
Qed.

End FilterCompletes.

(** ** The state invariant under the other operations *)

Lemma set_rate_keeps_invariant (r r' : resampler) (rate : float32) :
  set_rate r rate = Ok r' -> state_invariant r -> state_invariant r'.
Proof.
  unfold set_rate.
  destruct (cast_uint (f_floor (rate_quotient r rate))); cbn [bind]; try discriminate.
  intros [= <-]. exact (fun H => H).
Qed.

Lemma set_taps_keeps_invariant (fuel : nat) (r r' : resampler) (taps : list float32) :
  set_taps fuel r taps = Ok r' -> state_invariant r -> state_invariant r'.
Proof.
  unfold set_taps.
  destruct (create_diff_taps fuel taps); cbn [bind]; try discriminate.
  destruct (create_taps fuel (d_int_rate r) taps _ _) as [[[? ?] ?] | | |];
    cbn [bind]; try discriminate.
  destruct (create_taps fuel (d_int_rate r) _ _ _) as [[[? ?] ?] | | |];
    cbn [bind]; try discriminate.
  intros [= <-]. exact (fun H => H).
Qed.

Lemma constructor_invariant (fuel : nat) (rate : float32) (taps : list float32)
    (filter_size : Z) (r : resampler) :
  pfb_arb_resampler_ccf fuel rate taps filter_size = Ok r ->
  1 <= filter_size ->
  state_invariant r /\ d_int_rate r = filter_size.
Proof.
  unfold pfb_arb_resampler_ccf. intros Hrun HN.
  destruct (set_rate _ rate) as [r1 | | |] eqn:Erate; cbn [bind] in Hrun;
    try discriminate.
  assert (Hacc : d_acc r1 = S754_zero false).
  { unfold set_rate in Erate.
    destruct (cast_uint _); cbn [bind] in Erate; try discriminate.
    now injection Erate as <-. }
  set (r2 := mk_resampler _ _ _ _ _ _ _ _ _ _) in Hrun.
  assert (Hinv2 : state_invariant r2).
  { split; [unfold index_in_range; cbn; lia |].
    subst r2. cbn [d_acc]. rewrite Hacc. exact I. }
  split; [exact (set_taps_keeps_invariant _ _ _ _ Hrun Hinv2) |].
  unfold set_taps in Hrun.
  destruct (create_diff_taps fuel taps); cbn [bind] in Hrun; try discriminate.
  destruct (create_taps fuel (d_int_rate r2) taps _ _) as [[[? ?] ?] | | |];
    cbn [bind] in Hrun; try discriminate.
  destruct (create_taps fuel (d_int_rate r2) _ _ _) as [[[? ?] ?] | | |];
    cbn [bind] in Hrun; try discriminate.
  now injection Hrun as <-.
Qed.

Lemma inner_loop_keeps_acc
    (fir : list float32 -> (Z -> complex) -> Z -> complex)
    (r : resampler) (input : Z -> complex) :
  unit_range (d_flt_rate r) ->
  forall (fuel : nat) (s s' : loop_state),
    inner_loop fir r input fuel s = Ok s' ->
    unit_range (ls_acc s) -> unit_range (ls_acc s').
Proof.
  intros Hflt. induction fuel as [| fuel IH]; intros s s' Hrun Hacc.
  - cbn [inner_loop] in Hrun.
    destruct (ls_j s <? d_int_rate r); [discriminate |].
    now injection Hrun as <-.
  - rewrite inner_loop_S in Hrun.
    destruct (ls_j s <? d_int_rate r); [| now injection Hrun as <-].
    destruct (read (d_filters r) (ls_j s)); cbn [bind] in Hrun; try discriminate.
    destruct (read (d_diff_filters r) (ls_j s)); cbn [bind] in Hrun; try discriminate.
    destruct (int_add (ls_i s) 1); cbn [bind] in Hrun; try discriminate.
    destruct (cast_int _); cbn [bind] in Hrun; try discriminate.
    apply (IH _ _ Hrun). cbn [ls_acc].
    apply fmodf1_below_four. now apply f32_add_unit_range.
Qed.

Lemma outer_loop_keeps_invariant
    (fir : list float32 -> (Z -> complex) -> Z -> complex)
    (r : resampler) (input : Z -> complex) (nitems : Z) :
  unit_range (d_flt_rate r) ->
  0 <= d_int_rate r ->
  forall (fuel : nat) (s s' : loop_state),
    outer_loop fir r input nitems fuel s = Ok s' ->
    unit_range (ls_acc s) ->
    ls_i s < nitems \/ 0 <= ls_j s < d_int_rate r ->
    unit_range (ls_acc s') /\ 0 <= ls_j s' < d_int_rate r.
Proof.
  intros Hflt HN. induction fuel as [| fuel IH]; intros s s' Hrun Hacc Hj.
  - cbn [outer_loop] in Hrun.
    destruct (Z.ltb_spec (ls_i s) nitems); [discriminate |].
    injection Hrun as <-. split; [exact Hacc | lia].
  - rewrite outer_loop_S in Hrun.
    destruct (Z.ltb_spec (ls_i s) nitems);
      [| injection Hrun as <-; split; [exact Hacc | lia]].
    destruct (inner_loop fir r input (S fuel) s) as [s1 | | |] eqn:Einner;
      cbn [bind] in Hrun; try discriminate.
    destruct (Z.eqb_spec (d_int_rate r) 0); [discriminate |].
    destruct (int_add (ls_count s1) _); cbn [bind] in Hrun; try discriminate.
    apply (IH _ _ Hrun); cbn [ls_acc ls_j].
    + exact (inner_loop_keeps_acc fir r input Hflt _ _ _ Einner Hacc).
    + right. apply Z.mod_pos_bound. lia.
Qed.

(** X10.  Whenever the statements of [filter] run to the end of the
    function, the state invariant holds again. *)
Lemma filter_keeps_invariant
    (fir : list float32 -> (Z -> complex) -> Z -> complex)
    (r : resampler) (input : Z -> complex) (nitems : Z) (fuel : nat)
    (fr : filter_result) :
  filter_body fir r input nitems fuel = Ok fr ->
  state_invariant r ->
  unit_range (d_flt_rate r) ->
  state_invariant (fr_engine fr).
Proof.
  unfold filter_body. intros Hrun [Hidx Hacc] Hflt.
  destruct (outer_loop fir r input nitems fuel _) as [s | | |] eqn:Eouter;
    cbn [bind] in Hrun; try discriminate.
  injection Hrun as <-. cbn [fr_engine].
  unfold index_in_range in Hidx.
  destruct (outer_loop_keeps_invariant fir r input nitems Hflt ltac:(lia)
              _ _ _ Eouter Hacc ltac:(right; exact Hidx)) as [Hacc' Hj'].
  split; [exact Hj' | exact Hacc'].
Qed.

(** ** Phase and rate *)

(** C4.  On a validly built nine-filter engine, [set_phase] accepts
    6.2831850 (the largest [float] below 2 pi) and stores the filter index
    9 = N, outside [[0, N)]. *)
Theorem set_phase_breaks_index_range :
  engine (f32_of_Z 1) 9 = Ok nine
  /\ state_invariant nine
  /\ exists r' : resampler,
       set_phase nine below_two_pi = Ok r'
       /\ d_int_rate r' = 9
       /\ d_last_filter r' = 9
       /\ ~ state_invariant r'.
Proof.
  split; [vm_compute; reflexivity |].
  split; [vm_compute; intuition discriminate |].
  eexists. split; [vm_compute; reflexivity |].
  split; [reflexivity |]. split; [reflexivity |].
  intros [[_ H] _]. cbn in H. lia.
Qed.

(** C8.  Two inputs on which [set_phase] departs from the claim.  A NaN is
    not in [[0, 2 pi)] but is not rejected with the range error.  The
    largest [float] below 2 pi is accepted (it is at least 0 and less than
    2 * 3.14159265 < 2 pi, so that floor(ph / (2 pi / 9)) is at most 8),
    and the index stored for it on nine filters is 9. *)
Theorem set_phase_departs_from_floor :
  ~ (exists e : exn, set_phase nine S754_nan = Throw e)
  /\ 0 <= units below_two_pi
  /\ units below_two_pi * 9 * 100000000 < 9 * (2 * 314159265) * 2 ^ 149
  /\ exists r' : resampler,
       set_phase nine below_two_pi = Ok r' /\ d_last_filter r' = 9.
Proof.
  split; [intros [e H]; vm_compute in H; discriminate |].
  split; [vm_compute; discriminate |].
  split; [vm_compute; reflexivity |].
  eexists. split; [vm_compute; reflexivity | reflexivity].
Qed.

(** C9, as stated, fails: rate -1 is not rejected with an error. *)
Lemma set_rate_negative_not_rejected :
  SFleb (f32_of_Z (-1)) (f32_of_Z 0) = true
  /\ ~ (exists e : exn, set_rate nine (f32_of_Z (-1)) = Throw e).
Proof.
  split; [reflexivity |].
  intros [e H]. vm_compute in H. discriminate.
Qed.

(** C9, amended.  [set_rate] validates nothing: for every rate, positive
    or not, it evaluates floor(N/rate); either the conversion of that
    value to [unsigned int] is undefined, or the two rates are stored.  No
    error is ever raised. *)
Theorem set_rate_never_throws (r : resampler) (rate : float32) :
  (cast_uint (f_floor (rate_quotient r rate)) = Undefined
   /\ set_rate r rate = Undefined)
  \/ (exists dec : Z,
        cast_uint (f_floor (rate_quotient r rate)) = Ok dec
        /\ set_rate r rate
           = Ok (with_rate r dec (f32_sub (rate_quotient r rate) (f32_of_Z dec)))).
Proof.
  unfold set_rate.
  destruct (f_floor (rate_quotient r rate)) as [n |]; cbn [cast_uint].
  - destruct ((0 <=? n) && (n <? UINT_MOD)); cbn [bind].
    + right. now exists n.
    + now left.
  - now left.
Qed.

(** C7, as stated, fails: rate 2^-32 is positive, N/rate is 9 * 2^32 on
    nine filters, and no [unsigned int] [d_dec_rate] is stored for it. *)
Lemma set_rate_tiny_rate_overflows :
  f32_ltb (f32_of_Z 0) tiny_rate = true
  /\ f_floor (rate_quotient nine tiny_rate) = Some (9 * 2 ^ 32)
  /\ ~ (exists r' : resampler, set_rate nine tiny_rate = Ok r').
Proof.
  split; [reflexivity |].
  split; [vm_compute; reflexivity |].
  intros [r' H]. vm_compute in H. discriminate.
Qed.

(** C7, amended.  For every rate > 0 for which floor(N/rate), with the
    quotient computed in single precision, is below 2^32, [set_rate]
    stores [d_dec_rate = floor(N/rate)] and
    [d_flt_rate = N/rate - d_dec_rate]; the subtraction is exact and
    0 <= d_flt_rate < 1. *)
Theorem set_rate_spec (r : resampler) (rate : float32) (q : Z) :
  0 <= d_int_rate r ->
  f32_ltb (f32_of_Z 0) rate = true ->
  f_floor (rate_quotient r rate) = Some q ->
  q < 2 ^ 32 ->
  exists r' : resampler,
    set_rate r rate = Ok r'
    /\ r' = with_rate r q (f32_sub (rate_quotient r rate) (f32_of_Z q))
    /\ d_dec_rate r' = q
    /\ units (d_flt_rate r') = units (rate_quotient r rate) - q * 2 ^ 149
    /\ unit_range (d_flt_rate r')
    /\ 0 <= units (d_flt_rate r') < 2 ^ 149.
Proof.
  intros HN Hrate Hq Hlt.
  pose proof (rate_quotient_shape r rate q HN Hrate Hq) as Hshape.
  pose proof (f_floor_nonneg _ _ Hshape Hq) as Hq0.
  pose proof (f32_sub_floor _ _ Hshape Hq) as Hsub.
  unfold set_rate. rewrite Hq. unfold cast_uint, UINT_MOD.
  destruct (Z.leb_spec 0 q) as [_ | Hneg]; [| lia].
  destruct (Z.ltb_spec q (2 ^ 32)) as [_ | Hge]; [| lia].
  cbn [andb bind].
  eexists. split; [reflexivity |]. split; [reflexivity |].
  cbn [with_rate d_dec_rate d_flt_rate]. split; [reflexivity |].
  rewrite Hsub.
  assert (Hunit : unit_range (fmodf1 (rate_quotient r rate))).
  { destruct Hshape as [-> | (m & e & -> & Hb)];
      [exact I | now apply fmodf1_unit_range]. }
  split; [| split; [exact Hunit | now apply unit_range_units]].
  destruct Hshape as [Hx | (m & e & Hx & Hb)]; rewrite Hx in *.
  - now injection Hq as <-.
  - now apply fmodf1_exact.
Qed.

Lemma set_rate_spec_witness :
  0 <= d_int_rate nine
  /\ f32_ltb (f32_of_Z 0) (f32_of_Z 4) = true
  /\ f_floor (rate_quotient nine (f32_of_Z 4)) = Some 2
  /\ 2 < 2 ^ 32
  /\ exists r' : resampler,
       set_rate nine (f32_of_Z 4) = Ok r'
       /\ r' = with_rate nine 2 (f32_sub (rate_quotient nine (f32_of_Z 4)) (f32_of_Z 2))
       /\ d_dec_rate r' = 2
       /\ units (d_flt_rate r') = units (rate_quotient nine (f32_of_Z 4)) - 2 * 2 ^ 149
       /\ unit_range (d_flt_rate r')
       /\ 0 <= units (d_flt_rate r') < 2 ^ 149.
Proof.
  split; [vm_compute; discriminate |].
  split; [reflexivity |].
  split; [reflexivity |].
  split; [reflexivity |].
  apply (set_rate_spec nine (f32_of_Z 4) 2).
  - vm_compute. discriminate.
  - reflexivity.
  - reflexivity.
  - reflexivity.
Defined.

(** The quotient is the single-precision one: for nine filters and the
    rate 1.80000007f, the [float] next above 1.8, the exact quotient
    9/rate lies below 5, the rounded quotient is 5.0f, and [set_rate]
    stores [d_dec_rate = 5], [d_flt_rate = 0]. *)
Lemma set_rate_quotient_is_rounded :
  9 * 2 ^ 149 < 5 * units rate_above_1_8
  /\ rate_quotient nine rate_above_1_8 = f32_of_Z 5
  /\ exists r' : resampler,
       set_rate nine rate_above_1_8 = Ok r'
       /\ d_dec_rate r' = 5
       /\ d_flt_rate r' = S754_zero false.
Proof.
  split; [vm_compute; reflexivity |].
  split; [vm_compute; reflexivity |].
  eexists. split; [vm_compute; reflexivity |]. split; reflexivity.
Qed.

(** ** Partitioning *)

Lemma for_loop_Ok_inv {S : Type} (body : Z -> S -> outcome S) (n : nat) :
  forall (lo : Z) (s s' : S),
    for_loop body lo n s = Ok s' ->
    forall k : nat, (k < n)%nat ->
      exists sk sk' : S, body (lo + Z.of_nat k) sk = Ok sk'.
Proof.
  induction n as [| n IH]; intros lo s s' Hrun k Hk; [lia |].
  cbn [for_loop] in Hrun.
  destruct (body lo s) as [s1 | | |] eqn:E1; cbn [bind] in Hrun; try discriminate.
  destruct k as [| k].
  - exists s, s1. now rewrite Z.add_0_r.
  - destruct (IH (lo + 1) s1 s' Hrun k ltac:(lia)) as (sk & sk' & Hk').
    exists sk, sk'. rewrite <- Hk'. f_equal. lia.
Qed.

Lemma pad_loop_stop (fuel : nat) (target : Z) (tmp_taps : list float32) :
  f32_ltb (f32_of_Z (size tmp_taps)) (f32_of_Z target) = false ->
  pad_loop fuel target tmp_taps = Ok tmp_taps.
Proof. intros H. destruct fuel; cbn [pad_loop]; now rewrite H. Qed.

(** Every element read by the partition loops lies inside [tmp_taps]. *)
Lemma create_taps_reads_in_range (fuel : nat) (N : Z) (newtaps : list float32)
    (ourtaps ourfilter : list (list float32))
    (tpf : Z) (tmp_taps : list float32)
    (res : Z * list (list float32) * list (list float32)) :
  pad_taps fuel N newtaps = Ok (tpf, tmp_taps) ->
  create_taps fuel N newtaps ourtaps ourfilter = Ok res ->
  forall i j : Z, 0 <= i < N -> 0 <= j < tpf ->
    0 <= uint (i + uint (j * N)) < size tmp_taps.
Proof.
  intros Hpad Hrun i j Hi Hj. unfold create_taps in Hrun.
  rewrite Hpad in Hrun. cbn [bind] in Hrun.
  destruct (for_loop (partition_body tmp_taps N tpf) 0 (Z.to_nat N) _)
    as [[t f] | | |] eqn:Eloop; cbn [bind] in Hrun; try discriminate.
  destruct (for_loop_Ok_inv _ _ _ _ _ Eloop (Z.to_nat i) ltac:(lia))
    as (sk & sk' & Hbody).
  rewrite Z.add_0_l, Z2Nat.id in Hbody by lia.
  unfold partition_body in Hbody.
  destruct (write (fst sk) _ _); cbn [bind] in Hbody; try discriminate.
  destruct (for_loop (row_body tmp_taps N i) 0 (Z.to_nat tpf) _)
    as [row | | |] eqn:Erow; cbn [bind] in Hbody; try discriminate.
  destruct (for_loop_Ok_inv _ _ _ _ _ Erow (Z.to_nat j) ltac:(lia))
    as (rk & rk' & Hrow).
  rewrite Z.add_0_l, Z2Nat.id in Hrow by lia.
  unfold row_body in Hrow.
  destruct (read tmp_taps (uint (i + uint (j * N)))) as [v | | |] eqn:Eread;
    cbn [bind] in Hrow; try discriminate.
  exact (read_Ok_bound _ _ _ Eread).
Qed.

(** *** Small integers convert exactly *)

Lemma f32_of_Z_small (a : Z) :
  0 < a < 2 ^ 24 ->
  exists m : positive,
    f32_of_Z a = S754_finite false m (Zdigits2 a - 24)
    /\ Zpos m = a * 2 ^ (24 - Zdigits2 a).
Proof.
  intros Ha. destruct a as [| p | p]; try lia.
  unfold f32_of_Z, B32. cbn [binary_normalize Zdigits2].
  assert (Hd : Zpos (digits2_pos p) <= 24).
  { change (Zdigits2 (Zpos p) <= 24). apply Zdigits2_le; lia. }
  pose proof (Pos2Z.is_pos (digits2_pos p)).
  destruct (binary_round_exact false p 0) as (m & Hz & Hm & _);
    [rewrite fexp32_eq; lia | rewrite fexp32_eq; lia |].
  rewrite fexp32_eq in Hz, Hm.
  replace (Z.max (Zpos (digits2_pos p) + 0 - 24) (-149))
    with (Zpos (digits2_pos p) - 24) in Hz, Hm by lia.
  exists m. split; [exact Hz |]. rewrite Hm. f_equal. f_equal. lia.
Qed.

(** Below 2^24 the comparison of two sizes as [float] is the comparison of
    the sizes. *)
Lemma f32_ltb_small (a b : Z) :
  0 <= a < 2 ^ 24 -> 0 <= b < 2 ^ 24 ->
  f32_ltb (f32_of_Z a) (f32_of_Z b) = (a <? b).
Proof.
  intros Ha Hb.
  destruct (Z.eq_dec a 0) as [-> | Ha0]; destruct (Z.eq_dec b 0) as [-> | Hb0].
  - reflexivity.
  - destruct (f32_of_Z_small b ltac:(lia)) as (mb & -> & _).
    change (f32_of_Z 0) with (S754_zero false). cbn.
    symmetry. apply Z.ltb_lt. lia.
  - destruct (f32_of_Z_small a ltac:(lia)) as (ma & -> & _).
    change (f32_of_Z 0) with (S754_zero false). cbn.
    symmetry. apply Z.ltb_ge. lia.
  - destruct (f32_of_Z_small a ltac:(lia)) as (ma & -> & Hma).
    destruct (f32_of_Z_small b ltac:(lia)) as (mb & -> & Hmb).
    destruct (Zdigits2_pos_bounds a ltac:(lia)) as (Hda & Hloa & Hhia).
    destruct (Zdigits2_pos_bounds b ltac:(lia)) as (Hdb & Hlob & Hhib).
    assert (Hda24 : Zdigits2 a <= 24) by (apply Zdigits2_le; lia).
    assert (Hdb24 : Zdigits2 b <= 24) by (apply Zdigits2_le; lia).
    unfold f32_ltb, SFltb, SFcompare.
    destruct (Z.compare_spec (Zdigits2 a - 24) (Zdigits2 b - 24)) as [He | He | He].
    + change (Pos.compare_cont Eq ma mb) with (Pos.compare ma mb).
      rewrite Pos2Z.inj_compare, Hma, Hmb.
      assert (Hd : Zdigits2 a = Zdigits2 b) by lia. rewrite Hd.
      assert (Hp : 0 < 2 ^ (24 - Zdigits2 b)) by (apply Z.pow_pos_nonneg; lia).
      destruct (Z.ltb_spec a b) as [Hlt | Hge].
      * assert (Hc : (a * 2 ^ (24 - Zdigits2 b) ?= b * 2 ^ (24 - Zdigits2 b)) = Lt)
          by (apply Z.compare_lt_iff; apply Z.mul_lt_mono_pos_r; lia).
        now rewrite Hc.
      * destruct (a * 2 ^ (24 - Zdigits2 b) ?= b * 2 ^ (24 - Zdigits2 b)) eqn:Hc;
          try reflexivity.
        apply Z.compare_lt_iff in Hc.
        apply Z.mul_lt_mono_pos_r in Hc; lia.
    + symmetry. apply Z.ltb_lt.
      assert (2 ^ Zdigits2 a <= 2 ^ (Zdigits2 b - 1))
        by (apply Z.pow_le_mono_r; lia).
      lia.
    + symmetry. apply Z.ltb_ge.
      assert (2 ^ Zdigits2 b <= 2 ^ (Zdigits2 a - 1))
        by (apply Z.pow_le_mono_r; lia).
      lia.
Qed.

Lemma size_app {A : Type} (l l' : list A) : size (l ++ l') = size l + size l'.
Proof. unfold size. rewrite length_app. lia. Qed.

Lemma pad_loop_pads (fuel : nat) :
  forall (target : Z) (tmp_taps : list float32),
    size tmp_taps <= target < 2 ^ 24 ->
    (Z.to_nat (target - size tmp_taps) <= fuel)%nat ->
    pad_loop fuel target tmp_taps
    = Ok (tmp_taps ++ repeat (f32_of_Z 0) (Z.to_nat (target - size tmp_taps))).
Proof.
  induction fuel as [| fuel IH]; intros target tmp Hsize Hfuel.
  - assert (Heq : target - size tmp = 0) by lia.
    rewrite Heq. cbn [Z.to_nat repeat]. rewrite app_nil_r.
    apply pad_loop_stop. rewrite f32_ltb_small by (unfold size in *; lia).
    apply Z.ltb_ge. lia.
  - cbn [pad_loop]. rewrite f32_ltb_small by (unfold size in *; lia).
    destruct (Z.ltb_spec (size tmp) target) as [Hlt | Hge].
    + rewrite IH by (rewrite size_app; unfold size in *; cbn [length] in *; lia).
      rewrite size_app. change (size [f32_of_Z 0]) with 1.
      replace (Z.to_nat (target - size tmp))
        with (S (Z.to_nat (target - (size tmp + 1)))) by lia.
      cbn [repeat]. now rewrite <- app_assoc.
    + assert (Heq : target - size tmp = 0) by lia.
      rewrite Heq. cbn [Z.to_nat repeat]. now rewrite app_nil_r.
Qed.

(** *** The partition loops *)

Lemma update_nth_app {A : Type} (l1 l2 : list A) (x v : A) :
  update_nth (length l1) v (l1 ++ x :: l2) = Some (l1 ++ v :: l2).
Proof.
  induction l1 as [| h t IH]; cbn [length app update_nth]; [reflexivity |].
  now rewrite IH.
Qed.

Lemma write_app {A : Type} (l1 l2 : list A) (x v : A) (i : Z) :
  i = size l1 -> write (l1 ++ x :: l2) i v = Ok (l1 ++ v :: l2).
Proof.
  intros ->. unfold write, size.
  destruct (Z.ltb_spec (Z.of_nat (length l1)) 0); [lia |].
  now rewrite Nat2Z.id, update_nth_app.
Qed.

Section Partition.

Variable tmp_taps : list float32.
Variables N tpf : Z.

Hypothesis HN : 1 <= N < UINT_MOD.
Hypothesis Htpf : 0 <= tpf.
Hypothesis Hsize : size tmp_taps = N * tpf.
Hypothesis Hrange : N * tpf < UINT_MOD.

Lemma row_loop (i : nat) (n : nat) :
  forall (lo : nat) (done : list float32),
    (i < Z.to_nat N)%nat ->
    (lo + n = Z.to_nat tpf)%nat ->
    length done = lo ->
    for_loop (row_body tmp_taps N (Z.of_nat i)) (Z.of_nat lo) n
      (done ++ repeat (f32_of_Z 0) n)
    = Ok (done ++ map (fun j : nat => nth (i + j * Z.to_nat N) tmp_taps S754_nan)
                    (seq lo n)).
Proof.
  induction n as [| n IH]; intros lo done Hi Hlo Hdone; [reflexivity |].
  cbn [for_loop repeat]. unfold row_body at 1.
  assert (Hidx : 0 <= Z.of_nat i + Z.of_nat lo * N < N * tpf) by nia.
  rewrite (uint_small (Z.of_nat lo * N)) by nia.
  rewrite uint_small by lia.
  replace (Z.of_nat i + Z.of_nat lo * N)
    with (Z.of_nat (i + lo * Z.to_nat N)) by nia.
  rewrite (read_in_range tmp_taps _ S754_nan) by (unfold size in Hsize; nia).
  cbn [bind].
  rewrite write_app by (unfold size; lia).
  cbn [bind].
  replace (Z.of_nat lo + 1) with (Z.of_nat (S lo)) by lia.
  replace (done ++ nth (i + lo * Z.to_nat N) tmp_taps S754_nan :: repeat (f32_of_Z 0) n)
    with ((done ++ [nth (i + lo * Z.to_nat N) tmp_taps S754_nan]) ++ repeat (f32_of_Z 0) n)
    by (now rewrite <- app_assoc).
  rewrite IH; [| exact Hi | lia | rewrite length_app; cbn [length]; lia].
  cbn [seq map]. now rewrite <- app_assoc.
Qed.

Lemma row_loop_stride (i : nat) :
  (i < Z.to_nat N)%nat ->
  for_loop (row_body tmp_taps N (Z.of_nat i)) 0 (Z.to_nat tpf)
    (repeat (f32_of_Z 0) (Z.to_nat tpf))
  = Ok (stride tmp_taps N tpf i).
Proof.
  intros Hi.
  exact (row_loop i (Z.to_nat tpf) 0 [] Hi eq_refl eq_refl).
Qed.

Lemma partition_loop (n : nat) :
  forall (lo : nat) (A B : list (list float32)),
    (lo + n = Z.to_nat N)%nat ->
    length A = n -> length B = n ->
    for_loop (partition_body tmp_taps N tpf) (Z.of_nat lo) n
      (A ++ rev (map (stride tmp_taps N tpf) (seq 0 lo)),
       map (stride tmp_taps N tpf) (seq 0 lo) ++ B)
    = Ok (rev (strides tmp_taps N tpf), strides tmp_taps N tpf).
Proof.
  induction n as [| n IH]; intros lo A B Hlo HA HB.
  - destruct A; [| discriminate]. destruct B; [| discriminate].
    cbn [for_loop app]. rewrite app_nil_r. unfold strides.
    now replace (Z.to_nat N) with lo by lia.
  - destruct (exists_last (l := A)) as (A' & x & ->);
      [intros ->; discriminate |].
    rewrite length_app in HA. cbn [length] in HA.
    destruct B as [| y B']; [discriminate |]. cbn [length] in HB.
    cbn [for_loop]. unfold partition_body at 1. cbn [fst snd].
    assert (Eidx : uint (N - 1 - Z.of_nat lo) = size A').
    { rewrite uint_small by lia. unfold size. lia. }
    rewrite Eidx, <- app_assoc. cbn [app].
    rewrite write_app by reflexivity. cbn [bind].
    rewrite row_loop_stride by lia. cbn [bind].
    rewrite write_app by reflexivity. cbn [bind].
    rewrite write_app by (unfold size; rewrite length_map, length_seq; lia).
    cbn [bind].
    replace (Z.of_nat lo + 1) with (Z.of_nat (S lo)) by lia.
    rewrite <- (IH (S lo) A' B'); try lia.
    f_equal. f_equal.
    + rewrite seq_S, map_app, rev_app_distr. reflexivity.
    + rewrite seq_S, map_app, <- app_assoc. reflexivity.
Qed.

End Partition.

Lemma size_padded (N tpf : Z) (taps : list float32) :
  size taps <= N * tpf -> size (padded N tpf taps) = N * tpf.
Proof.
  intros H. unfold padded. rewrite size_app. unfold size in *.
  rewrite repeat_length. lia.
Qed.

Lemma length_resize {A : Type} (d : A) (n : nat) (v : list A) :
  length (resize d n v) = n.
Proof. unfold resize. rewrite length_app, length_firstn, repeat_length. lia. Qed.

(** Below 2^24 coefficients, [create_taps] returns the reversed strides of
    the zero-padded prototype as [ourtaps] and hands stride [i] to filter
    object [i]. *)
Lemma create_taps_small (fuel : nat) (N : Z) (taps : list float32)
    (ourtaps ourfilter : list (list float32)) (tpf : Z) :
  1 <= N < UINT_MOD ->
  taps_per_filter (uint (size taps)) N = Ok tpf ->
  size taps <= N * tpf < 2 ^ 24 ->
  size ourfilter = N ->
  (Z.to_nat (N * tpf - size taps) <= fuel)%nat ->
  create_taps fuel N taps ourtaps ourfilter
  = Ok (tpf, rev (strides (padded N tpf taps) N tpf),
        strides (padded N tpf taps) N tpf).
Proof.
  intros HN Htpf Hsz Hfilt Hfuel.
  assert (Htpf0 : 0 <= tpf) by (unfold size in *; nia).
  unfold create_taps, pad_taps. rewrite Htpf. cbn [bind].
  rewrite uint_small by (unfold UINT_MOD; lia).
  rewrite pad_loop_pads by lia. cbn [bind]. fold (padded N tpf taps).
  pose proof (partition_loop (padded N tpf taps) N tpf HN Htpf0
                (size_padded N tpf taps ltac:(lia)) ltac:(unfold UINT_MOD; lia)
                (Z.to_nat N) 0 (resize [] (Z.to_nat N) ourtaps) ourfilter
                eq_refl (length_resize _ _ _) ltac:(unfold size in Hfilt; lia)) as Hloop.
  cbn [seq map rev app] in Hloop. rewrite app_nil_r in Hloop.
  change (Z.of_nat 0) with 0 in Hloop.
  rewrite Hloop. reflexivity.
Qed.

Lemma length_strides (tmp : list float32) (N tpf : Z) :
  length (strides tmp N tpf) = Z.to_nat N.
Proof. unfold strides. now rewrite length_map, length_seq. Qed.

Lemma nth_map_seq {A : Type} (f : nat -> A) (n k : nat) (d : A) :
  (k < n)%nat -> nth k (map f (seq 0 n)) d = f k.
Proof.
  intros Hk.
  assert (E : nth_error (map f (seq 0 n)) k = Some (f k)).
  { rewrite nth_error_map, nth_error_seq.
    destruct (Nat.ltb_spec k n); [reflexivity | lia]. }
  now apply nth_error_nth.
Qed.

Lemma nth_strides (tmp : list float32) (N tpf : Z) (i : nat) :
  (i < Z.to_nat N)%nat ->
  nth i (strides tmp N tpf) [] = stride tmp N tpf i.
Proof. intros Hi. unfold strides. now apply nth_map_seq. Qed.

Lemma nth_stride (tmp : list float32) (N tpf : Z) (i j : nat) :
  (j < Z.to_nat tpf)%nat ->
  nth j (stride tmp N tpf i) S754_nan = nth (i + j * Z.to_nat N) tmp S754_nan.
Proof.
  intros Hj. unfold stride.
  now rewrite (nth_map_seq (fun j0 : nat => nth (i + j0 * Z.to_nat N) tmp S754_nan)).
Qed.

(** The claim of C5 on every bank of fewer than 2^24 coefficients.  [tpf]
    is the value the code computes for [d_taps_per_filter]; when
    [(tpf - 1) * N < L <= tpf * N] it is ceil(L/N). *)
Theorem create_taps_below_2_24 (fuel : nat) (N : Z) (taps : list float32)
    (ourtaps ourfilter : list (list float32)) (tpf : Z) :
  1 <= N < UINT_MOD ->
  taps_per_filter (uint (size taps)) N = Ok tpf ->
  size taps <= N * tpf < 2 ^ 24 ->
  size ourfilter = N ->
  (Z.to_nat (N * tpf - size taps) <= fuel)%nat ->
  exists t f : list (list float32),
    create_taps fuel N taps ourtaps ourfilter = Ok (tpf, t, f)
    /\ size t = N
    /\ (forall i : nat, (i < Z.to_nat N)%nat -> size (nth i t []) = tpf)
    /\ (forall i j : nat, (i < Z.to_nat N)%nat -> (j < Z.to_nat tpf)%nat ->
          nth j (nth (Z.to_nat N - 1 - i) t []) S754_nan
          = nth (i + j * Z.to_nat N) (padded N tpf taps) S754_nan)
    /\ (forall k : nat, (k < Z.to_nat (N * tpf))%nat ->
          nth k (padded N tpf taps) S754_nan
          = nth (k / Z.to_nat N)
              (nth (Z.to_nat N - 1 - k mod Z.to_nat N) t []) S754_nan)
    /\ (forall i : nat, (i < Z.to_nat N)%nat ->
          nth i f [] = nth (Z.to_nat N - 1 - i) t []).
Proof.
  intros HN Htpf Hsz Hfilt Hfuel.
  assert (Htpf0 : 0 <= tpf) by (unfold size in *; nia).
  set (tmp := padded N tpf taps).
  assert (Hrev : forall i : nat, (i < Z.to_nat N)%nat ->
            nth (Z.to_nat N - 1 - i) (rev (strides tmp N tpf)) []
            = stride tmp N tpf i).
  { intros i Hi.
    rewrite rev_nth by (rewrite length_strides; lia).
    rewrite length_strides.
    replace (Z.to_nat N - S (Z.to_nat N - 1 - i))%nat with i by lia.
    now apply nth_strides. }
  exists (rev (strides tmp N tpf)), (strides tmp N tpf).
  split; [now apply create_taps_small |].
  split; [unfold size; rewrite length_rev, length_strides; lia |].
  split; [| split; [| split]].
  - intros i Hi.
    replace i with (Z.to_nat N - 1 - (Z.to_nat N - 1 - i))%nat by lia.
    rewrite Hrev by lia. unfold size, stride.
    rewrite length_map, length_seq. lia.
  - intros i j Hi Hj. rewrite Hrev by exact Hi. now apply nth_stride.
  - intros k Hk.
    assert (HNpos : (0 < Z.to_nat N)%nat) by lia.
    pose proof (Nat.mod_upper_bound k (Z.to_nat N) ltac:(lia)) as Hmod.
    pose proof (Nat.div_mod_eq k (Z.to_nat N)) as Hdm.
    rewrite Hrev by exact Hmod.
    rewrite nth_stride.
    + f_equal. lia.
    + assert (Hlt : (k / Z.to_nat N < Z.to_nat tpf)%nat); [| exact Hlt].
      apply Nat.Div0.div_lt_upper_bound.
      rewrite Z2Nat.inj_mul in Hk by lia. lia.
  - intros i Hi. rewrite Hrev by exact Hi. now apply nth_strides.
Qed.

Lemma create_taps_below_2_24_witness :
  1 <= 2 < UINT_MOD
  /\ taps_per_filter (uint (size proto)) 2 = Ok 3
  /\ size proto <= 2 * 3 < 2 ^ 24
  /\ exists t f : list (list float32),
       create_taps 1 2 proto [] [[]; []] = Ok (3, t, f)
       /\ size t = 2
       /\ (forall i : nat, (i < Z.to_nat 2)%nat -> size (nth i t []) = 3)
       /\ (forall i j : nat, (i < Z.to_nat 2)%nat -> (j < Z.to_nat 3)%nat ->
             nth j (nth (Z.to_nat 2 - 1 - i) t []) S754_nan
             = nth (i + j * Z.to_nat 2) (padded 2 3 proto) S754_nan)
       /\ (forall k : nat, (k < Z.to_nat (2 * 3))%nat ->
             nth k (padded 2 3 proto) S754_nan
             = nth (k / Z.to_nat 2)
                 (nth (Z.to_nat 2 - 1 - k mod Z.to_nat 2) t []) S754_nan)
       /\ (forall i : nat, (i < Z.to_nat 2)%nat ->
             nth i f [] = nth (Z.to_nat 2 - 1 - i) t []).
Proof.
  split; [vm_compute; intuition discriminate |].
  split; [vm_compute; reflexivity |].
  split; [vm_compute; intuition discriminate |].
  apply (create_taps_below_2_24 1 2 proto [] [[]; []] 3).
  - vm_compute. intuition discriminate.
  - vm_compute. reflexivity.
  - vm_compute. intuition discriminate.
  - reflexivity.
  - vm_compute. lia.
Defined.

(** *** Beyond 2^24 coefficients *)

Lemma size_big_proto : size big_proto = 16777216.
Proof.
  unfold size, big_proto. rewrite repeat_length. apply Z2Nat.id. lia.
Qed.

(** C5.  For 97 filters and a prototype of 2^24 taps,
    [d_taps_per_filter] is 172961 = ceil(2^24 / 97) and the padded
    prototype should hold 97 * 172961 = 2^24 + 1 coefficients; but
    [(float)16777216] is not less than [(float)16777217], so the padding
    loop appends nothing, and the partition cannot complete: its last read,
    [tmp_taps[96 + 172960*97]], lies past the end of the vector. *)
Theorem create_taps_padding_stops_short :
  97 * 172961 = 16777217
  /\ (forall fuel : nat, pad_taps fuel 97 big_proto = Ok (172961, big_proto))
  /\ size big_proto = 16777216
  /\ ~ (exists (fuel : nat) (res : Z * list (list float32) * list (list float32)),
          create_taps fuel 97 big_proto [] (repeat [] 97) = Ok res).
Proof.
  assert (Hpad : forall fuel : nat, pad_taps fuel 97 big_proto = Ok (172961, big_proto)).
  { intros fuel. unfold pad_taps. rewrite size_big_proto.
    replace (taps_per_filter (uint 16777216) 97) with (Ok (A:=Z) 172961)
      by (vm_compute; reflexivity).
    cbn [bind]. rewrite pad_loop_stop; [reflexivity |].
    rewrite size_big_proto. vm_compute. reflexivity. }
  split; [reflexivity |].
  split; [exact Hpad |].
  split; [exact size_big_proto |].
  intros (fuel & res & Hrun).
  pose proof (create_taps_reads_in_range fuel 97 big_proto [] (repeat [] 97)
                172961 big_proto res (Hpad fuel) Hrun 96 172960
                ltac:(lia) ltac:(lia)) as Hread.
  rewrite size_big_proto in Hread.
  replace (uint (96 + uint (172960 * 97))) with 16777216 in Hread
    by (vm_compute; reflexivity).
  lia.
Qed.

(** * Further properties of the kernel *)

(** *** Rounding at any precision: the value of the result *)

Section RoundingValue.

Variables prec emax : Z.

Lemma shr_fexp_value (mx ex : Z) (lx : location) :
  0 <= mx ->
  ex <= fexp prec emax (Zdigits2 mx + ex) ->
  exists mrs' : shr_record,
    shr_fexp prec emax mx ex lx = (mrs', fexp prec emax (Zdigits2 mx + ex))
    /\ shr_m mrs' = mx / 2 ^ (fexp prec emax (Zdigits2 mx + ex) - ex)
    /\ (lx = loc_Exact ->
        mx mod 2 ^ (fexp prec emax (Zdigits2 mx + ex) - ex) = 0 ->
        loc_of_shr_record mrs' = loc_Exact).
Proof.
  intros Hmx Hex. unfold shr_fexp.
  set (n := fexp prec emax (Zdigits2 mx + ex) - ex).
  assert (Hn : 0 <= n) by (unfold n; lia).
  destruct (shr_spec (shr_record_of_loc mx lx) ex n) as [Hs1 Hs2];
    [rewrite shr_record_of_loc_m; lia | lia |].
  destruct (shr (shr_record_of_loc mx lx) ex n) as [mrs' e'] eqn:Eshr.
  cbn [fst snd] in Hs1, Hs2. rewrite shr_record_of_loc_m in Hs2.
  exists mrs'. split; [f_equal; unfold n in *; lia |]. split; [exact Hs2 |].
  intros -> Hmod. cbn [shr_record_of_loc] in Eshr.
  destruct n as [| p | p]; [| | lia].
  - cbn [shr] in Eshr. now injection Eshr as <- _.
  - cbn [shr] in Eshr.
    assert (Hp : 0 < 2 ^ Zpos p) by (apply Z.pow_pos_nonneg; lia).
    pose proof (Z.div_mod mx (2 ^ Zpos p) ltac:(lia)) as Hdm.
    rewrite Hmod, Z.add_0_r in Hdm.
    rewrite Hdm, Z.mul_comm in Eshr.
    rewrite shr_exact in Eshr by (apply Z.div_pos; lia).
    now injection Eshr as <- _.
Qed.

Hypothesis Hprec : 0 < prec.

(** [binary_round_aux] on a mantissa carrying enough digits: the result is
    the mantissa cut at the exponent of its binade, or the next one up;
    it is the former when the cut loses nothing. *)
Lemma binary_round_aux_value (s : bool) (mx ex : Z) (lx : location) :
  0 <= mx ->
  ex <= fexp prec emax (Zdigits2 mx + ex) ->
  (binary_round_aux prec emax s mx ex lx = S754_zero s
   /\ mx / 2 ^ (fexp prec emax (Zdigits2 mx + ex) - ex) = 0)
  \/ (binary_round_aux prec emax s mx ex lx = S754_infinity s
      /\ emax - prec <= fexp prec emax (Zdigits2 mx + ex))
  \/ exists (m : positive) (e : Z),
       binary_round_aux prec emax s mx ex lx = S754_finite s m e
       /\ bounded prec emax m e = true
       /\ fexp prec emax (Zdigits2 mx + ex) <= e
       /\ (Zpos m * 2 ^ (e - fexp prec emax (Zdigits2 mx + ex))
           = mx / 2 ^ (fexp prec emax (Zdigits2 mx + ex) - ex)
           \/ Zpos m * 2 ^ (e - fexp prec emax (Zdigits2 mx + ex))
              = mx / 2 ^ (fexp prec emax (Zdigits2 mx + ex) - ex) + 1)
       /\ (lx = loc_Exact ->
           mx mod 2 ^ (fexp prec emax (Zdigits2 mx + ex) - ex) = 0 ->
           Zpos m * 2 ^ (e - fexp prec emax (Zdigits2 mx + ex))
           = mx / 2 ^ (fexp prec emax (Zdigits2 mx + ex) - ex)).
Proof.
  intros Hmx Hex. unfold binary_round_aux.
  destruct (shr_fexp_value mx ex lx Hmx Hex) as (mrs' & Eq1 & Hs2 & Hex1).
  rewrite Eq1. clear Eq1.
  set (E := Zdigits2 mx + ex) in *.
  set (e1 := fexp prec emax E) in *.
  assert (He1 : e1 = Z.max (E - prec) (3 - emax - prec)) by reflexivity.
  set (q := mx / 2 ^ (e1 - ex)) in *.
  set (m1 := shr_m mrs') in *.
  assert (Hn : 0 <= e1 - ex) by lia.
  assert (Hm1 : 0 <= m1).
  { rewrite Hs2. apply Z.div_pos; [lia |]. apply Z.pow_pos_nonneg; lia. }
  assert (Hd1 : Zdigits2 m1 = Z.max 0 (Zdigits2 mx - (e1 - ex))).
  { rewrite Hs2. now apply Zdigits2_div_pow2. }
  set (mr := round_nearest_even m1 (loc_of_shr_record mrs')).
  pose proof (round_nearest_even_bounds m1 (loc_of_shr_record mrs')) as Hmr.
  fold mr in Hmr.
  assert (Hmr' : mr = m1 \/ mr = m1 + 1).
  { unfold mr. destruct (loc_of_shr_record mrs') as [| []]; cbn;
      try destruct (Z.even m1); auto. }
  assert (Hexact : lx = loc_Exact -> mx mod 2 ^ (e1 - ex) = 0 -> mr = m1).
  { intros Hl Hmod. unfold mr. now rewrite (Hex1 Hl Hmod). }
  assert (Hdr : Zdigits2 m1 <= Zdigits2 mr <= Zdigits2 m1 + 1).
  { pose proof (Zdigits2_succ m1 Hm1).
    pose proof (Zdigits2_mono m1 mr ltac:(lia)).
    pose proof (Zdigits2_mono mr (m1 + 1) ltac:(lia)). lia. }
  destruct (Z.le_gt_cases (Zdigits2 mr) prec) as [Hsmall | Hbig].
  - (* no renormalisation *)
    assert (Efx : fexp prec emax (Zdigits2 mr + e1) = e1).
    { change (Z.max (Zdigits2 mr + e1 - prec) (3 - emax - prec) = e1). lia. }
    assert (Es : shr_fexp prec emax mr e1 loc_Exact = (Build_shr_record mr false false, e1)).
    { unfold shr_fexp. cbn [shr_record_of_loc]. apply shr_nonpos. lia. }
    rewrite Es. cbn [shr_m].
    destruct mr as [| m | m] eqn:Emr; [left; split; [reflexivity | lia] | | lia].
    right.
    assert (Hcanon : canonical_mantissa prec emax m e1 = true).
    { unfold canonical_mantissa. apply Z.eqb_eq. cbn [Zdigits2] in Efx. exact Efx. }
    destruct (Z.leb_spec e1 (emax - prec)) as [Hle | Hgt].
    + right. exists m, e1. split; [reflexivity |]. split.
      * unfold bounded. rewrite Hcanon. cbn [andb]. now apply Z.leb_le.
      * rewrite Z.sub_diag, Z.mul_1_r. split; [lia |]. split; [lia |].
        intros Hl Hmod. specialize (Hexact Hl Hmod). lia.
    + left. split; [reflexivity | lia].
  - (* the rounded mantissa reached 2^prec *)
    assert (Hdp1 : Zdigits2 mr = prec + 1) by lia.
    assert (Hdp : Zdigits2 m1 = prec) by lia.
    assert (Hm1pos : 0 < m1) by (destruct m1; cbn in Hdp; lia).
    destruct (Zdigits2_pos_bounds m1 Hm1pos) as (_ & Hlo1 & Hhi1).
    rewrite Hdp in Hlo1, Hhi1.
    assert (Hmrv : mr = 2 ^ prec).
    { destruct Hmr' as [Hm | Hm].
      - rewrite Hm in Hdp1. lia.
      - destruct (Zdigits2_pos_bounds mr ltac:(lia)) as (_ & Hlo & _).
        rewrite Hdp1 in Hlo. replace (prec + 1 - 1) with prec in Hlo by lia. lia. }
    assert (Hne : mr <> m1) by lia.
    assert (Efx : fexp prec emax (Zdigits2 mr + e1) = e1 + 1).
    { change (Z.max (Zdigits2 mr + e1 - prec) (3 - emax - prec) = e1 + 1). lia. }
    destruct (shr_fexp_value mr e1 loc_Exact) as (mrs'' & Eq2 & Ht2 & _);
      [lia | lia |].
    rewrite Eq2. clear Eq2. rewrite Efx in Ht2 |- *.
    replace (e1 + 1 - e1) with 1 in Ht2 by lia.
    assert (Hm2 : shr_m mrs'' = 2 ^ (prec - 1)).
    { rewrite Ht2, Hmrv.
      replace prec with (prec - 1 + 1) at 1 by lia.
      rewrite Z.pow_add_r by lia. now rewrite Z.div_mul by (cbn; lia). }
    assert (Hpp : 0 < 2 ^ (prec - 1)) by (apply Z.pow_pos_nonneg; lia).
    destruct (shr_m mrs'') as [| m | m] eqn:Em2; [lia | | lia].
    right.
    assert (Hdm : Zdigits2 (Zpos m) = prec).
    { rewrite Hm2. replace (2 ^ (prec - 1)) with (1 * 2 ^ (prec - 1)) by lia.
      rewrite Zdigits2_mul_pow2 by lia. change (Zdigits2 1) with 1. lia. }
    destruct (Z.leb_spec (e1 + 1) (emax - prec)) as [Hle | Hgt].
    + right. exists m, (e1 + 1). split; [reflexivity |]. split.
      * unfold bounded, canonical_mantissa. cbn [Zdigits2] in Hdm. rewrite Hdm.
        apply andb_true_intro. split; [| now apply Z.leb_le].
        apply Z.eqb_eq. change (Z.max (prec + (e1 + 1) - prec) (3 - emax - prec) = e1 + 1). lia.
      * split; [lia |].
        replace (e1 + 1 - e1) with 1 by lia.
        assert (Hv : Zpos m * 2 ^ 1 = m1 + 1).
        { rewrite Hm2, <- Z.pow_add_r by lia.
          replace (prec - 1 + 1) with prec by lia. destruct Hmr'; lia. }
        split; [right; lia |].
        intros Hl Hmod. specialize (Hexact Hl Hmod). lia.
    + left. split; [reflexivity | lia].
Qed.

(** A canonical mantissa goes through [binary_round_aux] unchanged. *)
Lemma binary_round_aux_bounded (s : bool) (m : positive) (e : Z) :
  bounded prec emax m e = true ->
  binary_round_aux prec emax s (Zpos m) e loc_Exact = S754_finite s m e.
Proof.
  unfold bounded, canonical_mantissa. intros H.
  apply andb_prop in H. destruct H as [Hc He]. apply Z.eqb_eq in Hc.
  assert (Es : forall l, shr_fexp prec emax (Zpos m) e l = (shr_record_of_loc (Zpos m) l, e)).
  { intros l. unfold shr_fexp. apply shr_nonpos. cbn [Zdigits2]. lia. }
  unfold binary_round_aux. rewrite Es.
  cbn [shr_record_of_loc shr_m loc_of_shr_record round_nearest_even].
  rewrite Es. cbn [shr_record_of_loc shr_m]. now rewrite He.
Qed.

End RoundingValue.

(** *** The accumulator wraps at most once per sample *)

Lemma f_floor_digits (m : positive) (e k : Z) :
  Zpos (digits2_pos m) + e <= k -> 0 <= k ->
  exists fl : Z, f_floor (S754_finite false m e) = Some fl /\ 0 <= fl < 2 ^ k.
Proof.
  intros Hd Hk. rewrite f_floor_finite.
  pose proof (digits_bounds m) as [_ Hhi].
  eexists. split; [reflexivity |].
  destruct (Z.leb_spec 0 e) as [He | He].
  - assert (Hp : 0 < 2 ^ e) by (apply Z.pow_pos_nonneg; lia).
    assert (2 ^ Zpos (digits2_pos m) * 2 ^ e <= 2 ^ k).
    { rewrite <- Z.pow_add_r by lia. apply Z.pow_le_mono_r; lia. }
    nia.
  - assert (Hp : 0 < 2 ^ (- e)) by (apply Z.pow_pos_nonneg; lia).
    assert (2 ^ Zpos (digits2_pos m) <= 2 ^ k * 2 ^ (- e)).
    { rewrite <- Z.pow_add_r by lia. apply Z.pow_le_mono_r; lia. }
    split; [apply Z.div_pos; lia |].
    apply Z.div_lt_upper_bound; lia.
Qed.

(** A number of [[0, 1)] is at most 1 - 2^-24. *)
Lemma unit_range_aligned (m : positive) (e ez : Z) :
  bounded prec32 emax32 m e = true ->
  Zpos (digits2_pos m) + e <= 0 ->
  ez <= e ->
  e <= -24 /\ Zpos m * 2 ^ (e - ez) <= (2 ^ 24 - 1) * 2 ^ (- ez - 24).
Proof.
  intros Hb Hd Hez. destruct (bounded_inv m e Hb) as [Hc _].
  split; [lia |].
  pose proof (digits_bounds m) as [_ Hhi].
  set (P := 2 ^ (- ez - 24)).
  assert (HP : 0 < P) by (apply Z.pow_pos_nonneg; lia).
  assert (Hsh : 0 < 2 ^ (e - ez)) by (apply Z.pow_pos_nonneg; lia).
  destruct (Z.eq_dec (Zpos (digits2_pos m) + e) 0) as [H0 | Hne].
  - assert (e = -24) by lia. subst e.
    replace (-24 - ez) with (- ez - 24) by lia. fold P.
    assert (Zpos (digits2_pos m) = 24) by lia.
    assert (Zpos m < 2 ^ 24) by (rewrite <- H; exact Hhi).
    nia.
  - assert (Hle : 2 ^ Zpos (digits2_pos m) * 2 ^ (e - ez) <= 2 ^ 23 * P).
    { unfold P. rewrite <- !Z.pow_add_r by lia. apply Z.pow_le_mono_r; lia. }
    nia.
Qed.

(** [(int)floor(d_acc)] after [d_acc += d_flt_rate] is 0 or 1. *)
Lemma f32_add_unit_floor (x y : float32) :
  unit_range x -> unit_range y ->
  exists fl : Z, f_floor (f32_add x y) = Some fl /\ 0 <= fl <= 1.
Proof.
  intros Hx Hy.
  destruct x as [sx | sx | | [] mx ex]; cbn [unit_range] in Hx; try tauto;
    destruct y as [sy | sy | | [] my ey]; cbn [unit_range] in Hy; try tauto.
  - exists 0. split; [destruct sx, sy; reflexivity | lia].
  - cbn [f32_add SFadd]. destruct Hy as [_ Hd].
    destruct (f_floor_digits my ey 0 Hd ltac:(lia)) as (fl & -> & Hfl).
    exists fl. split; [reflexivity |]. change (2 ^ 0) with 1 in Hfl. lia.
  - cbn [f32_add SFadd]. destruct Hx as [_ Hd].
    destruct (f_floor_digits mx ex 0 Hd ltac:(lia)) as (fl & -> & Hfl).
    exists fl. split; [reflexivity |]. change (2 ^ 0) with 1 in Hfl. lia.
  - destruct Hx as [Hbx Hdx], Hy as [Hby Hdy].
    unfold f32_add, SFadd. cbn [cond_Zopp].
    set (ez := Z.min ex ey).
    pose proof (shl_align_spec mx ex ez) as Hax.
    pose proof (shl_align_spec my ey ez) as Hay.
    destruct (shl_align mx ex ez) as [ax ezx].
    destruct (shl_align my ey ez) as [ay ezy].
    destruct Hax as [Hezx Hax], Hay as [Hezy Hay]. cbn [fst].
    replace ezx with ez in Hax by (unfold ez in *; lia).
    replace ezy with ez in Hay by (unfold ez in *; lia).
    change (Zpos ax + Zpos ay) with (Zpos (ax + ay)).
    cbn [binary_normalize].
    destruct (unit_range_aligned mx ex ez Hbx Hdx ltac:(unfold ez; lia)) as [Hex Hbx'].
    destruct (unit_range_aligned my ey ez Hby Hdy ltac:(unfold ez; lia)) as [Hey Hby'].
    assert (Hez : ez <= -24) by (unfold ez; lia).
    set (P := 2 ^ (- ez - 24)) in *.
    assert (HP : 0 < P) by (apply Z.pow_pos_nonneg; lia).
    assert (HM : Zpos (ax + ay) <= (2 ^ 24 - 1) * (2 * P)).
    { rewrite Pos2Z.inj_add. lia. }
    assert (H2P : 2 * P = 2 ^ (- 23 - ez)).
    { unfold P. rewrite <- Z.pow_succ_r by lia. f_equal. lia. }
    assert (Hsum : Zpos (digits2_pos (ax + ay)) + ez <= 1).
    { assert (Zdigits2 (Zpos (ax + ay)) <= 1 - ez); [| cbn [Zdigits2] in *; lia].
      apply Zdigits2_le; [| lia].
      replace (1 - ez) with (24 + (- 23 - ez)) by lia.
      rewrite Z.pow_add_r, <- H2P by lia. lia. }
    destruct (Z.le_gt_cases (Zpos (digits2_pos (ax + ay)) + ez) 0) as [Hlow | Hhigh].
    + (* the sum lies below 1 *)
      destruct (binary_round_structure false (ax + ay) ez)
        as [Hz | [[Hz Hbig] | (m & e & Hz & Hb & Hd)]].
      * rewrite Hz. exists 0. split; [reflexivity | lia].
      * lia.
      * rewrite Hz.
        destruct (f_floor_digits m e 1 ltac:(lia) ltac:(lia)) as (fl & -> & Hfl).
        exists fl. split; [reflexivity |]. change (2 ^ 1) with 2 in Hfl. lia.
    + (* the sum lies in [1, 2) *)
      assert (Hd1 : Zpos (digits2_pos (ax + ay)) + ez = 1) by lia.
      unfold binary_round. rewrite Hd1.
      change (fexp prec32 emax32 1) with (-23).
      assert (Es : shl_align (ax + ay) ez (-23) = ((ax + ay)%positive, ez)).
      { unfold shl_align. destruct (-23 - ez) eqn:Ed; try reflexivity. lia. }
      rewrite Es.
      destruct (binary_round_aux_value prec32 emax32 ltac:(reflexivity) false
                  (Zpos (ax + ay)) ez loc_Exact ltac:(lia))
        as [Hz | [[Hz Hbig] | (m & e & Hz & Hb & Hge & Hval & Hexact)]].
      * cbn [Zdigits2]. rewrite Hd1. change (fexp prec32 emax32 1) with (-23). lia.
      * destruct Hz as [Hz _]. rewrite Hz. exists 0. split; [reflexivity | lia].
      * cbn [Zdigits2] in Hbig. rewrite Hd1 in Hbig.
        change (fexp prec32 emax32 1) with (-23) in Hbig.
        unfold emax32, prec32 in Hbig. lia.
      * cbn [Zdigits2] in Hge, Hval, Hexact. rewrite Hd1 in Hge, Hval, Hexact.
        change (fexp prec32 emax32 1) with (-23) in Hge, Hval, Hexact.
        rewrite Hz.
        assert (Hn : 0 < 2 ^ (-23 - ez)) by (apply Z.pow_pos_nonneg; lia).
        set (n2 := 2 ^ (-23 - ez)) in *.
        assert (Hq : Zpos m * 2 ^ (e - -23) <= 2 ^ 24 - 1).
        { pose proof (Z.div_mod (Zpos (ax + ay)) n2 ltac:(lia)) as Hdm.
          pose proof (Z.mod_pos_bound (Zpos (ax + ay)) n2 Hn) as Hr.
          destruct (Z.eq_dec (Zpos (ax + ay) mod n2) 0) as [H0 | Hne].
          - rewrite (Hexact eq_refl H0).
            apply Z.div_le_upper_bound; [lia |]. rewrite Z.mul_comm. lia.
          - assert (Zpos (ax + ay) / n2 < 2 ^ 24 - 1).
            { apply Z.div_lt_upper_bound; [lia |].
              assert (Zpos (ax + ay) <> (2 ^ 24 - 1) * n2).
              { intros Heq. apply Hne. rewrite Heq. apply Z.mod_mul. lia. }
              rewrite Z.mul_comm. lia. }
            destruct Hval as [-> | ->]; lia. }
        rewrite f_floor_finite. eexists. split; [reflexivity |].
        assert (Hsh : 0 < 2 ^ (e - -23)) by (apply Z.pow_pos_nonneg; lia).
        destruct (Z.leb_spec 0 e) as [He | He].
        -- assert (E2 : 2 ^ (e - -23) = 2 ^ e * 2 ^ 23).
           { rewrite <- Z.pow_add_r by lia. f_equal; lia. }
           assert (0 < 2 ^ e) by (apply Z.pow_pos_nonneg; lia).
           change (2 ^ 24) with 16777216 in *. change (2 ^ 23) with 8388608 in *.
           nia.
        -- assert (Hp : 0 < 2 ^ (- e)) by (apply Z.pow_pos_nonneg; lia).
           assert (E2 : 2 ^ (e - -23) * 2 ^ (- e) = 2 ^ 23).
           { rewrite <- Z.pow_add_r by lia. f_equal; lia. }
           split; [apply Z.div_pos; lia |].
           assert (Zpos m / 2 ^ (- e) < 2); [| lia].
           apply Z.div_lt_upper_bound; [lia |].
           change (2 ^ 24) with 16777216 in *. change (2 ^ 23) with 8388608 in *.
           nia.
Qed.

(** ** What a completed call of [filter] has done *)

Lemma int_add_Ok (a b s : Z) : int_add a b = Ok s -> s = a + b /\ a + b <= INT_MAX.
Proof.
  unfold int_add.
  destruct (Z.leb_spec INT_MIN (a + b)); cbn [andb]; [| discriminate].
  destruct (Z.leb_spec (a + b) INT_MAX); [| discriminate].
  intros [= <-]. split; [reflexivity | assumption].
Qed.

Section FilterRun.

Variable fir : list float32 -> (Z -> complex) -> Z -> complex.
Variable r : resampler.
Variable input : Z -> complex.
Variable nitems : Z.

Hypothesis Hflt : unit_range (d_flt_rate r).
Hypothesis Hdec : 0 <= d_dec_rate r.
Hypothesis Hwrap : d_int_rate r + d_dec_rate r < INT_MAX.

(** One run of the inner loop: the samples stored, the advance of the
    filter index (the decimation step per sample, plus one for each wrap of
    the accumulator), the offsets handed to the FIR filters. *)
Lemma inner_loop_run (fuel : nat) :
  forall s s' : loop_state,
    inner_loop fir r input fuel s = Ok s' ->
    0 <= ls_j s ->
    unit_range (ls_acc s) ->
    exists w : Z,
      0 <= w <= ls_i s' - ls_i s
      /\ ls_j s' = ls_j s + (ls_i s' - ls_i s) * d_dec_rate r + w
      /\ ls_count s' = ls_count s
      /\ d_int_rate r <= ls_j s'
      /\ (ls_j s < d_int_rate r ->
          ls_j s' <= d_int_rate r + d_dec_rate r /\ ls_i s < ls_i s')
      /\ (d_int_rate r <= ls_j s -> s' = s)
      /\ unit_range (ls_acc s')
      /\ size (ls_out s') = size (ls_out s) + (ls_i s' - ls_i s)
      /\ ls_reads s'
         = ls_reads s ++ repeat (ls_count s) (Z.to_nat (ls_i s' - ls_i s))
      /\ (d_int_rate r <= d_dec_rate r -> ls_j s < d_int_rate r ->
          ls_i s' = ls_i s + 1)
      /\ (d_flt_rate r = S754_zero false -> ls_acc s = S754_zero false ->
          w = 0 /\ ls_acc s' = S754_zero false).
Proof.
  induction fuel as [| fuel IH]; intros s s' Hrun Hj Hacc.
  - cbn [inner_loop] in Hrun.
    destruct (Z.ltb_spec (ls_j s) (d_int_rate r)); [discriminate |].
    injection Hrun as <-. exists 0.
    rewrite Z.sub_diag, app_nil_r.
    repeat split; try lia; try assumption; try reflexivity.
  - rewrite inner_loop_S in Hrun.
    destruct (Z.ltb_spec (ls_j s) (d_int_rate r)) as [Hlt | Hge].
    2:{ injection Hrun as <-. exists 0.
        rewrite Z.sub_diag, app_nil_r.
        repeat split; try lia; try assumption; try reflexivity. }
    destruct (read (d_filters r) (ls_j s)) as [f0 | | |]; cbn [bind] in Hrun;
      try discriminate.
    destruct (read (d_diff_filters r) (ls_j s)) as [f1 | | |]; cbn [bind] in Hrun;
      try discriminate.
    destruct (int_add (ls_i s) 1) as [i1 | | |] eqn:Ei; cbn [bind] in Hrun;
      try discriminate.
    apply int_add_Ok in Ei. destruct Ei as [-> Himax].
    destruct (f32_add_unit_floor _ _ Hacc Hflt) as (fl & Efl & Hfl).
    rewrite Efl in Hrun.
    assert (Ecast : cast_int (Some fl) = Ok fl).
    { unfold cast_int, INT_MIN, INT_MAX.
      destruct (Z.leb_spec (- 2 ^ 31) fl); [| lia].
      destruct (Z.leb_spec fl (2 ^ 31 - 1)); [reflexivity | lia]. }
    rewrite Ecast in Hrun. cbn [bind] in Hrun.
    assert (Ej : uint (ls_j s + uint (d_dec_rate r + uint fl))
                 = ls_j s + d_dec_rate r + fl).
    { unfold uint, UINT_MOD, INT_MAX in *.
      rewrite (Z.mod_small fl) by lia.
      rewrite (Z.mod_small (d_dec_rate r + fl)) by lia.
      rewrite Z.mod_small by lia. lia. }
    rewrite Ej in Hrun.
    set (y := c_add _ _) in Hrun.
    set (s1 := mk_loop_state _ _ _ _ _ _) in Hrun.
    assert (Hacc1 : unit_range (ls_acc s1)).
    { subst s1. cbn [ls_acc]. apply fmodf1_below_four. now apply f32_add_unit_range. }
    destruct (IH s1 s' Hrun ltac:(subst s1; cbn [ls_j]; lia) Hacc1)
      as (w & Hw & Hjs & Hcount & HjN & Hstep & Hstay & Hacc' & Hlen
          & Hreads & Hone & Hzero).
    subst s1. cbn [ls_j ls_i ls_acc ls_count ls_out ls_reads] in *.
    exists (w + fl).
    split; [lia |].
    split; [lia |].
    split; [exact Hcount |].
    split; [exact HjN |].
    split.
    { intros _.
      destruct (Z.le_gt_cases (d_int_rate r) (ls_j s + d_dec_rate r + fl)) as [Hout | Hin].
      - rewrite (Hstay Hout). cbn [ls_j ls_i]. lia.
      - destruct (Hstep Hin). lia. }
    split; [intros; lia |].
    split; [exact Hacc' |].
    assert (Hsz : size (ls_out s') = size (ls_out s) + (ls_i s' - ls_i s)).
    { rewrite Hlen, size_app. change (size [y]) with 1. lia. }
    split; [exact Hsz |].
    split.
    { rewrite Hreads, <- app_assoc. f_equal.
      replace (Z.to_nat (ls_i s' - ls_i s))
        with (S (Z.to_nat (ls_i s' - (ls_i s + 1)))) by lia.
      cbn [repeat app]. reflexivity. }
    split.
    { intros HNdec _.
      assert (Hout : d_int_rate r <= ls_j s + d_dec_rate r + fl) by lia.
      rewrite (Hstay Hout). reflexivity. }
    intros Hf Ha. rewrite Ha, Hf in Efl, Hzero.
    change (f32_add (S754_zero false) (S754_zero false)) with (S754_zero false)
      in Efl, Hzero.
    assert (fl = 0) by (cbn in Efl; congruence).
    destruct (Hzero eq_refl eq_refl) as [-> Hacc0].
    split; [lia | exact Hacc0].
Qed.

(** The loop of [filter], from any state it passes through. *)
Lemma outer_loop_run (fuel : nat) :
  forall s s' : loop_state,
    outer_loop fir r input nitems fuel s = Ok s' ->
    0 <= ls_j s < d_int_rate r ->
    unit_range (ls_acc s) ->
    0 <= ls_count s ->
    Forall (fun c : Z => 0 <= c <= ls_count s) (ls_reads s) ->
    exists w : Z,
      0 <= w <= ls_i s' - ls_i s
      /\ d_int_rate r * ls_count s' + ls_j s'
         = d_int_rate r * ls_count s + ls_j s + (ls_i s' - ls_i s) * d_dec_rate r + w
      /\ 0 <= ls_j s' < d_int_rate r
      /\ unit_range (ls_acc s')
      /\ ls_count s <= ls_count s'
      /\ (ls_i s < nitems -> nitems <= ls_i s')
      /\ (nitems <= ls_i s -> s' = s)
      /\ size (ls_out s') = size (ls_out s) + (ls_i s' - ls_i s)
      /\ size (ls_reads s') = size (ls_reads s) + (ls_i s' - ls_i s)
      /\ Forall (fun c : Z => 0 <= c <= ls_count s') (ls_reads s')
      /\ (d_int_rate r <= d_dec_rate r -> ls_i s <= nitems -> ls_i s' = nitems)
      /\ (d_flt_rate r = S754_zero false -> ls_acc s = S754_zero false ->
          w = 0 /\ ls_acc s' = S754_zero false).
Proof.
  induction fuel as [| fuel IH]; intros s s' Hrun Hj Hacc Hc Hreads.
  - cbn [outer_loop] in Hrun.
    destruct (Z.ltb_spec (ls_i s) nitems); [discriminate |].
    injection Hrun as <-. exists 0. rewrite Z.sub_diag.
    repeat split; try lia; try assumption; try reflexivity.
  - rewrite outer_loop_S in Hrun.
    destruct (Z.ltb_spec (ls_i s) nitems) as [Hlt | Hge].
    2:{ injection Hrun as <-. exists 0. rewrite Z.sub_diag.
        repeat split; try lia; try assumption; try reflexivity. }
    destruct (inner_loop fir r input (S fuel) s) as [s1 | | |] eqn:Einner;
      cbn [bind] in Hrun; try discriminate.
    destruct (inner_loop_run _ _ _ Einner ltac:(lia) Hacc)
      as (w1 & Hw1 & Hj1 & Hcount1 & HjN1 & Hstep1 & _ & Hacc1 & Hlen1
          & Hreads1 & Hone1 & Hzero1).
    destruct (Hstep1 ltac:(lia)) as [Hj1max Hprog].
    destruct (Z.eqb_spec (d_int_rate r) 0) as [H0 | HN0]; [discriminate |].
    assert (HN : 0 < d_int_rate r) by lia.
    assert (Hq : 0 <= ls_j s1 / d_int_rate r <= INT_MAX).
    { split; [apply Z.div_pos; lia |].
      assert (ls_j s1 / d_int_rate r <= ls_j s1); [| lia].
      apply Z.div_le_upper_bound; [lia |]. nia. }
    assert (Eq : int_of_uint (ls_j s1 / d_int_rate r) = ls_j s1 / d_int_rate r).
    { unfold int_of_uint.
      destruct (Z.leb_spec (ls_j s1 / d_int_rate r) INT_MAX); [reflexivity | lia]. }
    rewrite Eq in Hrun.
    destruct (int_add (ls_count s1) _) as [c2 | | |] eqn:Ec; cbn [bind] in Hrun;
      try discriminate.
    apply int_add_Ok in Ec. destruct Ec as [-> _].
    set (s2 := mk_loop_state _ _ _ _ _ _) in Hrun.
    pose proof (Z.div_mod (ls_j s1) (d_int_rate r) ltac:(lia)) as Hdm.
    pose proof (Z.mod_pos_bound (ls_j s1) (d_int_rate r) HN) as Hmod.
    assert (Hreads2 : Forall (fun c : Z => 0 <= c <= ls_count s2) (ls_reads s2)).
    { subst s2. cbn [ls_count ls_reads]. rewrite Hreads1, Hcount1.
      apply Forall_app. split.
      - eapply Forall_impl; [| exact Hreads]. cbn beta. intros; lia.
      - apply Forall_forall. intros c Hin. apply repeat_spec in Hin. lia. }
    destruct (IH s2 s' Hrun ltac:(subst s2; cbn [ls_j]; lia)
                ltac:(subst s2; exact Hacc1)
                ltac:(subst s2; cbn [ls_count]; lia) Hreads2)
      as (w & Hw & Hlaw & Hj' & Hacc' & Hc' & Hgo & Hstay & Hlen & Hrlen & Hr'
          & Hdecim & Hzero).
    subst s2. cbn [ls_j ls_i ls_acc ls_count ls_out ls_reads] in *.
    exists (w + w1).
    split; [lia |].
    split; [nia |].
    split; [exact Hj' |].
    split; [exact Hacc' |].
    split; [lia |].
    split.
    { intros _. destruct (Z.le_gt_cases nitems (ls_i s1)) as [Hout | Hin].
      - rewrite (Hstay Hout). cbn [ls_i]. exact Hout.
      - exact (Hgo Hin). }
    split; [intros; lia |].
    split; [lia |].
    split.
    { rewrite Hrlen, Hreads1, size_app. unfold size at 2.
      rewrite repeat_length. lia. }
    split; [exact Hr' |].
    split.
    { intros HNdec _. apply Hdecim; [exact HNdec |].
      rewrite (Hone1 HNdec ltac:(lia)). lia. }
    intros Hf Ha. destruct (Hzero1 Hf Ha) as [-> Ha1].
    destruct (Hzero Hf Ha1) as [-> Ha']. split; [lia | exact Ha'].
Qed.

End FilterRun.

(** ** Calls of [filter] in sequence *)

Lemma inner_loop_fuel_mono
    (fir : list float32 -> (Z -> complex) -> Z -> complex)
    (r : resampler) (input : Z -> complex) (fuel : nat) :
  forall (fuel' : nat) (s s' : loop_state),
    inner_loop fir r input fuel s = Ok s' ->
    (fuel <= fuel')%nat ->
    inner_loop fir r input fuel' s = Ok s'.
Proof.
  induction fuel as [| fuel IH]; intros fuel' s s' Hrun Hle.
  - cbn [inner_loop] in Hrun.
    destruct (Z.ltb_spec (ls_j s) (d_int_rate r)); [discriminate |].
    injection Hrun as <-. now apply inner_loop_done.
  - destruct fuel' as [| fuel']; [lia |].
    rewrite inner_loop_S in Hrun |- *.
    destruct (ls_j s <? d_int_rate r); [| exact Hrun].
    destruct (read (d_filters r) (ls_j s)); cbn [bind] in *; try discriminate.
    destruct (read (d_diff_filters r) (ls_j s)); cbn [bind] in *; try discriminate.
    destruct (int_add (ls_i s) 1); cbn [bind] in *; try discriminate.
    destruct (cast_int _); cbn [bind] in *; try discriminate.
    apply IH; [exact Hrun | lia].
Qed.

Lemma outer_loop_fuel_mono
    (fir : list float32 -> (Z -> complex) -> Z -> complex)
    (r : resampler) (input : Z -> complex) (nitems : Z) (fuel : nat) :
  forall (fuel' : nat) (s s' : loop_state),
    outer_loop fir r input nitems fuel s = Ok s' ->
    (fuel <= fuel')%nat ->
    outer_loop fir r input nitems fuel' s = Ok s'.
Proof.
  induction fuel as [| fuel IH]; intros fuel' s s' Hrun Hle.
  - cbn [outer_loop] in Hrun.
    destruct (Z.ltb_spec (ls_i s) nitems) as [Hlt | Hge]; [discriminate |].
    injection Hrun as <-.
    destruct fuel'; cbn [outer_loop];
      destruct (Z.ltb_spec (ls_i s) nitems); (reflexivity || lia).
  - destruct fuel' as [| fuel']; [lia |].
    rewrite outer_loop_S in Hrun |- *.
    destruct (ls_i s <? nitems); [| exact Hrun].
    destruct (inner_loop fir r input (S fuel) s) as [s1 | | |] eqn:Einner;
      cbn [bind] in Hrun; try discriminate.
    rewrite (inner_loop_fuel_mono fir r input (S fuel) (S fuel') s s1 Einner)
      by lia.
    cbn [bind].
    destruct (d_int_rate r =? 0); [discriminate |].
    destruct (int_add (ls_count s1) _); cbn [bind] in *; try discriminate.
    apply IH; [exact Hrun | lia].
Qed.

(** The loops read the banks and the rates of the engine, not its saved
    index and accumulator. *)
Lemma outer_loop_saved_state
    (fir : list float32 -> (Z -> complex) -> Z -> complex)
    (r : resampler) (input : Z -> complex) (nitems : Z) (a : float32) (j : Z)
    (fuel : nat) (s : loop_state) :
  outer_loop fir (with_last_filter (with_acc r a) j) input nitems fuel s
  = outer_loop fir r input nitems fuel s.
Proof. reflexivity. Qed.

Section FilterSplit.

Variable fir : list float32 -> (Z -> complex) -> Z -> complex.

(** The FIR filters read their input relative to the pointer they are
    given. *)
Hypothesis Hfir :
  forall (taps : list float32) (inp : Z -> complex) (c k : Z),
    fir taps (fun n : Z => inp (c + n)) k = fir taps inp (c + k).

Variable r : resampler.
Variable input : Z -> complex.

Hypothesis Hflt : unit_range (d_flt_rate r).
Hypothesis Hdec : 0 <= d_dec_rate r.
Hypothesis Hwrap : d_int_rate r + d_dec_rate r < INT_MAX.

Variables c1 n1 : Z.
Variable pre : list complex.
Variable preR : list Z.

Hypothesis Hc1 : 0 <= c1.
Hypothesis Hn1 : 0 <= n1.

(** A state of the loop started afresh on the input advanced by [c1],
    against the state of the loop that has gone on from sample [n1]. *)
Lemma inner_loop_shift (fuel : nat) :
  forall s t s' : loop_state,
    ls_i s = n1 + ls_i t -> ls_count s = c1 + ls_count t ->
    ls_j s = ls_j t -> ls_acc s = ls_acc t ->
    ls_out s = pre ++ ls_out t ->
    ls_reads s = preR ++ map (Z.add c1) (ls_reads t) ->
    0 <= ls_i t ->
    inner_loop fir r input fuel s = Ok s' ->
    exists t' : loop_state,
      inner_loop fir r (fun n : Z => input (c1 + n)) fuel t = Ok t'
      /\ ls_i s' = n1 + ls_i t' /\ ls_count s' = c1 + ls_count t'
      /\ ls_j s' = ls_j t' /\ ls_acc s' = ls_acc t'
      /\ ls_out s' = pre ++ ls_out t'
      /\ ls_reads s' = preR ++ map (Z.add c1) (ls_reads t')
      /\ 0 <= ls_i t'.
Proof.
  induction fuel as [| fuel IH]; intros s t s' Hi Hc Hj Ha Ho Hr Hit Hrun.
  - cbn [inner_loop] in Hrun |- *. rewrite <- Hj.
    destruct (ls_j s <? d_int_rate r); [discriminate |].
    injection Hrun as <-. exists t. repeat split; assumption.
  - rewrite inner_loop_S in Hrun |- *. rewrite <- Hj, <- Ha.
    destruct (ls_j s <? d_int_rate r).
    2:{ injection Hrun as <-. exists t. repeat split; assumption. }
    destruct (read (d_filters r) (ls_j s)) as [f0 | | |]; cbn [bind] in *;
      try discriminate.
    destruct (read (d_diff_filters r) (ls_j s)) as [f1 | | |]; cbn [bind] in *;
      try discriminate.
    destruct (int_add (ls_i s) 1) as [i1 | | |] eqn:Ei; cbn [bind] in Hrun;
      try discriminate.
    apply int_add_Ok in Ei. destruct Ei as [-> Himax].
    assert (Eit : int_add (ls_i t) 1 = Ok (ls_i t + 1)).
    { unfold int_add, INT_MIN, INT_MAX in *.
      destruct (Z.leb_spec (- 2 ^ 31) (ls_i t + 1)); [| lia].
      destruct (Z.leb_spec (ls_i t + 1) (2 ^ 31 - 1)); [reflexivity | lia]. }
    rewrite Eit. cbn [bind].
    destruct (cast_int _) as [fl | | |]; cbn [bind] in *; try discriminate.
    rewrite !Hfir, <- Hc.
    refine (IH _ _ _ _ _ _ _ _ _ _ Hrun);
      cbn [ls_i ls_count ls_j ls_acc ls_out ls_reads];
      try reflexivity; try lia.
    + now rewrite Ho, app_assoc.
    + rewrite Hr, map_app, app_assoc. cbn [map]. now rewrite Hc.
Qed.

Variable nitems : Z.

Lemma outer_loop_shift (fuel : nat) :
  forall s t s' : loop_state,
    ls_i s = n1 + ls_i t -> ls_count s = c1 + ls_count t ->
    ls_j s = ls_j t -> ls_acc s = ls_acc t ->
    ls_out s = pre ++ ls_out t ->
    ls_reads s = preR ++ map (Z.add c1) (ls_reads t) ->
    0 <= ls_i t -> 0 <= ls_count t ->
    0 <= ls_j s < d_int_rate r -> unit_range (ls_acc s) ->
    outer_loop fir r input nitems fuel s = Ok s' ->
    exists t' : loop_state,
      outer_loop fir r (fun n : Z => input (c1 + n)) (nitems - n1) fuel t = Ok t'
      /\ ls_i s' = n1 + ls_i t' /\ ls_count s' = c1 + ls_count t'
      /\ ls_j s' = ls_j t' /\ ls_acc s' = ls_acc t'
      /\ ls_out s' = pre ++ ls_out t'
      /\ ls_reads s' = preR ++ map (Z.add c1) (ls_reads t').
Proof.
  induction fuel as [| fuel IH];
    intros s t s' Hi Hc Hj Ha Ho Hr Hit Hct Hjs Has Hrun.
  - cbn [outer_loop] in Hrun |- *.
    destruct (Z.ltb_spec (ls_i s) nitems); [discriminate |].
    destruct (Z.ltb_spec (ls_i t) (nitems - n1)); [lia |].
    injection Hrun as <-. exists t. repeat split; assumption.
  - rewrite outer_loop_S in Hrun |- *.
    destruct (Z.ltb_spec (ls_i s) nitems);
      destruct (Z.ltb_spec (ls_i t) (nitems - n1)); try lia.
    2:{ injection Hrun as <-. exists t. repeat split; assumption. }
    destruct (inner_loop fir r input (S fuel) s) as [s1 | | |] eqn:Einner;
      cbn [bind] in Hrun; try discriminate.
    destruct (inner_loop_shift _ _ _ _ Hi Hc Hj Ha Ho Hr Hit Einner)
      as (t1 & Et1 & Hi1 & Hc1' & Hj1 & Ha1 & Ho1 & Hr1 & Hit1).
    rewrite Et1. cbn [bind].
    destruct (inner_loop_run fir r input Hflt Hdec Hwrap _ _ _ Einner
                ltac:(lia) Has)
      as (w1 & _ & _ & Hcount1 & HjN1 & Hstep1 & _ & Hacc1 & _).
    destruct (Hstep1 ltac:(lia)) as [Hj1max _].
    destruct (Z.eqb_spec (d_int_rate r) 0) as [HNz | HN0]; [discriminate |].
    assert (HN : 0 < d_int_rate r) by lia.
    assert (Hq : 0 <= ls_j s1 / d_int_rate r <= INT_MAX).
    { split; [apply Z.div_pos; lia |].
      assert (ls_j s1 / d_int_rate r <= ls_j s1); [| lia].
      apply Z.div_le_upper_bound; [lia |]. nia. }
    assert (Eq : int_of_uint (ls_j s1 / d_int_rate r) = ls_j s1 / d_int_rate r).
    { unfold int_of_uint.
      destruct (Z.leb_spec (ls_j s1 / d_int_rate r) INT_MAX); [reflexivity | lia]. }
    rewrite <- Hj1. rewrite Eq in Hrun |- *.
    destruct (int_add (ls_count s1) _) as [c2 | | |] eqn:Ec; cbn [bind] in Hrun;
      try discriminate.
    apply int_add_Ok in Ec. destruct Ec as [-> Hcmax].
    assert (Hct1 : 0 <= ls_count t1) by lia.
    assert (Ect : int_add (ls_count t1) (ls_j s1 / d_int_rate r)
                  = Ok (ls_count t1 + ls_j s1 / d_int_rate r)).
    { unfold int_add, INT_MIN, INT_MAX in *.
      destruct (Z.leb_spec (- 2 ^ 31) (ls_count t1 + ls_j s1 / d_int_rate r)); [| lia].
      destruct (Z.leb_spec (ls_count t1 + ls_j s1 / d_int_rate r) (2 ^ 31 - 1));
        [reflexivity | lia]. }
    rewrite Ect. cbn [bind].
    refine (IH _ _ _ _ _ _ _ _ _ _ _ _ _ Hrun);
      cbn [ls_i ls_count ls_j ls_acc ls_out ls_reads];
      try assumption; try lia.
    apply Z.mod_pos_bound. lia.
Qed.

(** When every sample leaves the inner loop ([d_int_rate <= d_dec_rate]),
    the loop for [nitems] samples passes through the final state of the
    loop for [n1 <= nitems] samples. *)
Lemma outer_loop_prefix (fuel : nat) :
  d_int_rate r <= d_dec_rate r ->
  forall s s' : loop_state,
    outer_loop fir r input nitems fuel s = Ok s' ->
    ls_i s <= n1 <= nitems ->
    0 <= ls_j s < d_int_rate r -> unit_range (ls_acc s) -> 0 <= ls_count s ->
    exists (sm : loop_state) (fuel' : nat),
      outer_loop fir r input n1 fuel s = Ok sm
      /\ ls_i sm = n1
      /\ (fuel' <= fuel)%nat
      /\ outer_loop fir r input nitems fuel' sm = Ok s'
      /\ 0 <= ls_j sm < d_int_rate r /\ unit_range (ls_acc sm)
      /\ 0 <= ls_count sm.
Proof.
  intros HNdec. induction fuel as [| fuel IH]; intros s s' Hrun Hi Hj Ha Hc.
  - cbn [outer_loop] in Hrun |- *.
    destruct (Z.ltb_spec (ls_i s) nitems); [discriminate |].
    destruct (Z.ltb_spec (ls_i s) n1); [lia |].
    exists s, O. cbn [outer_loop].
    destruct (Z.ltb_spec (ls_i s) nitems); [lia |].
    repeat split; try assumption; try lia.
  - destruct (Z.eq_dec (ls_i s) n1) as [Heq | Hne].
    { exists s, (S fuel). split.
      - rewrite outer_loop_S. destruct (Z.ltb_spec (ls_i s) n1); [lia | reflexivity].
      - repeat split; try assumption; try lia. }
    rewrite outer_loop_S in Hrun. rewrite outer_loop_S.
    destruct (Z.ltb_spec (ls_i s) nitems); [| lia].
    destruct (Z.ltb_spec (ls_i s) n1); [| lia].
    destruct (inner_loop fir r input (S fuel) s) as [s1 | | |] eqn:Einner;
      cbn [bind] in Hrun |- *; try discriminate.
    destruct (inner_loop_run fir r input Hflt Hdec Hwrap _ _ _ Einner
                ltac:(lia) Ha)
      as (w1 & _ & _ & Hcount1 & HjN1 & Hstep1 & _ & Hacc1 & _ & _ & Hone1 & _).
    destruct (Hstep1 ltac:(lia)) as [Hj1max _].
    specialize (Hone1 HNdec ltac:(lia)).
    destruct (Z.eqb_spec (d_int_rate r) 0) as [HNz | HN0]; [discriminate |].
    assert (HN : 0 < d_int_rate r) by lia.
    assert (Hq : 0 <= ls_j s1 / d_int_rate r <= INT_MAX).
    { split; [apply Z.div_pos; lia |].
      assert (ls_j s1 / d_int_rate r <= ls_j s1); [| lia].
      apply Z.div_le_upper_bound; [lia |]. nia. }
    assert (Eq : int_of_uint (ls_j s1 / d_int_rate r) = ls_j s1 / d_int_rate r).
    { unfold int_of_uint.
      destruct (Z.leb_spec (ls_j s1 / d_int_rate r) INT_MAX); [reflexivity | lia]. }
    rewrite Eq in Hrun |- *.
    destruct (int_add (ls_count s1) _) as [c2 | | |] eqn:Ec; cbn [bind] in Hrun |- *;
      try discriminate.
    apply int_add_Ok in Ec. destruct Ec as [-> Hcmax].
    destruct (IH _ _ Hrun) as (sm & fuel' & Hm & Him & Hf & Hrest & Hjm & Ham & Hcm);
      cbn [ls_i ls_count ls_j ls_acc]; try assumption; try lia.
    { apply Z.mod_pos_bound. lia. }
    exists sm, fuel'. repeat split; try assumption; try lia.
Qed.

End FilterSplit.

(** X11.  Whenever its loops terminate, [filter] has advanced the filter
    index by the decimation step for every sample it stores, plus one for every wrap of the accumulator, and what
    leaves the bank moves the input cursor: with N filters,
    N * count + index grows by (samples stored) * d_dec_rate + wraps, with
    at most one wrap per sample.  Every sample is computed at one input
    offset, between 0 and the final cursor. *)
Theorem filter_index_advance
    (fir : list float32 -> (Z -> complex) -> Z -> complex)
    (r : resampler) (input : Z -> complex) (nitems : Z) (fuel : nat)
    (fr : filter_result) :
  filter_body fir r input nitems fuel = Ok fr ->
  state_invariant r ->
  unit_range (d_flt_rate r) ->
  0 <= d_dec_rate r ->
  d_int_rate r + d_dec_rate r < INT_MAX ->
  exists wraps : Z,
    0 <= wraps <= size (fr_written fr)
    /\ d_int_rate r * fr_count fr + d_last_filter (fr_engine fr)
       = d_last_filter r + size (fr_written fr) * d_dec_rate r + wraps
    /\ size (fr_reads fr) = size (fr_written fr)
    /\ Forall (fun c : Z => 0 <= c <= fr_count fr) (fr_reads fr).
Proof.
  unfold filter_body. intros Hrun [Hidx Hacc] Hflt Hdec Hwrap.
  destruct (outer_loop fir r input nitems fuel _) as [s | | |] eqn:Eouter;
    cbn [bind] in Hrun; try discriminate.
  injection Hrun as <-. cbn [fr_written fr_reads fr_count fr_engine].
  destruct (outer_loop_run fir r input nitems Hflt Hdec Hwrap _ _ _ Eouter)
    as (w & Hw & Hlaw & _ & _ & _ & _ & _ & Hlen & Hrlen & Hreads & _);
    cbn [ls_j ls_acc ls_count ls_reads ls_i ls_out] in *;
    try assumption; try lia; try apply Forall_nil.
  change (size []) with 0 in Hlen, Hrlen.
  exists w. cbn [with_last_filter d_last_filter].
  repeat split; try lia; try assumption.
Qed.

Lemma filter_index_advance_witness :
  state_invariant decim
  /\ exists fr : filter_result,
       filter_body fir_dot decim ramp 3 3 = Ok fr
       /\ exists wraps : Z,
            0 <= wraps <= size (fr_written fr)
            /\ d_int_rate decim * fr_count fr + d_last_filter (fr_engine fr)
               = d_last_filter decim + size (fr_written fr) * d_dec_rate decim + wraps
            /\ size (fr_reads fr) = size (fr_written fr)
            /\ Forall (fun c : Z => 0 <= c <= fr_count fr) (fr_reads fr).
Proof.
  assert (Hinv : state_invariant decim) by (vm_compute; intuition discriminate).
  split; [exact Hinv |].
  eexists. split; [vm_compute; reflexivity |].
  apply (filter_index_advance fir_dot decim ramp 3 3).
  - vm_compute. reflexivity.
  - exact Hinv.
  - vm_compute. split; [reflexivity | discriminate].
  - vm_compute. discriminate.
  - vm_compute. reflexivity.
Defined.

(** X12.  Rational resampling: with a zero fractional rate and the accumulator
    at zero (as the constructor leaves it), and N + [d_dec_rate] below
    [INT_MAX], the statements of [filter], when they run to the end of the
    function, leave the accumulator at zero and advance the filter index
    by exactly [d_dec_rate] per sample stored. *)
Theorem filter_rational_exact
    (fir : list float32 -> (Z -> complex) -> Z -> complex)
    (r : resampler) (input : Z -> complex) (nitems : Z) (fuel : nat)
    (fr : filter_result) :
  filter_body fir r input nitems fuel = Ok fr ->
  index_in_range r ->
  d_flt_rate r = S754_zero false ->
  d_acc r = S754_zero false ->
  0 <= d_dec_rate r ->
  d_int_rate r + d_dec_rate r < INT_MAX ->
  d_acc (fr_engine fr) = S754_zero false
  /\ d_int_rate r * fr_count fr + d_last_filter (fr_engine fr)
     = d_last_filter r + size (fr_written fr) * d_dec_rate r.
Proof.
  unfold filter_body. intros Hrun Hidx Hflt0 Hacc0 Hdec Hwrap.
  destruct (outer_loop fir r input nitems fuel _) as [s | | |] eqn:Eouter;
    cbn [bind] in Hrun; try discriminate.
  injection Hrun as <-. cbn [fr_written fr_count fr_engine].
  assert (Hflt : unit_range (d_flt_rate r)) by (rewrite Hflt0; exact I).
  destruct (outer_loop_run fir r input nitems Hflt Hdec Hwrap _ _ _ Eouter)
    as (w & Hw & Hlaw & _ & _ & _ & _ & _ & Hlen & _ & _ & _ & Hzero);
    cbn [ls_j ls_acc ls_count ls_reads ls_i ls_out] in *;
    try assumption; try lia; try apply Forall_nil.
  { rewrite Hacc0. exact I. }
  destruct (Hzero Hflt0 Hacc0) as [-> Hacc'].
  change (size []) with 0 in Hlen.
  cbn [with_last_filter with_acc d_last_filter d_acc].
  split; [exact Hacc' | nia].
Qed.

Lemma filter_rational_exact_witness :
  index_in_range interp15
  /\ exists fr : filter_result,
       filter_body fir_dot interp15 ramp 2 5 = Ok fr
       /\ d_acc (fr_engine fr) = S754_zero false
       /\ d_int_rate interp15 * fr_count fr + d_last_filter (fr_engine fr)
          = d_last_filter interp15 + size (fr_written fr) * d_dec_rate interp15.
Proof.
  split; [vm_compute; intuition discriminate |].
  eexists. split; [vm_compute; reflexivity |].
  apply (filter_rational_exact fir_dot interp15 ramp 2 5).
  - vm_compute. reflexivity.
  - vm_compute. intuition discriminate.
  - reflexivity.
  - reflexivity.
  - vm_compute. discriminate.
  - vm_compute. reflexivity.
Defined.

(** X13.  Decimation: when the decimation step is at least the number of
    filters (rate <= 1), every sample leaves the bank: the loops of
    [filter] terminate and store exactly nitems samples, consuming at
    least one input sample for each.  (The bound on the product keeps the
    [int] cursor and the [unsigned] filter index from overflowing.) *)
Theorem filter_decimation_exact
    (fir : list float32 -> (Z -> complex) -> Z -> complex)
    (r : resampler) (input : Z -> complex) (nitems : Z) (fuel : nat) :
  d_int_rate r <= d_dec_rate r ->
  state_invariant r ->
  unit_range (d_flt_rate r) ->
  size (d_filters r) = d_int_rate r ->
  size (d_diff_filters r) = d_int_rate r ->
  (Z.max 0 nitems + d_int_rate r) * (d_dec_rate r + 4) <= INT_MAX ->
  (Z.to_nat (Z.max 0 nitems + d_int_rate r) <= fuel)%nat ->
  exists fr : filter_result,
    filter_body fir r input nitems fuel = Ok fr
    /\ size (fr_written fr) = Z.max 0 nitems
    /\ size (fr_reads fr) = Z.max 0 nitems
    /\ Z.max 0 nitems <= fr_count fr
    /\ state_invariant (fr_engine fr).
Proof.
  intros HNdec [Hidx Hacc] Hflt Hbank Hdbank Hcursor Hfuel.
  unfold index_in_range in Hidx.
  assert (HN : 1 <= d_int_rate r) by lia.
  assert (Hdec1 : 1 <= d_dec_rate r) by lia.
  assert (Hwrap3 : d_int_rate r + d_dec_rate r + 3 < UINT_MOD).
  { unfold UINT_MOD, INT_MAX in *. nia. }
  assert (Hwrap : d_int_rate r + d_dec_rate r < INT_MAX) by nia.
  unfold filter_body.
  destruct (outer_loop_completes fir r input nitems Hdec1 HN Hflt Hbank Hdbank
              Hwrap3 Hcursor (Z.to_nat (Z.max 0 nitems)) fuel
              (mk_loop_state 0 0 (d_last_filter r) (d_acc r) [] []))
    as (s' & Erun & _);
    cbn [ls_i ls_j ls_acc ls_count ls_out]; try lia; try assumption.
  rewrite Erun. cbn [bind].
  destruct (outer_loop_run fir r input nitems Hflt ltac:(lia) Hwrap _ _ _ Erun)
    as (w & Hw & Hlaw & Hj' & Hacc' & _ & _ & Hstay & Hlen & Hrlen & _ & Hexact & _);
    cbn [ls_j ls_acc ls_count ls_reads ls_i ls_out] in *;
    try assumption; try lia; try apply Forall_nil.
  change (size []) with 0 in Hlen, Hrlen.
  eexists. split; [reflexivity |].
  cbn [fr_written fr_reads fr_count fr_engine].
  assert (Hi' : ls_i s' = Z.max 0 nitems).
  { destruct (Z.le_gt_cases nitems 0) as [Hnone | Hsome].
    - rewrite (Hstay Hnone). cbn [ls_i]. lia.
    - rewrite (Hexact HNdec ltac:(lia)). lia. }
  split; [lia |]. split; [lia |].
  split; [| split; [exact Hj' | exact Hacc']].
  rewrite <- Hi'. nia.
Qed.

Lemma filter_decimation_exact_witness :
  d_int_rate decim <= d_dec_rate decim
  /\ state_invariant decim
  /\ exists fr : filter_result,
       filter_body fir_dot decim ramp 3 7 = Ok fr
       /\ size (fr_written fr) = Z.max 0 3
       /\ size (fr_reads fr) = Z.max 0 3
       /\ Z.max 0 3 <= fr_count fr
       /\ state_invariant (fr_engine fr).
Proof.
  assert (Hinv : state_invariant decim) by (vm_compute; intuition discriminate).
  split; [vm_compute; discriminate |].
  split; [exact Hinv |].
  apply (filter_decimation_exact fir_dot decim ramp 3 7).
  - vm_compute. discriminate.
  - exact Hinv.
  - vm_compute. split; [reflexivity | discriminate].
  - reflexivity.
  - reflexivity.
  - vm_compute. discriminate.
  - vm_compute. lia.
Defined.

Lemma fir_dot_shift (taps : list float32) (inp : Z -> complex) (c k : Z) :
  fir_dot taps (fun n : Z => inp (c + n)) k = fir_dot taps inp (c + k).
Proof.
  unfold fir_dot. generalize (c_zero, 0). 
  induction taps as [| t taps IH]; intros s; [reflexivity |].
  cbn [fold_left]. rewrite IH. now rewrite Z.add_assoc.
Qed.

(** X14.  Decimation: when the decimation step is at least the number of
    filters and N + [d_dec_rate] is below [INT_MAX], the statements of one
    call of [filter] for n1 + n2 samples and those of two successive calls
    for n1 and n2 samples (the second on the input advanced by the cursor
    of the first, storing from [output + n1]) leave the same output buffer
    and the same engine. *)
Theorem filter_split_when_decimating
    (fir : list float32 -> (Z -> complex) -> Z -> complex)
    (r : resampler) (input : Z -> complex) (n1 n2 : Z) (fuel : nat)
    (fr : filter_result) :
  (forall (taps : list float32) (inp : Z -> complex) (c k : Z),
      fir taps (fun n : Z => inp (c + n)) k = fir taps inp (c + k)) ->
  state_invariant r ->
  unit_range (d_flt_rate r) ->
  d_int_rate r <= d_dec_rate r ->
  d_int_rate r + d_dec_rate r < INT_MAX ->
  0 <= n1 -> 0 <= n2 ->
  filter_body fir r input (n1 + n2) fuel = Ok fr ->
  filter_twice fir r input n1 n2 fuel = Ok (fr_written fr, fr_engine fr).
Proof.
  intros Hfir [Hidx Hacc] Hflt HNdec Hwrap Hn1 Hn2 Hrun.
  unfold index_in_range in Hidx.
  assert (Hdec : 0 <= d_dec_rate r) by lia.
  unfold filter_body in Hrun.
  destruct (outer_loop fir r input (n1 + n2) fuel _) as [s' | | |] eqn:Eouter;
    cbn [bind] in Hrun; try discriminate.
  injection Hrun as <-. cbn [fr_written fr_engine].
  destruct (outer_loop_prefix fir r input Hflt Hdec Hwrap n1 (n1 + n2) fuel HNdec
              _ _ Eouter)
    as (sm & fuel' & Em & Him & Hfuel' & Erest & Hjm & Ham & Hcm);
    cbn [ls_i ls_j ls_acc ls_count]; try assumption; try lia.
  destruct (outer_loop_run fir r input n1 Hflt Hdec Hwrap _ _ _ Em)
    as (_ & _ & _ & _ & _ & _ & _ & _ & Hlen & _);
    cbn [ls_j ls_acc ls_count ls_reads ls_i ls_out] in *;
    try assumption; try lia; try apply Forall_nil.
  change (size []) with 0 in Hlen.
  destruct (outer_loop_shift fir Hfir r input Hflt Hdec Hwrap
              (ls_count sm) n1 (ls_out sm) (ls_reads sm) Hcm Hn1 (n1 + n2) fuel'
              sm (mk_loop_state 0 0 (ls_j sm) (ls_acc sm) [] []) s')
    as (t' & Et & Hit & Hct & Hjt & Hat & Hot & Hrt);
    cbn [ls_i ls_j ls_acc ls_count ls_out ls_reads map];
    try assumption; try lia; try reflexivity; try (now rewrite app_nil_r).
  replace (n1 + n2 - n1) with n2 in Et by lia.
  apply (outer_loop_fuel_mono _ _ _ _ _ fuel) in Et; [| exact Hfuel'].
  unfold filter_twice, filter_body. rewrite Em. cbn [bind fr_engine fr_count fr_written].
  rewrite outer_loop_saved_state.
  cbn [with_last_filter with_acc d_last_filter d_acc].
  rewrite Et. cbn [bind fr_written fr_engine].
  f_equal. f_equal.
  - unfold store. unfold size in Hlen.
    replace (Z.to_nat n1) with (length (ls_out sm)) by lia.
    rewrite firstn_all, skipn_all2 by lia.
    now rewrite app_nil_r, Hot.
  - rewrite Hjt, Hat. now destruct r.
Qed.

Lemma filter_split_when_decimating_witness :
  state_invariant decim
  /\ d_int_rate decim <= d_dec_rate decim
  /\ exists fr : filter_result,
       filter_body fir_dot decim ramp (2 + 1) 3 = Ok fr
       /\ filter_twice fir_dot decim ramp 2 1 3 = Ok (fr_written fr, fr_engine fr).
Proof.
  assert (Hinv : state_invariant decim) by (vm_compute; intuition discriminate).
  split; [exact Hinv |].
  split; [vm_compute; discriminate |].
  eexists. split; [vm_compute; reflexivity |].
  apply (filter_split_when_decimating fir_dot decim ramp 2 1 3).
  - exact fir_dot_shift.
  - exact Hinv.
  - vm_compute. split; [reflexivity | discriminate].
  - vm_compute. discriminate.
  - vm_compute. reflexivity.
  - lia.
  - lia.
  - vm_compute. reflexivity.
Defined.

(** ** A fractional step too small for the accumulator *)

Lemma fmodf1_unit_fixed (x : float32) : unit_range x -> fmodf1 x = x.
Proof.
  destruct x as [s | s | | [] m e]; cbn [unit_range]; try tauto.
  intros [Hb Hd]. destruct (bounded_inv m e Hb) as [Hc _].
  rewrite fmodf1_finite.
  destruct (Z.leb_spec 0 e) as [He | He].
  { pose proof (Pos2Z.is_pos (digits2_pos m)). lia. }
  pose proof (digits_bounds m) as [_ Hhi].
  assert (Hlt : Zpos m < 2 ^ (- e)).
  { assert (2 ^ Zpos (digits2_pos m) <= 2 ^ (- e)) by (apply Z.pow_le_mono_r; lia).
    lia. }
  rewrite Z.mod_small by lia.
  apply binary_round_repr; [exact Hb |].
  left. split; [lia |]. rewrite Z.sub_diag. lia.
Qed.

Lemma f_floor_unit (x : float32) : unit_range x -> f_floor x = Some 0.
Proof.
  destruct x as [s | s | | [] m e]; cbn [unit_range]; try tauto.
  intros [_ Hd].
  destruct (f_floor_digits m e 0 Hd ltac:(lia)) as (fl & -> & Hfl).
  change (2 ^ 0) with 1 in Hfl. f_equal. lia.
Qed.

Lemma inner_loop_absorbed
    (fir : list float32 -> (Z -> complex) -> Z -> complex)
    (r : resampler) (input : Z -> complex) :
  d_dec_rate r = 0 ->
  f32_add (d_acc r) (d_flt_rate r) = d_acc r ->
  unit_range (d_acc r) ->
  d_int_rate r <= UINT_MOD ->
  forall (fuel : nat) (s s' : loop_state),
    0 <= ls_j s < d_int_rate r ->
    ls_acc s = d_acc r ->
    inner_loop fir r input fuel s <> Ok s'.
Proof.
  intros Hdec Habs Hunit HN.
  induction fuel as [| fuel IH]; intros s s' Hj Hacc.
  - cbn [inner_loop]. destruct (Z.ltb_spec (ls_j s) (d_int_rate r)); [discriminate | lia].
  - rewrite inner_loop_S.
    destruct (Z.ltb_spec (ls_j s) (d_int_rate r)); [| lia].
    destruct (read (d_filters r) (ls_j s)); cbn [bind]; try discriminate.
    destruct (read (d_diff_filters r) (ls_j s)); cbn [bind]; try discriminate.
    destruct (int_add (ls_i s) 1); cbn [bind]; try discriminate.
    rewrite Hacc, Habs, Hdec, (f_floor_unit _ Hunit), (fmodf1_unit_fixed _ Hunit).
    change (cast_int (Some 0)) with (Ok (A:=Z) 0). cbn [bind].
    change (uint 0) with 0. rewrite Z.add_0_l. change (uint 0) with 0.
    rewrite Z.add_0_r.
    assert (Hu : uint (ls_j s) = ls_j s)
      by (unfold uint; apply Z.mod_small; lia).
    rewrite Hu.
    apply IH; cbn [ls_j ls_acc]; [lia | reflexivity].
Qed.

(** X15.  Without a decimation step, the filter index moves only when the
    accumulator wraps.  When the fractional step is so small that adding
    it leaves the accumulator unchanged in single precision (a zero step,
    or one below half a unit in the last place of the accumulator), the
    accumulator never wraps, and the loops of a call of [filter] for
    nitems > 0 never terminate. *)
Theorem filter_stalls_when_step_is_absorbed
    (fir : list float32 -> (Z -> complex) -> Z -> complex)
    (r : resampler) (input : Z -> complex) (nitems : Z) :
  d_dec_rate r = 0 ->
  f32_add (d_acc r) (d_flt_rate r) = d_acc r ->
  state_invariant r ->
  d_int_rate r <= UINT_MOD ->
  0 < nitems ->
  forall (fuel : nat) (fr : filter_result),
    filter_body fir r input nitems fuel <> Ok fr.
Proof.
  intros Hdec Habs [Hidx Hunit] HN Hn fuel fr. unfold filter_body.
  destruct fuel as [| fuel].
  - simpl. destruct (Z.ltb_spec 0 nitems); [discriminate | lia].
  - rewrite outer_loop_S. cbn [ls_i].
    destruct (Z.ltb_spec 0 nitems); [| lia].
    destruct (inner_loop fir r input (S fuel) _) eqn:E;
      cbn [bind]; try discriminate.
    exfalso. revert E.
    apply (inner_loop_absorbed fir r input Hdec Habs Hunit HN);
      [exact Hidx | reflexivity].
Qed.

Lemma filter_stalls_when_step_is_absorbed_witness :
  (exists (r0 : resampler) (fr0 : filter_result),
      engine (f32_of_Z 7) 2 = Ok r0
      /\ filter_body fir_dot r0 ramp 1 8 = Ok fr0
      /\ set_rate (fr_engine fr0) (B32 1 100) = Ok stuck)
  /\ d_dec_rate stuck = 0
  /\ 0 < units (d_flt_rate stuck)
  /\ state_invariant stuck
  /\ ~ (exists (fuel : nat) (fr : filter_result),
          filter_body fir_dot stuck ramp 1 fuel = Ok fr).
Proof.
  split.
  { eexists. eexists. split; [vm_compute; reflexivity |].
    split; [vm_compute; reflexivity |]. vm_compute. reflexivity. }
  split; [reflexivity |].
  split; [vm_compute; reflexivity |].
  assert (Hinv : state_invariant stuck) by (vm_compute; intuition discriminate).
  split; [exact Hinv |].
  intros (fuel & fr & H). revert H.
  apply (filter_stalls_when_step_is_absorbed fir_dot stuck ramp 1).
  - reflexivity.
  - vm_compute. reflexivity.
  - exact Hinv.
  - vm_compute. discriminate.
  - lia.
Defined.

Lemma filter_keeps_invariant_witness :
  state_invariant interp8
  /\ unit_range (d_flt_rate interp8)
  /\ exists fr : filter_result,
       filter_body fir_dot interp8 ramp 1 16 = Ok fr
       /\ state_invariant (fr_engine fr).
Proof.
  assert (Hinv : state_invariant interp8) by (vm_compute; intuition discriminate).
  assert (Hflt : unit_range (d_flt_rate interp8)).
  { vm_compute. split; [reflexivity | discriminate]. }
  split; [exact Hinv |]. split; [exact Hflt |].
  eexists. split; [vm_compute; reflexivity |].
  apply (filter_keeps_invariant fir_dot interp8 ramp 1 16 _);
    [vm_compute; reflexivity | exact Hinv | exact Hflt].
Defined.

(** ** Completion of the loops of [filter] *)

(** The rounded sum of two numbers of [[0, 1)] is less than one unit in
    the last place (at most 2^-23) below the exact sum. *)
Lemma f32_add_lower (x y : float32) :
  unit_range x -> unit_range y ->
  units x + units y < units (f32_add x y) + 2 ^ 126.
Proof.
  intros Hx Hy.
  pose proof (unit_range_units x Hx) as Hux.
  pose proof (unit_range_units y Hy) as Huy.
  destruct x as [sx | sx | | [] mx ex]; cbn [unit_range] in Hx; try tauto;
    destruct y as [sy | sy | | [] my ey]; cbn [unit_range] in Hy; try tauto.
  - destruct sx, sy; cbn; lia.
  - cbn [f32_add SFadd]. change (units (S754_zero sx)) with 0. lia.
  - cbn [f32_add SFadd]. change (units (S754_zero sy)) with 0. lia.
  - destruct Hx as [Hbx Hdx], Hy as [Hby Hdy].
    destruct (bounded_inv mx ex Hbx) as [Hcx _].
    destruct (bounded_inv my ey Hby) as [Hcy _].
    rewrite !units_finite.
    unfold f32_add, SFadd. cbn [cond_Zopp].
    set (ez := Z.min ex ey).
    pose proof (shl_align_spec mx ex ez) as Hax.
    pose proof (shl_align_spec my ey ez) as Hay.
    destruct (shl_align mx ex ez) as [ax ezx].
    destruct (shl_align my ey ez) as [ay ezy].
    destruct Hax as [Hezx Hax], Hay as [Hezy Hay]. cbn [fst].
    replace ezx with ez in Hax by (unfold ez in *; lia).
    replace ezy with ez in Hay by (unfold ez in *; lia).
    change (Zpos ax + Zpos ay) with (Zpos (ax + ay)).
    cbn [binary_normalize].
    assert (Hezlo : -149 <= ez) by (unfold ez; lia).
    assert (Hsum : Zpos (digits2_pos (ax + ay)) + ez <= 1).
    { pose proof (aligned_below mx ex ez Hdx ltac:(unfold ez; lia)).
      pose proof (aligned_below my ey ez Hdy ltac:(unfold ez; lia)).
      pose proof (Pos2Z.is_pos (digits2_pos mx)).
      assert (Hez : ez <= -1) by (unfold ez; lia).
      assert (Zdigits2 (Zpos (ax + ay)) <= 1 - ez); [| cbn [Zdigits2] in *; lia].
      apply Zdigits2_le; [| lia].
      replace (1 - ez) with (Z.succ (- ez)) by lia.
      rewrite Z.pow_succ_r by lia. rewrite Pos2Z.inj_add. lia. }
    (* the exact sum, in units *)
    assert (HX : Zpos mx * 2 ^ (ex + 149) + Zpos my * 2 ^ (ey + 149)
                 = Zpos (ax + ay) * 2 ^ (ez + 149)).
    { rewrite Pos2Z.inj_add, Hax, Hay, Z.mul_add_distr_r.
      rewrite <- !Z.mul_assoc, <- !Z.pow_add_r by (unfold ez; lia).
      f_equal; f_equal; f_equal; lia. }
    rewrite HX. clear HX.
    set (M := (ax + ay)%positive) in *.
    set (d := Zpos (digits2_pos M) + ez) in *.
    set (E := Z.max (d - 24) (-149)).
    assert (HE : E <= -23) by (unfold E; lia).
    assert (HPE : 2 ^ (E + 149) <= 2 ^ 126) by (apply Z.pow_le_mono_r; lia).
    assert (HPEpos : 0 < 2 ^ (E + 149)) by (apply Z.pow_pos_nonneg; unfold E; lia).
    destruct (Z.le_gt_cases E ez) as [Hexact | Hround].
    + destruct (binary_round_exact false M ez) as (m & Hz & Hm & _);
        [rewrite fexp32_eq; fold d; fold E; lia
        | rewrite fexp32_eq; fold d; fold E; lia |].
      rewrite fexp32_eq in Hz, Hm. fold d in Hz, Hm. fold E in Hz, Hm.
      rewrite Hz, units_finite, Hm.
      rewrite <- Z.mul_assoc, <- Z.pow_add_r by (unfold E; lia).
      replace (ez - E + (E + 149)) with (ez + 149) by lia. lia.
    + unfold binary_round. fold d. rewrite fexp32_eq. fold E.
      assert (Es : shl_align M ez E = (M, ez)).
      { unfold shl_align. destruct (E - ez) eqn:Ed; try reflexivity. lia. }
      rewrite Es.
      assert (Hsplit : 2 ^ (E + 149) = 2 ^ (E - ez) * 2 ^ (ez + 149)).
      { rewrite <- Z.pow_add_r by lia. f_equal. lia. }
      assert (Hn : 0 < 2 ^ (E - ez)) by (apply Z.pow_pos_nonneg; lia).
      assert (Hu : 0 < 2 ^ (ez + 149)) by (apply Z.pow_pos_nonneg; lia).
      pose proof (Z.mul_succ_div_gt (Zpos M) (2 ^ (E - ez)) Hn) as Hgt.
      destruct (binary_round_aux_value prec32 emax32 ltac:(reflexivity) false
                  (Zpos M) ez loc_Exact ltac:(lia))
        as [[Hz Hq] | [[Hz Hbig] | (m & e & Hz & Hb & Hge & Hval & _)]].
      * cbn [Zdigits2]. fold d. rewrite fexp32_eq. fold E. lia.
      * rewrite Hz. change (units (S754_zero false)) with 0.
        cbn [Zdigits2] in Hq. fold d in Hq. rewrite fexp32_eq in Hq. fold E in Hq.
        rewrite Hq in Hgt. nia.
      * exfalso. cbn [Zdigits2] in Hbig. fold d in Hbig.
        rewrite fexp32_eq in Hbig. fold E in Hbig.
        unfold emax32, prec32 in Hbig. lia.
      * cbn [Zdigits2] in Hge, Hval. fold d in Hge, Hval.
        rewrite fexp32_eq in Hge, Hval. fold E in Hge, Hval.
        rewrite Hz, units_finite.
        assert (EV : Zpos m * 2 ^ (e + 149)
                     = Zpos m * 2 ^ (e - E) * 2 ^ (E + 149)).
        { rewrite <- Z.mul_assoc, <- Z.pow_add_r by (unfold E; lia).
          f_equal. f_equal. lia. }
        rewrite EV.
        set (Q := Zpos m * 2 ^ (e - E)) in *.
        set (q := Zpos M / 2 ^ (E - ez)) in *.
        assert (HQ : q <= Q) by lia.
        rewrite Hsplit in *. 
        revert Hgt HQ Hn Hu HPE. clear.
        generalize (2 ^ (E - ez)) (2 ^ (ez + 149)) (Zpos M).
        intros A B X Hgt HQ Hn Hu HPE.
        assert (X * B < A * Z.succ q * B) by (apply Z.mul_lt_mono_pos_r; lia).
        nia.
Qed.

(** One accumulator step [d_acc += d_flt_rate; floor; fmodf]: the integer
    part is 0 or 1, and integer and fractional part together fall less
    than 2^-23 short of the exact sum. *)
Lemma f32_add_advance (x y : float32) :
  unit_range x -> unit_range y ->
  exists fl : Z,
    f_floor (f32_add x y) = Some fl
    /\ 0 <= fl <= 1
    /\ units x + units y
       < fl * 2 ^ 149 + units (fmodf1 (f32_add x y)) + 2 ^ 126.
Proof.
  intros Hx Hy.
  destruct (f32_add_unit_floor x y Hx Hy) as (fl & Efl & Hfl).
  exists fl. split; [exact Efl |]. split; [exact Hfl |].
  pose proof (f32_add_lower x y Hx Hy) as Hlow.
  pose proof (f32_add_unit_range x y Hx Hy) as Hz.
  destruct (f32_add x y) as [s | s | | [] m e]; cbn [below_four] in Hz; try tauto.
  - cbn [f_floor] in Efl. injection Efl as <-.
    change (fmodf1 (S754_zero s)) with (S754_zero s). lia.
  - destruct Hz as [Hb _].
    rewrite (fmodf1_exact m e fl Hb Efl). lia.
Qed.

Section FilterProgress.

Variable fir : list float32 -> (Z -> complex) -> Z -> complex.
Variable r : resampler.
Variable input : Z -> complex.
Variable nitems : Z.

Hypothesis Hflt : unit_range (d_flt_rate r).
Hypothesis Hdec : 0 <= d_dec_rate r.
Hypothesis HN : 1 <= d_int_rate r.
Hypothesis Hwrap : d_int_rate r + d_dec_rate r < INT_MAX.
Hypothesis Hbank : size (d_filters r) = d_int_rate r.
Hypothesis Hdbank : size (d_diff_filters r) = d_int_rate r.

Lemma inner_loop_progress (k : nat) :
  forall (fuel : nat) (s : loop_state),
    within r s (Z.of_nat k) ->
    (k <= fuel)%nat ->
    0 <= ls_j s ->
    unit_range (ls_acc s) ->
    0 <= ls_i s ->
    ls_i s + Z.of_nat k <= INT_MAX ->
    exists s' : loop_state,
      inner_loop fir r input fuel s = Ok s'
      /\ ls_i s' <= ls_i s + Z.of_nat k.
Proof.
  induction k as [| k IH]; intros fuel s Hk Hfuel Hj Hacc Hi Himax.
  - exists s. split; [| lia].
    apply inner_loop_done.
    pose proof (unit_range_units _ Hacc) as Hu.
    destruct Hk as [Hk | Hk]; [lia |].
    change (Z.of_nat 0) with 0 in Hk. rewrite Z.mul_0_l in Hk.
    revert Hk Hu. generalize (2 ^ 149) (units (ls_acc s)). intros U a Hk Hu. nia.
  - destruct (Z.le_gt_cases (d_int_rate r) (ls_j s)) as [Hdone | Hrun].
    { exists s. split; [now apply inner_loop_done | lia]. }
    destruct fuel as [| fuel]; [lia |].
    rewrite inner_loop_S.
    destruct (Z.ltb_spec (ls_j s) (d_int_rate r)) as [_ | Hge]; [| lia].
    destruct (read_bank r (d_filters r) (ls_j s) Hbank ltac:(lia)) as [f0 ->].
    destruct (read_bank r (d_diff_filters r) (ls_j s) Hdbank ltac:(lia)) as [f1 ->].
    cbn [bind].
    destruct (f32_add_advance _ _ Hacc Hflt) as (fl & Efl & Hfl & Hadv).
    assert (Eadd : int_add (ls_i s) 1 = Ok (ls_i s + 1)).
    { unfold int_add, INT_MIN, INT_MAX in *.
      destruct (Z.leb_spec (- 2 ^ 31) (ls_i s + 1)); [| lia].
      destruct (Z.leb_spec (ls_i s + 1) (2 ^ 31 - 1)); [reflexivity | lia]. }
    rewrite Eadd. cbn [bind].
    rewrite Efl.
    assert (Ecast : cast_int (Some fl) = Ok fl).
    { unfold cast_int, INT_MIN, INT_MAX.
      destruct (Z.leb_spec (- 2 ^ 31) fl); [| lia].
      destruct (Z.leb_spec fl (2 ^ 31 - 1)); [reflexivity | lia]. }
    rewrite Ecast. cbn [bind].
    assert (Ej : uint (ls_j s + uint (d_dec_rate r + uint fl))
                 = ls_j s + d_dec_rate r + fl).
    { unfold uint, UINT_MOD, INT_MAX in *.
      rewrite (Z.mod_small fl) by lia.
      rewrite (Z.mod_small (d_dec_rate r + fl)) by lia.
      rewrite Z.mod_small by lia. lia. }
    rewrite Ej.
    set (s1 := mk_loop_state _ _ _ _ _ _).
    assert (Hacc1 : unit_range (ls_acc s1)).
    { subst s1. cbn [ls_acc]. apply fmodf1_below_four. now apply f32_add_unit_range. }
    destruct (IH fuel s1) as (s' & Erun & Hi');
      try (subst s1; cbn [ls_j ls_i]; lia); try assumption.
    { subst s1. cbn [ls_j ls_acc]. unfold within in *. cbn [ls_j ls_acc].
      rewrite Nat2Z.inj_succ in Hk.
      destruct Hk as [Hk | Hk]; [left; nia | right].
      revert Hk Hadv.
      generalize (2 ^ 149) (2 ^ 126) (units (ls_acc s)) (units (d_flt_rate r))
        (units (fmodf1 (f32_add (ls_acc s) (d_flt_rate r)))).
      intros U G a f a' Hk Hadv. nia. }
    exists s'. split; [exact Erun |].
    subst s1. cbn [ls_i] in Hi'. lia.
Qed.

Variable w : Z.
Hypothesis Hw : 1 <= w.
Hypothesis Hgain :
  d_int_rate r <= w * d_dec_rate r
  \/ d_int_rate r * 2 ^ 149
     <= w * (d_dec_rate r * 2 ^ 149 + units (d_flt_rate r) - 2 ^ 126).
Hypothesis Hcursor : (Z.max 0 nitems + w) * (d_dec_rate r + 1) <= INT_MAX.

Lemma within_start (s : loop_state) :
  0 <= ls_j s -> unit_range (ls_acc s) -> within r s w.
Proof.
  intros Hj Hacc. pose proof (unit_range_units _ Hacc) as Hu.
  unfold within. destruct Hgain as [Hg | Hg]; [left; lia | right].
  revert Hg Hu. generalize (2 ^ 149) (units (ls_acc s)). intros U a Hg Hu. nia.
Qed.

Lemma outer_loop_progress (k : nat) :
  forall (fuel : nat) (s : loop_state),
    nitems - ls_i s <= Z.of_nat k ->
    (k + Z.to_nat w <= fuel)%nat ->
    0 <= ls_j s < d_int_rate r ->
    unit_range (ls_acc s) ->
    0 <= ls_i s ->
    0 <= ls_count s <= ls_i s * (d_dec_rate r + 1) ->
    exists s' : loop_state,
      outer_loop fir r input nitems fuel s = Ok s'
      /\ (ls_i s < nitems -> ls_i s' < nitems + w).
Proof.
  induction k as [| k IH]; intros fuel s Hk Hfuel Hj Hacc Hi Hcount.
  - exists s. split; [| lia].
    destruct fuel; cbn [outer_loop];
      destruct (Z.ltb_spec (ls_i s) nitems); (reflexivity || lia).
  - destruct (Z.le_gt_cases nitems (ls_i s)) as [Hdone | Hrun].
    { exists s. split; [| lia].
      destruct fuel; cbn [outer_loop];
        destruct (Z.ltb_spec (ls_i s) nitems); (reflexivity || lia). }
    destruct fuel as [| fuel]; [lia |].
    rewrite outer_loop_S.
    destruct (Z.ltb_spec (ls_i s) nitems) as [_ | Hge]; [| lia].
    assert (Hnw : nitems + w <= INT_MAX) by nia.
    destruct (inner_loop_progress (Z.to_nat w) (S fuel) s) as (s1 & Erun & Hi1);
      try lia; try assumption.
    { rewrite Z2Nat.id by lia. apply within_start; [lia | exact Hacc]. }
    rewrite Z2Nat.id in Hi1 by lia.
    destruct (inner_loop_run fir r input Hflt Hdec Hwrap _ _ _ Erun ltac:(lia) Hacc)
      as (w1 & Hw1 & Hj1 & Hcount1 & HjN1 & Hstep1 & _ & Hacc1 & _).
    destruct (Hstep1 ltac:(lia)) as [Hj1max Hprog].
    rewrite Erun. cbn [bind].
    destruct (Z.eqb_spec (d_int_rate r) 0) as [H0 | _]; [lia |].
    assert (Hq : 0 <= ls_j s1 / d_int_rate r <= d_dec_rate r + 1).
    { split; [apply Z.div_pos; lia |].
      assert (ls_j s1 / d_int_rate r < d_dec_rate r + 2); [| lia].
      apply Z.div_lt_upper_bound; [lia |]. nia. }
    assert (Hcnt : ls_count s1 + ls_j s1 / d_int_rate r
                   <= ls_i s1 * (d_dec_rate r + 1)) by nia.
    assert (Hcmax : ls_i s1 * (d_dec_rate r + 1) <= INT_MAX) by nia.
    assert (Eq : int_of_uint (ls_j s1 / d_int_rate r) = ls_j s1 / d_int_rate r).
    { unfold int_of_uint.
      destruct (Z.leb_spec (ls_j s1 / d_int_rate r) INT_MAX); [reflexivity | lia]. }
    rewrite Eq.
    assert (Eadd : int_add (ls_count s1) (ls_j s1 / d_int_rate r)
                   = Ok (ls_count s1 + ls_j s1 / d_int_rate r)).
    { unfold int_add, INT_MIN in *.
      destruct (Z.leb_spec (- 2 ^ 31) (ls_count s1 + ls_j s1 / d_int_rate r)); [| lia].
      destruct (Z.leb_spec (ls_count s1 + ls_j s1 / d_int_rate r) INT_MAX);
        [reflexivity | lia]. }
    rewrite Eadd. cbn [bind].
    set (s2 := mk_loop_state _ _ _ _ _ _).
    destruct (IH fuel s2) as (s' & Erun' & Hgo');
      try (subst s2; cbn [ls_i ls_j ls_acc ls_count]; lia).
    { subst s2. cbn [ls_j]. apply Z.mod_pos_bound. lia. }
    { subst s2. cbn [ls_acc]. exact Hacc1. }
    exists s'. split; [exact Erun' |].
    intros _. subst s2. cbn [ls_i] in *.
    destruct (Z.le_gt_cases nitems (ls_i s1)) as [Hout | Hin].
    + assert (Hstay : s' = mk_loop_state (ls_i s1)
                             (ls_count s1 + ls_j s1 / d_int_rate r)
                             (ls_j s1 mod d_int_rate r) (ls_acc s1) (ls_out s1)
                             (ls_reads s1)).
      { destruct fuel; cbn [outer_loop ls_i] in Erun';
          destruct (Z.ltb_spec (ls_i s1) nitems); try lia; congruence. }
      rewrite Hstay. cbn [ls_i]. lia.
    + exact (Hgo' Hin).
Qed.

End FilterProgress.

(** C3, amended.  On an engine in a valid state the loops of [filter]
    terminate whenever every stored sample is sure to advance the filter
    index or the accumulator: when [w] samples, at [d_dec_rate] filters
    each, or at [d_dec_rate + d_flt_rate - 2^-23] filters each, are enough
    to cross the bank of N filters.  Control then reaches the end of the
    function within nitems + w loop turns, at least nitems and fewer than
    nitems + w samples have been stored, and the state invariant holds
    again.  (The two bounds keep the [unsigned] filter index and the [int]
    cursors from overflowing.) *)
Theorem filter_completes
    (fir : list float32 -> (Z -> complex) -> Z -> complex)
    (r : resampler) (input : Z -> complex) (nitems w : Z) (fuel : nat) :
  state_invariant r ->
  unit_range (d_flt_rate r) ->
  0 <= d_dec_rate r ->
  size (d_filters r) = d_int_rate r ->
  size (d_diff_filters r) = d_int_rate r ->
  1 <= w ->
  d_int_rate r <= w * d_dec_rate r
  \/ d_int_rate r * 2 ^ 149
     <= w * (d_dec_rate r * 2 ^ 149 + units (d_flt_rate r) - 2 ^ 126) ->
  d_int_rate r + d_dec_rate r < INT_MAX ->
  (Z.max 0 nitems + w) * (d_dec_rate r + 1) <= INT_MAX ->
  (Z.to_nat (Z.max 0 nitems + w) <= fuel)%nat ->
  exists fr : filter_result,
    filter_body fir r input nitems fuel = Ok fr
    /\ Z.max 0 nitems <= size (fr_written fr) < Z.max 0 nitems + w
    /\ state_invariant (fr_engine fr).
Proof.
  intros [Hidx Hacc] Hflt Hdec Hbank Hdbank Hw Hgain Hwrap Hcursor Hfuel.
  unfold index_in_range in Hidx.
  assert (HN : 1 <= d_int_rate r) by lia.
  unfold filter_body.
  destruct (outer_loop_progress fir r input nitems Hflt Hdec HN Hwrap Hbank Hdbank
              w Hw Hgain Hcursor (Z.to_nat (Z.max 0 nitems)) fuel
              (mk_loop_state 0 0 (d_last_filter r) (d_acc r) [] []))
    as (s' & Erun & Hgo);
    cbn [ls_i ls_j ls_acc ls_count]; try lia; try assumption.
  rewrite Erun. cbn [bind].
  destruct (outer_loop_run fir r input nitems Hflt Hdec Hwrap _ _ _ Erun)
    as (w1 & _ & _ & Hj' & Hacc' & _ & Hup & Hstay & Hlen & _);
    cbn [ls_j ls_acc ls_count ls_reads ls_i ls_out] in *;
    try assumption; try lia; try apply Forall_nil.
  change (size []) with 0 in Hlen.
  eexists. split; [reflexivity |].
  cbn [fr_written fr_engine].
  split; [| split; [exact Hj' | exact Hacc']].
  destruct (Z.le_gt_cases nitems 0) as [Hnone | Hsome].
  - rewrite (Hstay Hnone) in Hlen |- *. cbn [ls_out ls_i] in *.
    change (size []) with 0. lia.
  - specialize (Hgo Hsome). specialize (Hup Hsome). lia.
Qed.

Lemma filter_completes_witness :
  state_invariant interp8
  /\ d_dec_rate interp8 = 0
  /\ d_int_rate interp8 * 2 ^ 149
     <= 9 * (d_dec_rate interp8 * 2 ^ 149 + units (d_flt_rate interp8) - 2 ^ 126)
  /\ (exists fr : filter_result,
        filter_body fir_dot interp8 ramp 1 10 = Ok fr
        /\ Z.max 0 1 <= size (fr_written fr) < Z.max 0 1 + 9
        /\ state_invariant (fr_engine fr))
  /\ d_int_rate interp15 <= 3 * d_dec_rate interp15
  /\ exists fr : filter_result,
       filter_body fir_dot interp15 ramp 2 5 = Ok fr
       /\ Z.max 0 2 <= size (fr_written fr) < Z.max 0 2 + 3
       /\ state_invariant (fr_engine fr).
Proof.
  assert (Hinv8 : state_invariant interp8) by (vm_compute; intuition discriminate).
  assert (Hinv15 : state_invariant interp15) by (vm_compute; intuition discriminate).
  assert (Hg8 : d_int_rate interp8 * 2 ^ 149
                <= 9 * (d_dec_rate interp8 * 2 ^ 149
                        + units (d_flt_rate interp8) - 2 ^ 126))
    by (vm_compute; discriminate).
  assert (Hg15 : d_int_rate interp15 <= 3 * d_dec_rate interp15)
    by (vm_compute; discriminate).
  split; [exact Hinv8 |].
  split; [reflexivity |].
  split; [exact Hg8 |].
  split.
  - apply (filter_completes fir_dot interp8 ramp 1 9 10).
    + exact Hinv8.
    + vm_compute. split; [reflexivity | discriminate].
    + vm_compute. discriminate.
    + vm_compute. reflexivity.
    + vm_compute. reflexivity.
    + lia.
    + right. exact Hg8.
    + vm_compute. reflexivity.
    + vm_compute. discriminate.
    + vm_compute. lia.
  - split; [exact Hg15 |].
    apply (filter_completes fir_dot interp15 ramp 2 3 5).
    + exact Hinv15.
    + exact I.
    + vm_compute. discriminate.
    + vm_compute. reflexivity.
    + vm_compute. reflexivity.
    + lia.
    + left. exact Hg15.
    + vm_compute. reflexivity.
    + vm_compute. discriminate.
    + vm_compute. lia.
Defined.

(** ** The number of taps per filter *)

(** Integers below 2^32 convert to [double] exactly. *)
Lemma f64_of_Z_exact (n : Z) :
  0 < n < 2 ^ 32 ->
  exists m : positive,
    f64_of_Z n = S754_finite false m (Zdigits2 n - 53)
    /\ Zpos m = n * 2 ^ (53 - Zdigits2 n)
    /\ Zdigits2 (Zpos m) = 53.
Proof.
  intros Hn. destruct n as [| p | p]; try lia.
  assert (Hd : Zdigits2 (Zpos p) <= 32) by (apply Zdigits2_le; lia).
  destruct (Zdigits2_pos_bounds (Zpos p) ltac:(lia)) as (Hd1 & _).
  unfold f64_of_Z, B64. cbn [binary_normalize]. unfold binary_round.
  change (Zpos (digits2_pos p)) with (Zdigits2 (Zpos p)).
  set (d := Zdigits2 (Zpos p)) in *.
  assert (Efx : fexp prec64 emax64 (d + 0) = d - 53).
  { change (Z.max (d + 0 - 53) (3 - 1024 - 53) = d - 53). lia. }
  rewrite Efx.
  pose proof (shl_align_spec p 0 (d - 53)) as Hv.
  destruct (shl_align p 0 (d - 53)) as [mz ez]. destruct Hv as [Hez Hmz].
  replace (Z.min 0 (d - 53)) with (d - 53) in Hez by lia. subst ez.
  replace (0 - (d - 53)) with (53 - d) in Hmz by lia.
  assert (Hdz : Zdigits2 (Zpos mz) = 53).
  { rewrite Hmz, Zdigits2_mul_pow2 by lia. fold d. lia. }
  exists mz. split; [| split; [exact Hmz | exact Hdz]].
  apply binary_round_aux_bounded.
  unfold bounded, canonical_mantissa. cbn [Zdigits2] in Hdz. rewrite Hdz.
  apply andb_true_intro. split.
  - apply Z.eqb_eq. change (Z.max (53 + (d - 53) - 53) (3 - 1024 - 53) = d - 53). lia.
  - apply Z.leb_le. unfold emax64, prec64. lia.
Qed.

Lemma new_location_exact (nb : Z) : new_location nb 0 = loc_Exact.
Proof.
  unfold new_location, new_location_even, new_location_odd.
  now destruct (Z.even nb).
Qed.

(** The quotient of two such integers as [double]s, rounded up to an
    integer, is the ceiling of the exact quotient. *)
Lemma f64_div_ceil (a b : Z) :
  0 < a < 2 ^ 32 -> 0 < b < 2 ^ 32 ->
  f_ceil (f64_div (f64_of_Z a) (f64_of_Z b)) = Some ((a + b - 1) / b).
Proof.
  intros Ha Hb.
  destruct (f64_of_Z_exact a Ha) as (m1 & -> & Hm1 & Hd1).
  destruct (f64_of_Z_exact b Hb) as (m2 & -> & Hm2 & Hd2).
  assert (Hda : 1 <= Zdigits2 a <= 32).
  { split; [apply (Zdigits2_pos_bounds a); lia | apply Zdigits2_le; lia]. }
  assert (Hdb : 1 <= Zdigits2 b <= 32).
  { split; [apply (Zdigits2_pos_bounds b); lia | apply Zdigits2_le; lia]. }
  set (da := Zdigits2 a) in *. set (db := Zdigits2 b) in *.
  unfold f64_div, SFdiv. cbn [xorb].
  unfold SFdiv_core_binary. rewrite Hd1, Hd2.
  assert (Ee : Z.min (fexp prec64 emax64 (53 + (da - 53) - (53 + (db - 53))))
                 (da - 53 - (db - 53)) = da - db - 53).
  { change (Z.min (Z.max (53 + (da - 53) - (53 + (db - 53)) - 53) (3 - 1024 - 53))
              (da - 53 - (db - 53)) = da - db - 53). lia. }
  rewrite Ee.
  replace (da - 53 - (db - 53) - (da - db - 53)) with 53 by lia.
  rewrite Z.shiftl_mul_pow2 by lia.
  set (k := 53 + db - da).
  assert (Hk : 22 <= k <= 84) by (unfold k; lia).
  (* the quotient of the mantissas is the quotient of the integers *)
  assert (Hnum : Zpos m1 * 2 ^ 53 = (a * 2 ^ k) * 2 ^ (53 - db)).
  { rewrite Hm1. unfold k.
    rewrite <- !Z.mul_assoc, <- !Z.pow_add_r by lia.
    f_equal. f_equal. lia. }
  assert (Hp : 0 < 2 ^ (53 - db)) by (apply Z.pow_pos_nonneg; lia).
  assert (Hpk : 0 < 2 ^ k) by (apply Z.pow_pos_nonneg; lia).
  assert (Hq : Z.div_eucl (Zpos m1 * 2 ^ 53) (Zpos m2)
               = ((a * 2 ^ k) / b, ((a * 2 ^ k) mod b) * 2 ^ (53 - db))).
  { pose proof (Z.div_eucl_eq (Zpos m1 * 2 ^ 53) (Zpos m2) ltac:(lia)) as Heq.
    pose proof (Z.mod_pos_bound (Zpos m1 * 2 ^ 53) (Zpos m2) ltac:(lia)) as Hr.
    unfold Z.modulo in Hr.
    destruct (Z.div_eucl (Zpos m1 * 2 ^ 53) (Zpos m2)) as [q r].
    pose proof (Z.div_mod (a * 2 ^ k) b ltac:(lia)) as Hdm.
    pose proof (Z.mod_pos_bound (a * 2 ^ k) b ltac:(lia)) as Hr'.
    assert (Hqq : q = a * 2 ^ k / b).
    { apply (Z.div_unique_pos (a * 2 ^ k * 2 ^ (53 - db)) (Zpos m2) q r) in Hr;
        [| lia].
      rewrite Hr, Hm2, Z.div_mul_cancel_r by lia. reflexivity. }
    f_equal; [exact Hqq |]. subst q. rewrite Hm2 in Heq. nia. }
  rewrite Hq.
  set (q := a * 2 ^ k / b). set (rem := a * 2 ^ k mod b).
  set (lx := new_location (Zpos m2) (rem * 2 ^ (53 - db))).
  (* the shape of the quotient *)
  assert (Hqlo : 2 ^ 52 <= q).
  { unfold q. apply Z.div_le_lower_bound; [lia |].
    destruct (Zdigits2_pos_bounds a ltac:(lia)) as (_ & Hlo & _).
    destruct (Zdigits2_pos_bounds b ltac:(lia)) as (_ & _ & Hhi).
    fold da in Hlo. fold db in Hhi.
    assert (2 ^ 52 * 2 ^ db <= 2 ^ (da - 1) * 2 ^ k); [| nia].
    rewrite <- !Z.pow_add_r by lia. apply Z.pow_le_mono_r; unfold k; lia. }
  assert (Hqhi : q < 2 ^ 54).
  { unfold q. apply Z.div_lt_upper_bound; [lia |].
    destruct (Zdigits2_pos_bounds a ltac:(lia)) as (_ & _ & Hhi).
    destruct (Zdigits2_pos_bounds b ltac:(lia)) as (_ & Hlo & _).
    fold da in Hhi. fold db in Hlo.
    assert (2 ^ da * 2 ^ k <= 2 ^ (db - 1) * 2 ^ 54); [| nia].
    rewrite <- !Z.pow_add_r by lia. apply Z.pow_le_mono_r; unfold k; lia. }
  assert (Hdq : 53 <= Zdigits2 q <= 54).
  { split; [apply Zdigits2_ge; lia | apply Zdigits2_le; lia]. }
  set (dq := Zdigits2 q) in *.
  assert (Efx : fexp prec64 emax64 (dq + (da - db - 53)) = dq - 53 - k).
  { change (Z.max (dq + (da - db - 53) - 53) (3 - 1024 - 53) = dq - 53 - k).
    unfold k. lia. }
  destruct (binary_round_aux_value prec64 emax64 ltac:(reflexivity) false
              q (da - db - 53) lx ltac:(lia))
    as [[_ Hz] | [[_ Hbig] | (m & e & -> & Hbd & Hge & Hval & Hexact)]].
  - fold dq. rewrite Efx. lia.
  - exfalso. fold dq in Hz. rewrite Efx in Hz.
    replace (dq - 53 - k - (da - db - 53)) with (dq - 53) in Hz by (unfold k; lia).
    assert (Hp1 : 0 < 2 ^ (dq - 53)) by (apply Z.pow_pos_nonneg; lia).
    assert (2 ^ (dq - 53) <= 2 ^ 1) by (apply Z.pow_le_mono_r; lia).
    assert (1 <= q / 2 ^ (dq - 53)); [| lia].
    apply Z.div_le_lower_bound; [lia |]. change (2 ^ 1) with 2 in *.
    change (2 ^ 52) with 4503599627370496 in *. lia.
  - exfalso. fold dq in Hbig. rewrite Efx in Hbig.
    unfold emax64, prec64 in Hbig. lia.
  - fold dq in Hge, Hval, Hexact. rewrite Efx in Hge, Hval, Hexact.
    replace (dq - 53 - k - (da - db - 53)) with (dq - 53) in Hval, Hexact
      by (unfold k; lia).
    set (n := dq - 53) in *.
    assert (Hn : 0 <= n <= 1) by (unfold n; lia).
    set (sc := 2 ^ (k - n)).
    assert (Hsc : 0 < sc) by (apply Z.pow_pos_nonneg; lia).
    assert (Hsck : 2 ^ k = sc * 2 ^ n).
    { unfold sc. rewrite <- Z.pow_add_r by lia. f_equal. lia. }
    assert (Hpn : 0 < 2 ^ n) by (apply Z.pow_pos_nonneg; lia).
    (* the mantissa cut to its binade: floor (a sc / b) *)
    assert (Hq' : q / 2 ^ n = a * sc / b).
    { unfold q. rewrite Z.div_div by lia.
      rewrite Hsck, Z.mul_assoc, Z.div_mul_cancel_r by lia. reflexivity. }
    rewrite Hq' in Hval, Hexact.
    set (Q := Zpos m * 2 ^ (e - (n - k))) in *.
    assert (Hscbig : b <= sc).
    { destruct (Zdigits2_pos_bounds b ltac:(lia)) as (_ & _ & Hhi). fold db in Hhi.
      assert (2 ^ db <= sc); [| lia].
      unfold sc. apply Z.pow_le_mono_r; lia. }
    set (K := (a + b - 1) / b).
    assert (HK : (K - 1) * sc < Q <= K * sc).
    { pose proof (Z.div_mod a b ltac:(lia)) as Hab.
      pose proof (Z.mod_pos_bound a b ltac:(lia)) as Hrab.
      destruct (Z.eq_dec (a mod b) 0) as [Hdiv | Hndiv].
      - (* b divides a *)
        assert (EK : K = a / b).
        { unfold K. symmetry. apply (Z.div_unique _ _ _ (b - 1)); lia. }
        assert (Ea : a = b * (a / b)) by lia.
        set (t := a / b) in *.
        assert (Eq' : a * sc / b = t * sc).
        { symmetry. apply (Z.div_unique _ _ _ 0); [lia |]. rewrite Ea. ring. }
        assert (Eqt : q = t * 2 ^ k).
        { unfold q. symmetry. apply (Z.div_unique _ _ _ 0); [lia |]. rewrite Ea. ring. }
        assert (Erem : rem = 0).
        { unfold rem. rewrite Ea.
          replace (b * t * 2 ^ k) with (t * 2 ^ k * b) by ring.
          apply Z.mod_mul. lia. }
        assert (Elx : lx = loc_Exact).
        { unfold lx. rewrite Erem, Z.mul_0_l. apply new_location_exact. }
        assert (Emod : q mod 2 ^ n = 0).
        { rewrite Eqt, Hsck, Z.mul_assoc. apply Z.mod_mul. lia. }
        rewrite (Hexact Elx Emod), Eq', EK. nia.
      - (* b does not divide a *)
        assert (EK : K = a / b + 1).
        { unfold K. symmetry. apply (Z.div_unique _ _ _ (a mod b - 1)); lia. }
        assert (Eq' : a * sc / b = a / b * sc + (a mod b) * sc / b).
        { set (t := a / b) in *. set (u := a mod b) in *.
          replace (a * sc) with (t * sc * b + u * sc) by (rewrite Hab; ring).
          rewrite Z.div_add_l by lia. reflexivity. }
        assert (Hlo : 1 <= a mod b * sc / b).
        { apply Z.div_le_lower_bound; [lia |]. nia. }
        assert (Hhi : a mod b * sc / b <= sc - 1).
        { assert (a mod b * sc / b < sc); [| lia].
          apply Z.div_lt_upper_bound; [lia |]. nia. }
        rewrite EK. destruct Hval as [-> | ->]; rewrite Eq'; nia. }
    cbn [f_ceil cond_Zopp].
    fold K. f_equal.
    assert (HT : 0 < 2 ^ (e - (n - k))) by (apply Z.pow_pos_nonneg; lia).
    destruct (Z.leb_spec 0 e) as [He | He].
    + assert (E2 : 2 ^ (e - (n - k)) = 2 ^ e * sc).
      { unfold sc. rewrite <- Z.pow_add_r by lia. f_equal. lia. }
      assert (0 < 2 ^ e) by (apply Z.pow_pos_nonneg; lia).
      unfold Q in HK. rewrite E2 in HK. nia.
    + assert (HU : 0 < 2 ^ (- e)) by (apply Z.pow_pos_nonneg; lia).
      assert (E2 : sc = 2 ^ (- e) * 2 ^ (e - (n - k))).
      { unfold sc. rewrite <- Z.pow_add_r by lia. f_equal. lia. }
      unfold Q in HK. rewrite E2 in HK.
      assert (Hm : (K - 1) * 2 ^ (- e) < Zpos m <= K * 2 ^ (- e)) by nia.
      assert ((- Zpos m) / 2 ^ (- e) = - K); [| lia].
      symmetry. apply (Z.div_unique _ _ _ (K * 2 ^ (- e) - Zpos m)); lia.
Qed.

(** [d_taps_per_filter = (unsigned int)ceil((double)ntaps/(double)d_int_rate)]
    is the ceiling of ntaps / d_int_rate. *)
Lemma taps_per_filter_ceil (ntaps N : Z) :
  0 <= ntaps < UINT_MOD -> 1 <= N < UINT_MOD ->
  taps_per_filter ntaps N = Ok ((ntaps + N - 1) / N).
Proof.
  intros HL HN. unfold taps_per_filter, UINT_MOD in *.
  destruct (Z.eq_dec ntaps 0) as [-> | Hne].
  - destruct (f64_of_Z_exact N ltac:(lia)) as (m & -> & _).
    cbn. rewrite Z.div_small by lia. reflexivity.
  - rewrite f64_div_ceil by lia.
    assert (0 <= (ntaps + N - 1) / N < 2 ^ 32).
    { split; [apply Z.div_pos; lia |].
      apply Z.div_lt_upper_bound; [lia |]. nia. }
    unfold cast_uint, UINT_MOD.
    destruct (Z.leb_spec 0 ((ntaps + N - 1) / N)); [| lia].
    destruct (Z.ltb_spec ((ntaps + N - 1) / N) (2 ^ 32)); [reflexivity | lia].
Qed.

(** ** Building the banks *)

Lemma ceil_div_bounds (L N : Z) :
  0 <= L -> 1 <= N ->
  L <= N * ((L + N - 1) / N) < L + N /\ 0 <= (L + N - 1) / N.
Proof.
  intros HL HN.
  pose proof (Z.div_mod (L + N - 1) N ltac:(lia)) as Hdm.
  pose proof (Z.mod_pos_bound (L + N - 1) N ltac:(lia)) as Hr.
  split; [lia |]. apply Z.div_pos; lia.
Qed.

(** [create_taps] with the number of taps per filter it computes. *)
Lemma create_taps_ceil (fuel : nat) (N : Z) (newtaps : list float32)
    (ourtaps ourfilter : list (list float32)) :
  1 <= N < UINT_MOD ->
  N * ((size newtaps + N - 1) / N) < 2 ^ 24 ->
  size ourfilter = N ->
  (Z.to_nat N <= fuel)%nat ->
  create_taps fuel N newtaps ourtaps ourfilter
  = Ok ((size newtaps + N - 1) / N,
        rev (strides (padded N ((size newtaps + N - 1) / N) newtaps) N
               ((size newtaps + N - 1) / N)),
        strides (padded N ((size newtaps + N - 1) / N) newtaps) N
          ((size newtaps + N - 1) / N)).
Proof.
  intros HN Hsmall Hfilt Hfuel.
  assert (HL : 0 <= size newtaps) by (unfold size; lia).
  destruct (ceil_div_bounds (size newtaps) N HL ltac:(lia)) as [HK HK0].
  apply create_taps_small; try assumption; try lia.
  rewrite uint_small by (unfold UINT_MOD; lia).
  apply taps_per_filter_ceil; unfold UINT_MOD in *; lia.
Qed.

(** The rows of [strides]: filter [i] holds the taps [i, i+N, i+2N, ...]
    of the prototype followed by zeros. *)
Lemma strides_rows (N : Z) (newtaps : list float32) :
  1 <= N ->
  size (strides (padded N ((size newtaps + N - 1) / N) newtaps) N
          ((size newtaps + N - 1) / N)) = N
  /\ forall i : nat, (i < Z.to_nat N)%nat ->
       size (nth i (strides (padded N ((size newtaps + N - 1) / N) newtaps) N
                      ((size newtaps + N - 1) / N)) [])
       = (size newtaps + N - 1) / N
       /\ forall j : nat, (j < Z.to_nat ((size newtaps + N - 1) / N))%nat ->
            nth j (nth i (strides (padded N ((size newtaps + N - 1) / N) newtaps) N
                            ((size newtaps + N - 1) / N)) []) S754_nan
            = nth (i + j * Z.to_nat N)
                (newtaps ++ repeat (f32_of_Z 0) (Z.to_nat N)) S754_nan.
Proof.
  intros HN.
  assert (HL : 0 <= size newtaps) by (unfold size; lia).
  destruct (ceil_div_bounds (size newtaps) N HL HN) as [HK HK0].
  set (K := (size newtaps + N - 1) / N) in *.
  split; [unfold size; rewrite length_strides; lia |].
  intros i Hi. rewrite nth_strides by exact Hi. split.
  - unfold size, stride. rewrite length_map, length_seq. lia.
  - intros j Hj. rewrite nth_stride by exact Hj.
    assert (Hidx : (i + j * Z.to_nat N < Z.to_nat (N * K))%nat).
    { rewrite Z2Nat.inj_mul by lia. nia. }
    unfold padded.
    destruct (Nat.lt_ge_cases (i + j * Z.to_nat N) (length newtaps)) as [Hin | Hout].
    + now rewrite !app_nth1 by exact Hin.
    + rewrite !app_nth2 by exact Hout.
      unfold size in *.
      rewrite !nth_repeat_lt by lia. reflexivity.
Qed.

(** X1.  The partition of a prototype of L taps over N filters, whenever the
    bank stays below 2^24 coefficients: [create_taps] sets
    [d_taps_per_filter] to ceil(L/N), hands filter [i] the taps
    [i, i+N, i+2N, ...] of the zero-padded prototype, and stores the same
    rows in reverse order in [ourtaps]. *)
Theorem create_taps_partition (fuel : nat) (N : Z) (newtaps : list float32)
    (ourtaps ourfilter : list (list float32)) :
  1 <= N < UINT_MOD ->
  N * ((size newtaps + N - 1) / N) < 2 ^ 24 ->
  size ourfilter = N ->
  (Z.to_nat N <= fuel)%nat ->
  exists t f : list (list float32),
    create_taps fuel N newtaps ourtaps ourfilter
    = Ok ((size newtaps + N - 1) / N, t, f)
    /\ size f = N /\ t = rev f
    /\ (forall i : nat, (i < Z.to_nat N)%nat ->
          size (nth i f []) = (size newtaps + N - 1) / N)
    /\ (forall i j : nat, (i < Z.to_nat N)%nat ->
          (j < Z.to_nat ((size newtaps + N - 1) / N))%nat ->
          nth j (nth i f []) S754_nan
          = nth (i + j * Z.to_nat N) (newtaps ++ repeat (f32_of_Z 0) (Z.to_nat N))
              S754_nan).
Proof.
  intros HN Hsmall Hfilt Hfuel.
  destruct (strides_rows N newtaps ltac:(lia)) as [Hsize Hrows].
  eexists. eexists.
  split; [now apply create_taps_ceil |].
  split; [exact Hsize |]. split; [reflexivity |].
  split.
  - intros i Hi. now apply Hrows.
  - intros i j Hi Hj. now apply Hrows.
Qed.

Lemma create_taps_partition_witness :
  1 <= 2 < UINT_MOD
  /\ 2 * ((size proto + 2 - 1) / 2) < 2 ^ 24
  /\ exists t f : list (list float32),
       create_taps 2 2 proto [] [[]; []] = Ok ((size proto + 2 - 1) / 2, t, f)
       /\ size f = 2 /\ t = rev f
       /\ (forall i : nat, (i < Z.to_nat 2)%nat ->
             size (nth i f []) = (size proto + 2 - 1) / 2)
       /\ (forall i j : nat, (i < Z.to_nat 2)%nat ->
             (j < Z.to_nat ((size proto + 2 - 1) / 2))%nat ->
             nth j (nth i f []) S754_nan
             = nth (i + j * Z.to_nat 2) (proto ++ repeat (f32_of_Z 0) (Z.to_nat 2))
                 S754_nan).
Proof.
  split; [vm_compute; intuition discriminate |].
  split; [vm_compute; reflexivity |].
  apply (create_taps_partition 2 2 proto [] [[]; []]).
  - vm_compute. intuition discriminate.
  - vm_compute. reflexivity.
  - reflexivity.
  - vm_compute. lia.
Defined.

(** X2.  The number of taps per filter, whatever the sizes: the quotient
    [(double)ntaps/(double)d_int_rate] is rounded, but its ceiling is the
    ceiling of the exact quotient, so that whenever [create_taps] returns,
    [d_taps_per_filter] is ceil(L/N), the least number of taps per filter
    with which N filters hold L taps. *)
Theorem create_taps_taps_per_filter (fuel : nat) (N : Z) (newtaps : list float32)
    (ourtaps ourfilter : list (list float32)) (tpf : Z)
    (t f : list (list float32)) :
  1 <= N < UINT_MOD ->
  size newtaps < UINT_MOD ->
  create_taps fuel N newtaps ourtaps ourfilter = Ok (tpf, t, f) ->
  tpf = (size newtaps + N - 1) / N
  /\ size newtaps <= N * tpf < size newtaps + N.
Proof.
  intros HN HL Hrun.
  assert (HL0 : 0 <= size newtaps) by (unfold size; lia).
  unfold create_taps, pad_taps in Hrun.
  rewrite uint_small, taps_per_filter_ceil in Hrun by lia.
  cbn [bind] in Hrun.
  destruct (pad_loop fuel _ newtaps) as [tmp | | |]; cbn [bind] in Hrun;
    try discriminate.
  destruct (for_loop _ 0 (Z.to_nat N) _) as [[t' f'] | | |]; cbn [bind] in Hrun;
    try discriminate.
  injection Hrun as <- _ _.
  split; [reflexivity |].
  apply (ceil_div_bounds (size newtaps) N); lia.
Qed.

Lemma create_taps_taps_per_filter_witness :
  1 <= 2 < UINT_MOD
  /\ size proto < UINT_MOD
  /\ exists t f : list (list float32),
       create_taps 2 2 proto [] [[]; []] = Ok (3, t, f)
       /\ 3 = (size proto + 2 - 1) / 2
       /\ size proto <= 2 * 3 < size proto + 2.
Proof.
  split; [vm_compute; intuition discriminate |].
  split; [vm_compute; reflexivity |].
  eexists. eexists. split; [vm_compute; reflexivity |].
  eapply (create_taps_taps_per_filter 2 2 proto [] [[]; []] 3).
  - vm_compute. intuition discriminate.
  - vm_compute. reflexivity.
  - vm_compute. reflexivity.
Defined.

Lemma size_create_diff_taps (fuel : nat) (newtaps dtaps : list float32) :
  (2 <= length newtaps)%nat ->
  size newtaps <= UINT_MOD ->
  (length newtaps <= fuel)%nat ->
  create_diff_taps fuel newtaps = Ok dtaps -> size dtaps = size newtaps.
Proof.
  intros HL Hsize Hfuel Hrun.
  rewrite create_diff_taps_run in Hrun by assumption.
  injection Hrun as <-. unfold size.
  rewrite length_app, length_map, length_seq. cbn [length]. lia.
Qed.

(** [set_taps] run through: the derivative taps, then the two
    partitions. *)
Lemma set_taps_run (fuel : nat) (r : resampler) (newtaps : list float32) :
  1 <= d_int_rate r < UINT_MOD ->
  (2 <= length newtaps)%nat ->
  d_int_rate r * ((size newtaps + d_int_rate r - 1) / d_int_rate r) < 2 ^ 24 ->
  size (d_filters r) = d_int_rate r ->
  size (d_diff_filters r) = d_int_rate r ->
  (Z.to_nat (d_int_rate r) <= fuel)%nat ->
  (length newtaps <= fuel)%nat ->
  exists dtaps : list float32,
    create_diff_taps fuel newtaps = Ok dtaps
    /\ size dtaps = size newtaps
    /\ set_taps fuel r newtaps
       = Ok (mk_resampler
               (strides (padded (d_int_rate r)
                           ((size newtaps + d_int_rate r - 1) / d_int_rate r) newtaps)
                  (d_int_rate r) ((size newtaps + d_int_rate r - 1) / d_int_rate r))
               (strides (padded (d_int_rate r)
                           ((size dtaps + d_int_rate r - 1) / d_int_rate r) dtaps)
                  (d_int_rate r) ((size dtaps + d_int_rate r - 1) / d_int_rate r))
               (rev (strides (padded (d_int_rate r)
                                ((size newtaps + d_int_rate r - 1) / d_int_rate r) newtaps)
                       (d_int_rate r) ((size newtaps + d_int_rate r - 1) / d_int_rate r)))
               (rev (strides (padded (d_int_rate r)
                                ((size dtaps + d_int_rate r - 1) / d_int_rate r) dtaps)
                       (d_int_rate r) ((size dtaps + d_int_rate r - 1) / d_int_rate r)))
               (d_int_rate r) (d_dec_rate r) (d_flt_rate r) (d_acc r)
               (d_last_filter r)
               ((size dtaps + d_int_rate r - 1) / d_int_rate r)).
Proof.
  intros HN HL Hsmall Hbank Hdbank Hfuel Hfuel'.
  assert (Hsize : size newtaps <= UINT_MOD).
  { pose proof (ceil_div_bounds (size newtaps) (d_int_rate r)
                  ltac:(unfold size; lia) ltac:(lia)) as [Hc _].
    unfold UINT_MOD. change (2 ^ 24) with 16777216 in Hsmall.
    change (2 ^ 32) with 4294967296. lia. }
  pose proof (create_diff_taps_run fuel newtaps HL Hsize Hfuel') as Ediff.
  set (dtaps := map (diff_at newtaps) (seq 0 (length newtaps - 1))
                ++ [diff_at newtaps (length newtaps - 2)]) in *.
  pose proof (size_create_diff_taps fuel newtaps dtaps HL Hsize Hfuel' Ediff)
    as Hdsize.
  exists dtaps. split; [exact Ediff |]. split; [exact Hdsize |].
  unfold set_taps. rewrite Ediff. cbn [bind].
  rewrite (create_taps_ceil fuel (d_int_rate r) newtaps) by assumption.
  cbn [bind].
  rewrite (create_taps_ceil fuel (d_int_rate r) dtaps)
    by (try assumption; rewrite Hdsize; assumption).
  reflexivity.
Qed.

(** X3.  [set_taps] on a prototype of L >= 2 taps, for a bank below 2^24
    coefficients: both banks get N filters of ceil(L/N) taps, filter [i]
    of the first holding the taps [i, i+N, ...] of the zero-padded
    prototype and filter [i] of the second those of its zero-padded
    differences; [taps()] is the first bank in reverse order; the rates,
    the accumulator and the filter index are left as they were. *)
Theorem set_taps_banks (fuel : nat) (r : resampler) (newtaps : list float32) :
  1 <= d_int_rate r < UINT_MOD ->
  (2 <= length newtaps)%nat ->
  d_int_rate r * ((size newtaps + d_int_rate r - 1) / d_int_rate r) < 2 ^ 24 ->
  size (d_filters r) = d_int_rate r ->
  size (d_diff_filters r) = d_int_rate r ->
  (Z.to_nat (d_int_rate r) <= fuel)%nat ->
  (length newtaps <= fuel)%nat ->
  exists (r' : resampler) (dtaps : list float32),
    set_taps fuel r newtaps = Ok r'
    /\ create_diff_taps fuel newtaps = Ok dtaps
    /\ d_taps_per_filter r' = (size newtaps + d_int_rate r - 1) / d_int_rate r
    /\ size (d_filters r') = d_int_rate r
    /\ size (d_diff_filters r') = d_int_rate r
    /\ (forall i : nat, (i < Z.to_nat (d_int_rate r))%nat ->
          size (nth i (d_filters r') []) = d_taps_per_filter r'
          /\ size (nth i (d_diff_filters r') []) = d_taps_per_filter r')
    /\ (forall i j : nat, (i < Z.to_nat (d_int_rate r))%nat ->
          (j < Z.to_nat (d_taps_per_filter r'))%nat ->
          nth j (nth i (d_filters r') []) S754_nan
          = nth (i + j * Z.to_nat (d_int_rate r))
              (newtaps ++ repeat (f32_of_Z 0) (Z.to_nat (d_int_rate r))) S754_nan
          /\ nth j (nth i (d_diff_filters r') []) S754_nan
             = nth (i + j * Z.to_nat (d_int_rate r))
                 (dtaps ++ repeat (f32_of_Z 0) (Z.to_nat (d_int_rate r))) S754_nan)
    /\ taps r' = rev (d_filters r')
    /\ d_int_rate r' = d_int_rate r
    /\ d_dec_rate r' = d_dec_rate r /\ d_flt_rate r' = d_flt_rate r
    /\ d_acc r' = d_acc r /\ d_last_filter r' = d_last_filter r.
Proof.
  intros HN HL Hsmall Hbank Hdbank Hfuel Hfuel'.
  destruct (set_taps_run fuel r newtaps HN HL Hsmall Hbank Hdbank Hfuel Hfuel')
    as (dtaps & Ediff & Hdsize & Erun).
  rewrite Hdsize in Erun.
  destruct (strides_rows (d_int_rate r) newtaps ltac:(lia)) as [Hsize Hrows].
  destruct (strides_rows (d_int_rate r) dtaps ltac:(lia)) as [Hdsz Hdrows].
  rewrite Hdsize in Hdsz, Hdrows.
  eexists. exists dtaps.
  split; [exact Erun |].
  cbn [d_taps_per_filter d_filters d_diff_filters d_int_rate d_dec_rate d_flt_rate
       d_acc d_last_filter taps d_taps].
  split; [exact Ediff |]. split; [reflexivity |].
  split; [exact Hsize |]. split; [exact Hdsz |].
  split; [intros i Hi; split; [now apply Hrows | now apply Hdrows] |].
  split; [intros i j Hi Hj; split; [now apply Hrows | now apply Hdrows] |].
  repeat split.
Qed.

Lemma set_taps_banks_witness :
  1 <= d_int_rate interp15 < UINT_MOD
  /\ d_int_rate interp15 * ((size proto + d_int_rate interp15 - 1) / d_int_rate interp15)
     < 2 ^ 24
  /\ exists (r' : resampler) (dtaps : list float32),
       set_taps 5 interp15 proto = Ok r'
       /\ create_diff_taps 5 proto = Ok dtaps
       /\ d_taps_per_filter r' = (size proto + d_int_rate interp15 - 1) / d_int_rate interp15
       /\ size (d_filters r') = d_int_rate interp15
       /\ size (d_diff_filters r') = d_int_rate interp15
       /\ (forall i : nat, (i < Z.to_nat (d_int_rate interp15))%nat ->
             size (nth i (d_filters r') []) = d_taps_per_filter r'
             /\ size (nth i (d_diff_filters r') []) = d_taps_per_filter r')
       /\ (forall i j : nat, (i < Z.to_nat (d_int_rate interp15))%nat ->
             (j < Z.to_nat (d_taps_per_filter r'))%nat ->
             nth j (nth i (d_filters r') []) S754_nan
             = nth (i + j * Z.to_nat (d_int_rate interp15))
                 (proto ++ repeat (f32_of_Z 0) (Z.to_nat (d_int_rate interp15))) S754_nan
             /\ nth j (nth i (d_diff_filters r') []) S754_nan
                = nth (i + j * Z.to_nat (d_int_rate interp15))
                    (dtaps ++ repeat (f32_of_Z 0) (Z.to_nat (d_int_rate interp15)))
                    S754_nan)
       /\ taps r' = rev (d_filters r')
       /\ d_int_rate r' = d_int_rate interp15
       /\ d_dec_rate r' = d_dec_rate interp15 /\ d_flt_rate r' = d_flt_rate interp15
       /\ d_acc r' = d_acc interp15 /\ d_last_filter r' = d_last_filter interp15.
Proof.
  split; [vm_compute; intuition discriminate |].
  split; [vm_compute; reflexivity |].
  apply (set_taps_banks 5 interp15 proto).
  - vm_compute. intuition discriminate.
  - vm_compute. lia.
  - vm_compute. reflexivity.
  - reflexivity.
  - reflexivity.
  - vm_compute. lia.
  - vm_compute. lia.
Defined.

(** ** Printing the taps *)

Lemma print_tap_loop (r : resampler) (i : nat) (n : nat) :
  forall (lo : nat) (out : list printed),
    (i < length (d_taps r))%nat ->
    (lo + n <= length (nth i (d_taps r) []))%nat ->
    for_loop (print_tap_body r (Z.of_nat i)) (Z.of_nat lo) n out
    = Ok (out ++ map print_tap (firstn n (skipn lo (nth i (d_taps r) [])))).
Proof.
  induction n as [| n IH]; intros lo out Hi Hlo.
  - cbn [for_loop firstn map]. now rewrite app_nil_r.
  - cbn [for_loop]. unfold print_tap_body at 1.
    rewrite (read_in_range (d_taps r) i []) by exact Hi. cbn [bind].
    rewrite (read_in_range (nth i (d_taps r) []) lo S754_nan) by lia. cbn [bind].
    replace (Z.of_nat lo + 1) with (Z.of_nat (S lo)) by lia.
    rewrite IH by (assumption || lia).
    rewrite <- app_assoc. f_equal. f_equal.
    assert (Hsk : skipn lo (nth i (d_taps r) [])
                  = nth lo (nth i (d_taps r) []) S754_nan
                    :: skipn (S lo) (nth i (d_taps r) [])).
    { generalize dependent lo. generalize (nth i (d_taps r) []).
      induction l as [| a l IHl]; intros lo Hlo; cbn [length] in Hlo; [lia |].
      destruct lo as [| lo]; [reflexivity |].
      cbn [skipn nth]. apply IHl. lia. }
    rewrite Hsk. reflexivity.
Qed.

Lemma print_filter_loop (r : resampler) (n : nat) :
  forall (lo : nat) (out : list printed),
    (lo + n = length (d_taps r))%nat ->
    Z.of_nat (length (d_taps r)) <= INT_MAX + 1 ->
    (forall row : list float32, In row (d_taps r) ->
       size row = d_taps_per_filter r) ->
    for_loop (print_filter_body r) (Z.of_nat lo) n out
    = Ok (out ++ printed_rows (Z.of_nat lo) (skipn lo (d_taps r))).
Proof.
  induction n as [| n IH]; intros lo out Hlo Hmax Hrect.
  - cbn [for_loop]. rewrite skipn_all2 by lia. cbn [printed_rows].
    now rewrite app_nil_r.
  - cbn [for_loop]. unfold print_filter_body at 1.
    assert (Hin : In (nth lo (d_taps r) []) (d_taps r)) by (apply nth_In; lia).
    pose proof (Hrect _ Hin) as Hrow. unfold size in Hrow.
    change 0 with (Z.of_nat 0).
    rewrite print_tap_loop by lia.
    cbn [bind skipn].
    rewrite firstn_all2 by lia.
    replace (Z.of_nat lo + 1) with (Z.of_nat (S lo)) by lia.
    rewrite IH by (assumption || lia).
    assert (Hsk : skipn lo (d_taps r)
                  = nth lo (d_taps r) [] :: skipn (S lo) (d_taps r)).
    { assert (Hlt : (lo < length (d_taps r))%nat) by lia.
      revert Hlt. generalize (d_taps r). clear.
      induction lo as [| lo IHlo]; intros l Hlt;
        destruct l as [| a l]; cbn [length] in Hlt; try lia; [reflexivity |].
      cbn [skipn nth]. apply IHlo. lia. }
    rewrite Hsk. cbn [printed_rows].
    assert (Eint : int_of_uint (Z.of_nat lo) = Z.of_nat lo).
    { unfold int_of_uint. destruct (Z.leb_spec (Z.of_nat lo) INT_MAX); [reflexivity | lia]. }
    rewrite Eint.
    replace (Z.of_nat lo + 1) with (Z.of_nat (S lo)) by lia.
    rewrite <- !app_assoc. reflexivity.
Qed.

(** X7.  On an engine whose tap matrix has [d_int_rate] rows of
    [d_taps_per_filter] taps each (as [set_taps] leaves it), [print_taps]
    reads inside the matrix and prints it row by row: for each row its
    index, its taps in order, and the closing bracket. *)
Theorem print_taps_prints_matrix (r : resampler) :
  size (d_taps r) = d_int_rate r ->
  d_int_rate r <= INT_MAX + 1 ->
  (forall row : list float32, In row (d_taps r) ->
     size row = d_taps_per_filter r) ->
  print_taps r = Ok (printed_rows 0 (taps r)).
Proof.
  intros Hsize Hmax Hrect. unfold print_taps, taps.
  unfold size in Hsize. rewrite <- Hsize, Nat2Z.id.
  change 0 with (Z.of_nat 0).
  rewrite print_filter_loop by (try assumption; lia).
  reflexivity.
Qed.

Lemma print_taps_prints_matrix_witness :
  size (d_taps interp15) = d_int_rate interp15
  /\ d_int_rate interp15 <= INT_MAX + 1
  /\ print_taps interp15 = Ok (printed_rows 0 (taps interp15)).
Proof.
  split; [reflexivity |].
  split; [vm_compute; discriminate |].
  apply (print_taps_prints_matrix interp15).
  - reflexivity.
  - vm_compute. discriminate.
  - intros row Hin. cbn in Hin.
    repeat (destruct Hin as [<- | Hin]; [reflexivity |]). destruct Hin.
Defined.

(** ** The constructor *)

(** X4.  The constructor, for a positive rate whose quotient N/rate fits
    [unsigned int], a prototype of at least two taps and a bank below 2^24
    coefficients: the engine starts at filter 0 with a zero accumulator,
    the rates are those of [set_rate], the fractional rate lies in
    [[0, 1)], both banks hold N filters, and the banks are those of
    [set_taps] (setting the same taps again changes nothing). *)
Theorem constructor_builds (fuel : nat) (rate : float32) (newtaps : list float32)
    (filter_size q : Z) :
  1 <= filter_size < UINT_MOD ->
  (2 <= length newtaps)%nat ->
  filter_size * ((size newtaps + filter_size - 1) / filter_size) < 2 ^ 24 ->
  (Z.to_nat filter_size <= fuel)%nat ->
  (length newtaps <= fuel)%nat ->
  f32_ltb (f32_of_Z 0) rate = true ->
  f_floor (f32_div (f32_of_Z filter_size) rate) = Some q ->
  q < 2 ^ 32 ->
  exists r : resampler,
    pfb_arb_resampler_ccf fuel rate newtaps filter_size = Ok r
    /\ d_int_rate r = filter_size
    /\ d_dec_rate r = q
    /\ d_flt_rate r = fmodf1 (f32_div (f32_of_Z filter_size) rate)
    /\ unit_range (d_flt_rate r)
    /\ d_acc r = S754_zero false
    /\ d_last_filter r = 0
    /\ state_invariant r
    /\ size (d_filters r) = filter_size
    /\ size (d_diff_filters r) = filter_size
    /\ d_taps_per_filter r = (size newtaps + filter_size - 1) / filter_size
    /\ set_taps fuel r newtaps = Ok r.
Proof.
  intros HN HL Hsmall Hfuel Hfuel' Hrate Hq Hlt.
  set (r0 := mk_resampler [] [] [] [] filter_size 0 (f32_of_Z 0) (f32_of_Z 0) 0 0).
  assert (Hshape : nonneg_finite (rate_quotient r0 rate)).
  { apply (rate_quotient_shape r0 rate q); [cbn; lia | exact Hrate | exact Hq]. }
  pose proof (f_floor_nonneg _ _ Hshape Hq) as Hq0.
  pose proof (f32_sub_floor _ _ Hshape Hq) as Hsub.
  assert (Hunit : unit_range (fmodf1 (rate_quotient r0 rate))).
  { destruct Hshape as [-> | (m & e & -> & Hb)];
      [exact I | now apply fmodf1_unit_range]. }
  unfold rate_quotient in Hsub, Hunit. cbn [r0 d_int_rate] in Hsub, Hunit.
  assert (Erate : set_rate r0 rate
                  = Ok (with_rate r0 q (fmodf1 (f32_div (f32_of_Z filter_size) rate)))).
  { unfold set_rate, rate_quotient. cbn [r0 d_int_rate]. rewrite Hq.
    unfold cast_uint, UINT_MOD.
    destruct (Z.leb_spec 0 q); [| lia].
    destruct (Z.ltb_spec q (2 ^ 32)); [| lia].
    cbn [andb bind]. now rewrite Hsub. }
  unfold pfb_arb_resampler_ccf. fold r0. rewrite Erate. cbn [bind].
  cbn [with_rate r0 d_dec_rate d_flt_rate d_acc].
  set (n := Z.to_nat filter_size).
  set (r2 := mk_resampler (repeat [] n) (repeat [] n) [] [] filter_size q _ _ 0 0).
  assert (Hrep : size (repeat (@nil float32) n) = filter_size).
  { unfold size, n. rewrite repeat_length. lia. }
  destruct (set_taps_run fuel r2 newtaps) as (dtaps & Ediff & Hdsize & Erun);
    cbn [r2 d_int_rate d_filters d_diff_filters]; try assumption.
  cbn [r2 d_int_rate d_dec_rate d_flt_rate d_acc d_last_filter] in Erun.
  rewrite Erun. eexists. split; [reflexivity |].
  cbn [d_int_rate d_dec_rate d_flt_rate d_acc d_last_filter d_filters d_diff_filters
       d_taps_per_filter].
  destruct (strides_rows filter_size newtaps ltac:(lia)) as [Hsize _].
  destruct (strides_rows filter_size dtaps ltac:(lia)) as [Hdsz _].
  split; [reflexivity |]. split; [reflexivity |]. split; [reflexivity |].
  split; [exact Hunit |].
  split; [reflexivity |]. split; [reflexivity |].
  split; [split; [unfold index_in_range; cbn; lia | exact I] |].
  split; [exact Hsize |]. split; [exact Hdsz |].
  split; [now rewrite Hdsize |].
  set (r := mk_resampler _ _ _ _ _ _ _ _ _ _).
  destruct (set_taps_run fuel r newtaps) as (dtaps' & Ediff' & _ & Erun');
    cbn [r d_int_rate d_filters d_diff_filters]; try assumption.
  assert (dtaps' = dtaps) by congruence. subst dtaps'.
  rewrite Erun'. reflexivity.
Qed.

Lemma constructor_builds_witness :
  1 <= 3 < UINT_MOD
  /\ f32_ltb (f32_of_Z 0) (B32 3 (-1)) = true
  /\ f_floor (f32_div (f32_of_Z 3) (B32 3 (-1))) = Some 2
  /\ exists r : resampler,
       pfb_arb_resampler_ccf 16 (B32 3 (-1)) proto 3 = Ok r
       /\ d_int_rate r = 3
       /\ d_dec_rate r = 2
       /\ d_flt_rate r = fmodf1 (f32_div (f32_of_Z 3) (B32 3 (-1)))
       /\ unit_range (d_flt_rate r)
       /\ d_acc r = S754_zero false
       /\ d_last_filter r = 0
       /\ state_invariant r
       /\ size (d_filters r) = 3
       /\ size (d_diff_filters r) = 3
       /\ d_taps_per_filter r = (size proto + 3 - 1) / 3
       /\ set_taps 16 r proto = Ok r.
Proof.
  split; [vm_compute; intuition discriminate |].
  split; [reflexivity |].
  split; [reflexivity |].
  apply (constructor_builds 16 (B32 3 (-1)) proto 3 2).
  - vm_compute. intuition discriminate.
  - vm_compute. lia.
  - vm_compute. reflexivity.
  - vm_compute. lia.
  - vm_compute. lia.
  - reflexivity.
  - reflexivity.
  - reflexivity.
Defined.

(** ** Degenerate arguments *)

Lemma set_rate_Ok_or_Undefined (r : resampler) (rate : float32) :
  set_rate r rate = Undefined \/ exists r' : resampler, set_rate r rate = Ok r'.
Proof.
  unfold set_rate.
  destruct (cast_uint (f_floor (rate_quotient r rate))) as [dec | | |] eqn:E;
    cbn [bind].
  - right. eexists. reflexivity.
  - unfold cast_uint in E. destruct (f_floor _) as [n |]; [| discriminate].
    destruct ((0 <=? n) && (n <? UINT_MOD)); discriminate.
  - now left.
  - unfold cast_uint in E. destruct (f_floor _) as [n |]; [| discriminate].
    destruct ((0 <=? n) && (n <? UINT_MOD)); discriminate.
Qed.

Lemma create_diff_taps_Ok_or_Undefined (fuel : nat) (newtaps : list float32) :
  size newtaps <= UINT_MOD ->
  (length newtaps < fuel)%nat ->
  create_diff_taps fuel newtaps = Undefined
  \/ exists dtaps : list float32, create_diff_taps fuel newtaps = Ok dtaps.
Proof.
  intros Hsize Hfuel.
  destruct newtaps as [| t [| t' rest]] eqn:Etaps.
  - left. destruct fuel as [| fuel]; [cbn [length] in Hfuel; lia |].
    vm_compute. reflexivity.
  - left. destruct fuel as [| fuel]; [cbn [length] in Hfuel; lia |].
    vm_compute. reflexivity.
  - right. eexists. apply create_diff_taps_run;
      [cbn [length]; lia | exact Hsize | lia].
Qed.

Lemma taps_per_filter_zero (ntaps : Z) : taps_per_filter ntaps 0 = Undefined.
Proof.
  unfold taps_per_filter. change (f64_of_Z 0) with (S754_zero false).
  destruct (f64_of_Z ntaps) as [s | s | | s m e]; reflexivity.
Qed.

(** X6.  With [filter_size = 0] the behaviour of the constructor is
    undefined, whatever the rate and the taps (at most 2^32 of them): the
    number of taps per filter is ceil(L/0), a NaN or an infinity, whose
    conversion to [unsigned int] is undefined. *)
Theorem constructor_zero_filters (fuel : nat) (rate : float32)
    (newtaps : list float32) :
  size newtaps <= UINT_MOD ->
  (length newtaps < fuel)%nat ->
  pfb_arb_resampler_ccf fuel rate newtaps 0 = Undefined.
Proof.
  intros Hsize Hfuel. unfold pfb_arb_resampler_ccf.
  destruct (set_rate_Ok_or_Undefined
              (mk_resampler [] [] [] [] 0 0 (f32_of_Z 0) (f32_of_Z 0) 0 0)
              rate) as [-> | [r1 ->]]; cbn [bind]; [reflexivity |].
  unfold set_taps.
  destruct (create_diff_taps_Ok_or_Undefined fuel newtaps Hsize Hfuel)
    as [-> | [dtaps ->]]; cbn [bind]; [reflexivity |].
  cbn [d_int_rate]. unfold create_taps at 1, pad_taps.
  now rewrite taps_per_filter_zero.
Qed.

Lemma constructor_zero_filters_witness :
  size proto <= UINT_MOD
  /\ pfb_arb_resampler_ccf 6 (f32_of_Z 1) proto 0 = Undefined.
Proof.
  assert (Hsize : size proto <= UINT_MOD) by (vm_compute; discriminate).
  split; [exact Hsize |].
  apply (constructor_zero_filters 6 (f32_of_Z 1) proto Hsize).
  vm_compute. lia.
Defined.

(** ** The rate *)

(** The number of filters as a [float]: a positive number, at least 1. *)
Lemma f32_of_Z_pos (n : Z) :
  1 <= n < UINT_MOD ->
  exists (m : positive) (e : Z),
    f32_of_Z n = S754_finite false m e
    /\ bounded prec32 emax32 m e = true
    /\ 1 <= Zpos (digits2_pos m) + e.
Proof.
  intros Hn. destruct n as [| p | p]; try lia.
  assert (Hd : 1 <= Zdigits2 (Zpos p) <= 32).
  { split; [apply (Zdigits2_pos_bounds (Zpos p)); lia |].
    apply Zdigits2_le; unfold UINT_MOD in *; lia. }
  unfold f32_of_Z, B32. cbn [binary_normalize]. unfold binary_round.
  change (Zpos (digits2_pos p)) with (Zdigits2 (Zpos p)).
  set (d := Zdigits2 (Zpos p)) in *.
  assert (Efx : fexp prec32 emax32 (d + 0) = d - 24).
  { rewrite fexp32_eq. lia. }
  rewrite Efx.
  pose proof (shl_align_spec p 0 (d - 24)) as Hv.
  pose proof (shl_align_digits p 0 (d - 24)) as Hdg.
  destruct (shl_align p 0 (d - 24)) as [mz ez]. destruct Hv as [Hez Hmz].
  change (Zpos (digits2_pos p)) with d in Hdg.
  change (Zpos (digits2_pos mz)) with (Zdigits2 (Zpos mz)) in Hdg.
  assert (HE : fexp prec32 emax32 (Zdigits2 (Zpos mz) + ez) = d - 24).
  { rewrite Hdg, fexp32_eq. lia. }
  destruct (binary_round_aux_value prec32 emax32 ltac:(reflexivity) false
              (Zpos mz) ez loc_Exact ltac:(lia))
    as [[_ Hz] | [[_ Hbig] | (m & e & -> & Hb & Hge & Hval & _)]].
  - rewrite HE. lia.
  - exfalso. rewrite HE in Hz.
    assert (Hdq : Zdigits2 (Zpos mz / 2 ^ (d - 24 - ez)) = 24).
    { rewrite Zdigits2_div_pow2 by lia. lia. }
    rewrite Hz in Hdq. cbn in Hdq. lia.
  - exfalso. rewrite HE in Hbig. unfold emax32, prec32 in Hbig. lia.
  - exists m, e. split; [reflexivity |]. split; [exact Hb |].
    rewrite HE in Hge, Hval.
    assert (Hdq : Zdigits2 (Zpos mz / 2 ^ (d - 24 - ez)) = 24).
    { rewrite Zdigits2_div_pow2 by lia. lia. }
    assert (Hq0 : 0 <= Zpos mz / 2 ^ (d - 24 - ez)).
    { apply Z.div_pos; [lia |]. apply Z.pow_pos_nonneg; lia. }
    assert (Hdm : 24 <= Zdigits2 (Zpos m * 2 ^ (e - (d - 24)))).
    { destruct Hval as [-> | ->]; [lia |].
      pose proof (Zdigits2_succ _ Hq0). lia. }
    rewrite Zdigits2_mul_pow2 in Hdm by lia.
    cbn [Zdigits2] in Hdm. lia.
Qed.

(** The quotient of a number at least 1 by a finite number is never
    rounded to zero. *)
Lemma f32_div_nonzero (s1 s2 : bool) (m1 : positive) (e1 : Z) (m2 : positive) (e2 : Z) :
  bounded prec32 emax32 m1 e1 = true ->
  bounded prec32 emax32 m2 e2 = true ->
  1 <= Zpos (digits2_pos m1) + e1 ->
  f32_div (S754_finite s1 m1 e1) (S754_finite s2 m2 e2) = S754_infinity (xorb s1 s2)
  \/ exists (m : positive) (e : Z),
       f32_div (S754_finite s1 m1 e1) (S754_finite s2 m2 e2)
       = S754_finite (xorb s1 s2) m e
       /\ bounded prec32 emax32 m e = true.
Proof.
  intros Hb1 Hb2 Hbig.
  destruct (bounded_inv m1 e1 Hb1) as [Hc1 He1].
  destruct (bounded_inv m2 e2 Hb2) as [Hc2 He2].
  unfold f32_div, SFdiv.
  pose proof (SFdiv_core_digits m1 e1 m2 e2) as Hcore.
  assert (Hlow : let '(q, e', l) :=
                   SFdiv_core_binary prec32 emax32 (Zpos m1) e1 (Zpos m2) e2 in
                 -148 <= Zdigits2 q + e' /\ 0 < q).
  { unfold SFdiv_core_binary.
    set (d1 := Zdigits2 (Zpos m1)). set (d2 := Zdigits2 (Zpos m2)).
    change (Zpos (digits2_pos m1)) with d1 in *.
    change (Zpos (digits2_pos m2)) with d2 in *.
    assert (Hd2 : 1 <= d2) by (apply (Zdigits2_pos_bounds (Zpos m2)); lia).
    set (e' := Z.min (fexp prec32 emax32 (d1 + e1 - (d2 + e2))) (e1 - e2)).
    assert (He' : e' = Z.max (d1 + e1 - (d2 + e2) - 24) (-149)).
    { unfold e'. rewrite fexp32_eq. lia. }
    set (sh := e1 - e2 - e').
    assert (Hsh : 0 <= sh) by (unfold sh; lia).
    set (m' := match sh with
               | 0 => Zpos m1
               | Zpos _ => Z.shiftl (Zpos m1) sh
               | Zneg _ => 0
               end).
    assert (Hm' : m' = Zpos m1 * 2 ^ sh).
    { unfold m'. destruct sh as [| p | p] eqn:Esh; [cbn; lia | | lia].
      now rewrite Z.shiftl_mul_pow2 by lia. }
    assert (Hq : Z.div_eucl m' (Zpos m2) = (m' / Zpos m2, m' mod Zpos m2)).
    { unfold Z.div, Z.modulo. now destruct (Z.div_eucl m' (Zpos m2)). }
    rewrite Hq.
    destruct (Zdigits2_pos_bounds (Zpos m1) ltac:(lia)) as (_ & Hlo1 & _).
    destruct (Zdigits2_pos_bounds (Zpos m2) ltac:(lia)) as (_ & _ & Hhi2).
    fold d1 in Hlo1. fold d2 in Hhi2.
    set (k := d1 - 1 + sh - d2).
    assert (Hk : 0 <= k) by (unfold k, sh; lia).
    assert (Hbigq : 2 ^ k <= m' / Zpos m2).
    { apply Z.div_le_lower_bound; [lia |].
      assert (2 ^ d2 * 2 ^ k <= 2 ^ (d1 - 1) * 2 ^ sh).
      { rewrite <- !Z.pow_add_r by lia. apply Z.pow_le_mono_r; unfold k; lia. }
      assert (0 < 2 ^ k) by (apply Z.pow_pos_nonneg; lia).
      assert (0 < 2 ^ sh) by (apply Z.pow_pos_nonneg; lia).
      nia. }
    assert (0 < 2 ^ k) by (apply Z.pow_pos_nonneg; lia).
    split; [| lia].
    assert (k + 1 <= Zdigits2 (m' / Zpos m2)).
    { apply Zdigits2_ge; [| lia]. now replace (k + 1 - 1) with k by lia. }
    unfold k, sh in *. lia. }
  destruct (SFdiv_core_binary prec32 emax32 (Zpos m1) e1 (Zpos m2) e2) as [[q e'] l].
  destruct Hcore as [Hq0 Hex]. destruct Hlow as [Hlow Hqpos].
  destruct (binary_round_aux_value prec32 emax32 ltac:(reflexivity) (xorb s1 s2)
              q e' l Hq0 Hex)
    as [[_ Hz] | [[Hinf _] | (m & e & Hfin & Hb & _)]].
  - exfalso. rewrite fexp32_eq in Hz, Hex.
    assert (Hdq : Zdigits2 (q / 2 ^ (Z.max (Zdigits2 q + e' - 24) (-149) - e'))
                  = Z.max 0 (Zdigits2 q - (Z.max (Zdigits2 q + e' - 24) (-149) - e'))).
    { apply Zdigits2_div_pow2; lia. }
    rewrite Hz in Hdq. cbn [Zdigits2] in Hdq. lia.
  - now left.
  - right. now exists m, e.
Qed.

(** X8.  [set_rate] checks nothing: a NaN, a zero and every finite negative
    rate make the conversion of floor(N/rate) to [unsigned int]
    undefined. *)
Theorem set_rate_nonpositive_undefined (r : resampler) (rate : float32) :
  1 <= d_int_rate r < UINT_MOD ->
  rate = S754_nan
  \/ (exists s : bool, rate = S754_zero s)
  \/ (exists (m : positive) (e : Z),
        rate = S754_finite true m e /\ bounded prec32 emax32 m e = true) ->
  set_rate r rate = Undefined.
Proof.
  intros HN Hrate.
  destruct (f32_of_Z_pos (d_int_rate r) HN) as (mn & en & EN & Hbn & Hdn).
  unfold set_rate, rate_quotient. rewrite EN.
  destruct Hrate as [-> | [[s ->] | (m & e & -> & Hb)]]; try reflexivity.
  destruct (f32_div_nonzero false true mn en m e Hbn Hb Hdn)
    as [-> | (m' & e' & -> & Hb')]; [reflexivity |].
  cbn [xorb f_floor cond_Zopp].
  assert (Hneg : (if 0 <=? e' then - Zpos m' * 2 ^ e' else - Zpos m' / 2 ^ (- e')) < 0).
  { destruct (Z.leb_spec 0 e').
    - assert (0 < 2 ^ e') by (apply Z.pow_pos_nonneg; lia). nia.
    - assert (0 < 2 ^ (- e')) by (apply Z.pow_pos_nonneg; lia).
      apply Z.div_lt_upper_bound; lia. }
  unfold cast_uint.
  destruct (Z.leb_spec 0 (if 0 <=? e' then - Zpos m' * 2 ^ e' else - Zpos m' / 2 ^ (- e')));
    [lia | reflexivity].
Qed.

Lemma set_rate_nonpositive_undefined_witness :
  1 <= d_int_rate nine < UINT_MOD
  /\ bounded prec32 emax32 8388608 (-23) = true
  /\ set_rate nine (S754_finite true 8388608 (-23)) = Undefined.
Proof.
  split; [vm_compute; intuition discriminate |].
  split; [reflexivity |].
  apply (set_rate_nonpositive_undefined nine (S754_finite true 8388608 (-23))).
  - vm_compute. intuition discriminate.
  - right. right. exists 8388608%positive, (-23). split; reflexivity.
Defined.

(** X9.  The degenerate steps come from an infinite rate only: for a positive
    rate that [set_rate] accepts, [d_dec_rate = 0] together with
    [d_flt_rate = 0] holds exactly when the rate is +infinity. *)
Theorem set_rate_degenerate_iff_infinite (r r' : resampler) (rate : float32) :
  1 <= d_int_rate r < UINT_MOD ->
  rate = S754_infinity false
  \/ (exists (m : positive) (e : Z),
        rate = S754_finite false m e /\ bounded prec32 emax32 m e = true) ->
  set_rate r rate = Ok r' ->
  (d_dec_rate r' = 0 /\ d_flt_rate r' = S754_zero false)
  <-> rate = S754_infinity false.
Proof.
  intros HN Hrate Hrun.
  destruct (f32_of_Z_pos (d_int_rate r) HN) as (mn & en & EN & Hbn & Hdn).
  unfold set_rate, rate_quotient in Hrun. rewrite EN in Hrun.
  destruct Hrate as [-> | (m & e & -> & Hb)].
  - cbn in Hrun. injection Hrun as <-. cbn. tauto.
  - split; [| discriminate].
    intros [Hdec Hflt]. exfalso.
    destruct (f32_div_nonzero false false mn en m e Hbn Hb Hdn)
      as [Hq | (m' & e' & Hq & Hb')]; rewrite Hq in Hrun; [discriminate |].
    cbn [xorb] in Hrun. rewrite f_floor_finite in Hrun.
    destruct (cast_uint _) as [dec | | |] eqn:Ecast; cbn [bind] in Hrun;
      try discriminate.
    injection Hrun as <-. cbn [with_rate d_dec_rate d_flt_rate] in Hdec, Hflt.
    subst dec.
    assert (Hfl : (if 0 <=? e' then Zpos m' * 2 ^ e' else Zpos m' / 2 ^ (- e')) = 0).
    { unfold cast_uint in Ecast.
      destruct ((0 <=? _) && (_ <? UINT_MOD)); congruence. }
    change (f32_of_Z 0) with (S754_zero false) in Hflt.
    cbn in Hflt. discriminate.
Qed.

Lemma set_rate_degenerate_iff_infinite_witness :
  1 <= d_int_rate nine < UINT_MOD
  /\ set_rate nine (S754_infinity false) = Ok (with_rate nine 0 (S754_zero false))
  /\ ((d_dec_rate (with_rate nine 0 (S754_zero false)) = 0
       /\ d_flt_rate (with_rate nine 0 (S754_zero false)) = S754_zero false)
      <-> S754_infinity false = S754_infinity false)
  /\ exists r' : resampler,
       set_rate nine (S754_finite false 8388608 (-21)) = Ok r'
       /\ ((d_dec_rate r' = 0 /\ d_flt_rate r' = S754_zero false)
           <-> S754_finite false 8388608 (-21) = S754_infinity false).
Proof.
  assert (HN : 1 <= d_int_rate nine < UINT_MOD)
    by (vm_compute; intuition discriminate).
  split; [exact HN |].
  split; [reflexivity |].
  split.
  - apply (set_rate_degenerate_iff_infinite nine _ (S754_infinity false)).
    + exact HN.
    + now left.
    + reflexivity.
  - eexists. split; [vm_compute; reflexivity |].
    apply (set_rate_degenerate_iff_infinite nine _ (S754_finite false 8388608 (-21))).
    + exact HN.
    + right. exists 8388608%positive, (-21). split; reflexivity.
    + vm_compute. reflexivity.
Defined.

(** ** The phase *)

(** The quotient computed by a single-precision division lies below the
    exact quotient. *)
Lemma SFdiv_core_quotient (m1 : positive) (e1 : Z) (m2 : positive) (e2 : Z) :
  let '(q, e', l) := SFdiv_core_binary prec32 emax32 (Zpos m1) e1 (Zpos m2) e2 in
  e' <= e1 - e2
  /\ Z.min (-149) (e1 - e2) <= e'
  /\ q * Zpos m2 <= Zpos m1 * 2 ^ (e1 - e2 - e').
Proof.
  unfold SFdiv_core_binary.
  set (d1 := Zdigits2 (Zpos m1)). set (d2 := Zdigits2 (Zpos m2)).
  set (e' := Z.min (fexp prec32 emax32 (d1 + e1 - (d2 + e2))) (e1 - e2)).
  assert (He' : e' <= e1 - e2 /\ Z.min (-149) (e1 - e2) <= e').
  { unfold e'. rewrite fexp32_eq. lia. }
  set (sh := e1 - e2 - e').
  assert (Hsh : 0 <= sh) by (unfold sh; lia).
  set (m' := match sh with
             | 0 => Zpos m1
             | Zpos _ => Z.shiftl (Zpos m1) sh
             | Zneg _ => 0
             end).
  assert (Hm' : m' = Zpos m1 * 2 ^ sh).
  { unfold m'. destruct sh as [| p | p] eqn:Esh; [cbn; lia | | lia].
    now rewrite Z.shiftl_mul_pow2 by lia. }
  assert (Hq : Z.div_eucl m' (Zpos m2) = (m' / Zpos m2, m' mod Zpos m2)).
  { unfold Z.div, Z.modulo. now destruct (Z.div_eucl m' (Zpos m2)). }
  rewrite Hq. cbv beta iota.
  split; [tauto |]. split; [tauto |].
  fold sh. rewrite <- Hm', Z.mul_comm. apply Z.mul_div_le. lia.
Qed.

(** Truncation of a number below K + 1. *)
Lemma f_trunc_below (m : positive) (e E K : Z) :
  E <= e -> E <= 0 -> 0 <= K ->
  Zpos m * 2 ^ (e - E) < (K + 1) * 2 ^ (- E) ->
  exists k : Z, f_trunc (S754_finite false m e) = Some k /\ 0 <= k <= K.
Proof.
  intros HEe HE HK Hlt. cbn [f_trunc cond_Zopp].
  eexists. split; [reflexivity |].
  assert (HT : 0 < 2 ^ (e - E)) by (apply Z.pow_pos_nonneg; lia).
  destruct (Z.leb_spec 0 e) as [He | He].
  - assert (Hp : 0 < 2 ^ e) by (apply Z.pow_pos_nonneg; lia).
    assert (E2 : 2 ^ (e - E) = 2 ^ e * 2 ^ (- E)).
    { rewrite <- Z.pow_add_r by lia. f_equal; lia. }
    assert (0 < 2 ^ (- E)) by (apply Z.pow_pos_nonneg; lia).
    rewrite E2 in Hlt. nia.
  - assert (Hp : 0 < 2 ^ (- e)) by (apply Z.pow_pos_nonneg; lia).
    assert (E2 : 2 ^ (- E) = 2 ^ (- e) * 2 ^ (e - E)).
    { rewrite <- Z.pow_add_r by lia. f_equal; lia. }
    rewrite E2 in Hlt.
    rewrite Z.quot_div_nonneg by lia.
    split; [apply Z.div_pos; lia |].
    assert (Zpos m / 2 ^ (- e) < K + 1); [| lia].
    apply Z.div_lt_upper_bound; [lia |]. nia.
Qed.

(** When a/b < K + 1/2 for binary32 numbers a, b > 0 and K < 2^22, the
    single-precision quotient, truncated, is at most K. *)
Lemma f32_div_trunc_bound (mp : positive) (ep : Z) (mb : positive) (eb K : Z) :
  bounded prec32 emax32 mp ep = true ->
  bounded prec32 emax32 mb eb = true ->
  0 <= K < 2 ^ 22 ->
  2 * (Zpos mp * 2 ^ (ep + 1300)) < (2 * K + 1) * (Zpos mb * 2 ^ (eb + 1300)) ->
  exists k : Z,
    f_trunc (f32_div (S754_finite false mp ep) (S754_finite false mb eb)) = Some k
    /\ 0 <= k <= K.
Proof.
  intros Hbp Hbb HK Hlt.
  destruct (bounded_inv mp ep Hbp) as [Hcp Hep].
  destruct (bounded_inv mb eb Hbb) as [Hcb Heb].
  unfold f32_div, SFdiv. cbn [xorb].
  pose proof (SFdiv_core_digits mp ep mb eb) as Hcore.
  pose proof (SFdiv_core_quotient mp ep mb eb) as Hquot.
  destruct (SFdiv_core_binary prec32 emax32 (Zpos mp) ep (Zpos mb) eb) as [[q e'] l].
  destruct Hcore as [Hq0 Hex]. destruct Hquot as (He'hi & He'lo & Hqle).
  set (sh := ep - eb - e') in *.
  assert (Hsh : 0 <= sh) by (unfold sh; lia).
  set (X := 2 ^ (eb + e' + 1300)).
  assert (HX : 0 < X) by (apply Z.pow_pos_nonneg; lia).
  assert (EP : 2 ^ (ep + 1300) = 2 ^ sh * X).
  { unfold X. rewrite <- Z.pow_add_r by lia. f_equal. unfold sh. lia. }
  rewrite EP in Hlt.
  (* the exact quotient, hence q 2^e', lies below K + 1/2 *)
  assert (HII : 2 * (q * X) < (2 * K + 1) * 2 ^ (eb + 1300)).
  { assert (0 < 2 ^ (eb + 1300)) by (apply Z.pow_pos_nonneg; lia).
    assert (0 < 2 ^ sh) by (apply Z.pow_pos_nonneg; lia).
    assert (2 * (q * X) * Zpos mb < (2 * K + 1) * 2 ^ (eb + 1300) * Zpos mb); [| nia].
    nia. }
  (* so it has at most 22 binary digits before the point *)
  assert (HD : Zdigits2 q + e' <= 22).
  { destruct (Z.eq_dec q 0) as [-> | Hq].
    - cbn [Zdigits2] in Hex |- *. rewrite fexp32_eq in Hex. lia.
    - destruct (Zdigits2_pos_bounds q ltac:(lia)) as (Hd1 & Hlo & _).
      destruct (Z.le_gt_cases (Zdigits2 q + e') 22) as [Hle | Hgt]; [exact Hle |].
      exfalso.
      assert (2 ^ (eb + 1300) * 2 ^ 22 <= 2 ^ (Zdigits2 q - 1) * X).
      { unfold X. rewrite <- !Z.pow_add_r by lia. apply Z.pow_le_mono_r; lia. }
      assert (0 < 2 ^ (eb + 1300)) by (apply Z.pow_pos_nonneg; lia).
      change (2 ^ 22) with 4194304 in *. nia. }
  rewrite fexp32_eq in Hex.
  set (E := Z.max (Zdigits2 q + e' - 24) (-149)) in *.
  assert (HE : E <= -2) by (unfold E; lia).
  assert (Hn : 0 <= E - e') by lia.
  assert (Hpn : 0 < 2 ^ (E - e')) by (apply Z.pow_pos_nonneg; lia).
  assert (HpE : 4 <= 2 ^ (- E)).
  { change 4 with (2 ^ 2). apply Z.pow_le_mono_r; lia. }
  assert (EX : 2 ^ (eb + 1300) = X * (2 ^ (E - e') * 2 ^ (- E))).
  { unfold X. rewrite <- !Z.pow_add_r by lia. f_equal. lia. }
  assert (Hq' : 2 * (q / 2 ^ (E - e')) < (2 * K + 1) * 2 ^ (- E)).
  { pose proof (Z.mul_div_le q (2 ^ (E - e')) Hpn) as Hfl.
    rewrite EX in HII.
    assert (2 * q < (2 * K + 1) * (2 ^ (E - e') * 2 ^ (- E))) by nia.
    nia. }
  destruct (binary_round_aux_value prec32 emax32 ltac:(reflexivity) false q e' l Hq0
              ltac:(rewrite fexp32_eq; exact Hex))
    as [[-> _] | [[_ Hbig] | (m & e & -> & Hb & Hge & Hval & _)]].
  - exists 0. split; [reflexivity | lia].
  - exfalso. rewrite fexp32_eq in Hbig. fold E in Hbig.
    unfold emax32, prec32 in Hbig. lia.
  - rewrite fexp32_eq in Hge, Hval. fold E in Hge, Hval.
    apply (f_trunc_below m e E K); lia.
Qed.

Lemma TWO_PI_value : TWO_PI = S754_finite false 7074237752028440 (-50).
Proof. vm_compute. reflexivity. Qed.

(** Widening a [float] to [double] is exact. *)
Lemma f64_of_f32_exact (s : bool) (m : positive) (e : Z) :
  Zpos (digits2_pos m) <= 53 ->
  -1021 <= Zpos (digits2_pos m) + e <= 1024 ->
  exists mz : positive,
    f64_of_f32 (S754_finite s m e)
    = S754_finite s mz (Zpos (digits2_pos m) + e - 53)
    /\ Zpos mz = Zpos m * 2 ^ (53 - Zpos (digits2_pos m))
    /\ Zdigits2 (Zpos mz) = 53.
Proof.
  intros Hd Hrange. cbn [f64_of_f32]. unfold binary_round.
  set (d := Zpos (digits2_pos m)) in *.
  assert (Efx : fexp prec64 emax64 (d + e) = d + e - 53).
  { change (Z.max (d + e - 53) (3 - 1024 - 53) = d + e - 53). lia. }
  rewrite Efx.
  pose proof (shl_align_spec m e (d + e - 53)) as Hv.
  destruct (shl_align m e (d + e - 53)) as [mz ez]. destruct Hv as [Hez Hmz].
  pose proof (Pos2Z.is_pos (digits2_pos m)) as Hdpos. fold d in Hdpos.
  replace (Z.min e (d + e - 53)) with (d + e - 53) in Hez by lia. subst ez.
  replace (e - (d + e - 53)) with (53 - d) in Hmz by lia.
  assert (Hdz : Zdigits2 (Zpos mz) = 53).
  { rewrite Hmz, Zdigits2_mul_pow2 by lia. cbn [Zdigits2]. fold d. lia. }
  exists mz. split; [| split; [exact Hmz | exact Hdz]].
  apply binary_round_aux_bounded.
  unfold bounded, canonical_mantissa. cbn [Zdigits2] in Hdz. rewrite Hdz.
  apply andb_true_intro. split.
  - apply Z.eqb_eq.
    change (Z.max (53 + (d + e - 53) - 53) (3 - 1024 - 53) = d + e - 53). lia.
  - apply Z.leb_le. unfold emax64, prec64. lia.
Qed.

(** A [float] that passes the test [ph >= 2.0*M_PI] lies below 2 pi. *)
Lemma below_TWO_PI (mp : positive) (ep : Z) :
  bounded prec32 emax32 mp ep = true ->
  f64_leb TWO_PI (f64_of_f32 (S754_finite false mp ep)) = false ->
  Zpos mp * 2 ^ (ep + 1300) < 7074237752028440 * 2 ^ 1250.
Proof.
  intros Hb Hleb. destruct (bounded_inv mp ep Hb) as [Hc He].
  pose proof (Pos2Z.is_pos (digits2_pos mp)) as Hdpos.
  destruct (f64_of_f32_exact false mp ep ltac:(lia) ltac:(lia)) as (mz & Ez & Hmz & Hdz).
  rewrite Ez, TWO_PI_value in Hleb.
  set (d := Zpos (digits2_pos mp)) in *.
  set (ez := d + ep - 53) in *.
  assert (Hval : Zpos mp * 2 ^ (ep + 1300) = Zpos mz * 2 ^ (ez + 1300)).
  { rewrite Hmz, <- Z.mul_assoc, <- Z.pow_add_r by (unfold ez; lia).
    f_equal. f_equal. unfold ez. lia. }
  rewrite Hval.
  destruct (Zdigits2_pos_bounds (Zpos mz) ltac:(lia)) as (_ & _ & Hhi).
  rewrite Hdz in Hhi.
  unfold f64_leb, SFleb, SFcompare in Hleb.
  assert (HA : 0 < 2 ^ (ez + 1300)) by (apply Z.pow_pos_nonneg; unfold ez; lia).
  clear Ez.
  destruct (Z.compare_spec (-50) ez) as [Heq | Hlt | Hgt]; try discriminate Hleb.
  - replace (ez + 1300) with 1250 by lia.
    apply Z.mul_lt_mono_pos_r; [apply Z.pow_pos_nonneg; lia |].
    change (Pos.compare_cont Eq 7074237752028440 mz)
      with (Pos.compare 7074237752028440 mz) in Hleb.
    destruct (Pos.compare_spec 7074237752028440 mz) as [H | H | H];
      try discriminate Hleb.
    apply Pos2Z.pos_lt_pos in H. exact H.
  - assert (HAB : 2 ^ (ez + 1300) * 2 <= 2 ^ 1250).
    { change (2 ^ (ez + 1300) * 2) with (2 ^ (ez + 1300) * 2 ^ 1).
      rewrite <- Z.pow_add_r by (unfold ez; lia).
      apply Z.pow_le_mono_r; lia. }
    change (2 ^ 53) with 9007199254740992 in Hhi.
    revert HA HAB. generalize (2 ^ (ez + 1300)) (2 ^ 1250). intros A B HA HAB.
    nia.
Qed.

(** [2.0*M_PI / (float)N] in double precision: the quotient is at most one
    unit in the last place below the exact one. *)
Lemma f64_div_by_count (mT : positive) (N : Z) (m2 : positive) :
  Zdigits2 (Zpos mT) = 53 ->
  1 <= N < 2 ^ 24 ->
  Zpos m2 = N * 2 ^ (53 - Zdigits2 N) ->
  exists (m : positive) (e : Z),
    f64_div (S754_finite false mT (-50)) (S754_finite false m2 (Zdigits2 N - 53))
    = S754_finite false m e
    /\ Zdigits2 (Zpos m) = 53
    /\ -80 <= e <= 0
    /\ 2 ^ 52 * (Zpos mT * 2 ^ 1250)
       < N * (2 ^ 52 + 1) * (Zpos m * 2 ^ (e + 1300)).
Proof.
  intros HdT HN Hm2.
  assert (HdN : 1 <= Zdigits2 N <= 24).
  { split; [apply (Zdigits2_pos_bounds N); lia | apply Zdigits2_le; lia]. }
  set (dN := Zdigits2 N) in *.
  assert (Hd2 : Zdigits2 (Zpos m2) = 53).
  { rewrite Hm2, Zdigits2_mul_pow2 by lia. fold dN. lia. }
  unfold f64_div, SFdiv. cbn [xorb].
  unfold SFdiv_core_binary. rewrite HdT, Hd2.
  assert (Ee : Z.min (fexp prec64 emax64 (53 + -50 - (53 + (dN - 53))))
                 (-50 - (dN - 53)) = -50 - dN).
  { change (Z.min (Z.max (53 + -50 - (53 + (dN - 53)) - 53) (3 - 1024 - 53))
              (-50 - (dN - 53)) = -50 - dN). lia. }
  rewrite Ee.
  replace (-50 - (dN - 53) - (-50 - dN)) with 53 by lia.
  rewrite Z.shiftl_mul_pow2 by lia.
  destruct (Zdigits2_pos_bounds (Zpos mT) ltac:(lia)) as (_ & HTlo & HThi).
  destruct (Zdigits2_pos_bounds (Zpos m2) ltac:(lia)) as (_ & H2lo & H2hi).
  rewrite HdT in HTlo, HThi. rewrite Hd2 in H2lo, H2hi.
  change (2 ^ (53 - 1)) with (2 ^ 52) in HTlo, H2lo.
  assert (Hq : Z.div_eucl (Zpos mT * 2 ^ 53) (Zpos m2)
               = (Zpos mT * 2 ^ 53 / Zpos m2, (Zpos mT * 2 ^ 53) mod Zpos m2)).
  { unfold Z.div, Z.modulo. now destruct (Z.div_eucl (Zpos mT * 2 ^ 53) (Zpos m2)). }
  rewrite Hq.
  set (q := Zpos mT * 2 ^ 53 / Zpos m2).
  set (lx := new_location (Zpos m2) ((Zpos mT * 2 ^ 53) mod Zpos m2)).
  pose proof (Z.mul_div_le (Zpos mT * 2 ^ 53) (Zpos m2) ltac:(lia)) as Hqle.
  pose proof (Z.mul_succ_div_gt (Zpos mT * 2 ^ 53) (Zpos m2) ltac:(lia)) as Hqgt.
  fold q in Hqle, Hqgt.
  assert (Hqlo : 2 ^ 52 <= q).
  { unfold q. apply Z.div_le_lower_bound; [lia |].
    change (2 ^ 53) with 9007199254740992 in *.
    change (2 ^ 52) with 4503599627370496 in *. nia. }
  assert (Hqhi : q < 2 ^ 54).
  { unfold q. apply Z.div_lt_upper_bound; [lia |].
    change (2 ^ 54) with 18014398509481984.
    change (2 ^ 53) with 9007199254740992 in *.
    change (2 ^ 52) with 4503599627370496 in *. nia. }
  assert (Hdq : 53 <= Zdigits2 q <= 54).
  { split; [apply Zdigits2_ge; lia | apply Zdigits2_le; lia]. }
  set (dq := Zdigits2 q) in *.
  set (n := dq - 53).
  assert (Hn : 0 <= n <= 1) by (unfold n; lia).
  assert (Efx : fexp prec64 emax64 (dq + (-50 - dN)) = n - 50 - dN).
  { change (Z.max (dq + (-50 - dN) - 53) (3 - 1024 - 53) = n - 50 - dN).
    unfold n. lia. }
  destruct (Zdigits2_pos_bounds q ltac:(lia)) as (_ & Hqd & _). fold dq in Hqd.
  assert (Hpn : 0 < 2 ^ n) by (apply Z.pow_pos_nonneg; lia).
  assert (Hq'lo : 2 ^ 52 <= q / 2 ^ n).
  { apply Z.div_le_lower_bound; [lia |].
    replace (dq - 1) with (52 + n) in Hqd by (unfold n; lia).
    rewrite Z.pow_add_r in Hqd by lia. lia. }
  assert (Hq'hi : q / 2 ^ n < 2 ^ 53).
  { apply Z.div_lt_upper_bound; [lia |].
    destruct (Zdigits2_pos_bounds q ltac:(lia)) as (_ & _ & Hqu). fold dq in Hqu.
    replace dq with (n + 53) in Hqu by (unfold n; lia).
    rewrite Z.pow_add_r in Hqu by lia. lia. }
  pose proof (Z.mul_succ_div_gt q (2 ^ n) Hpn) as Hq'gt.
  destruct (binary_round_aux_value prec64 emax64 ltac:(reflexivity) false
              q (-50 - dN) lx ltac:(lia))
    as [[_ Hz] | [[_ Hbig] | (m & e & -> & Hbd & Hge & Hval & _)]].
  - fold dq. rewrite Efx. lia.
  - exfalso. fold dq in Hz. rewrite Efx in Hz.
    replace (n - 50 - dN - (-50 - dN)) with n in Hz by lia. lia.
  - exfalso. fold dq in Hbig. rewrite Efx in Hbig.
    unfold emax64, prec64 in Hbig. lia.
  - fold dq in Hge, Hval. rewrite Efx in Hge, Hval.
    replace (n - 50 - dN - (-50 - dN)) with n in Hval by lia.
    set (E := n - 50 - dN) in *.
    set (Q := Zpos m * 2 ^ (e - E)) in *.
    assert (HQ : 2 ^ 52 <= Q <= 2 ^ 53) by lia.
    assert (HT : 0 < 2 ^ (e - E)) by (apply Z.pow_pos_nonneg; lia).
    (* the result is a normal number *)
    assert (Hdm : Zdigits2 (Zpos m) = 53 /\ e <= E + 1).
    { unfold bounded, canonical_mantissa in Hbd.
      apply andb_prop in Hbd. destruct Hbd as [Hc _]. apply Z.eqb_eq in Hc.
      change (Z.max (Zpos (digits2_pos m) + e - 53) (3 - 1024 - 53) = e) in Hc.
      change (Zpos (digits2_pos m)) with (Zdigits2 (Zpos m)) in Hc.
      assert (HdQ : Zdigits2 Q = Zdigits2 (Zpos m) + (e - E)).
      { unfold Q. apply Zdigits2_mul_pow2; lia. }
      assert (53 <= Zdigits2 Q <= 54).
      { split; [apply Zdigits2_ge; lia |].
        apply Zdigits2_le; [| lia]. change (2 ^ 54) with (2 * 2 ^ 53). lia. }
      unfold E in *. lia. }
    destruct Hdm as [Hdm HeE].
    exists m, e. split; [reflexivity |]. split; [exact Hdm |].
    split; [unfold E in *; lia |].
    (* 2 pi < (Q + 1) N 2^E *)
    assert (Hnum : Zpos mT * 2 ^ 53 < (Q + 1) * 2 ^ n * Zpos m2) by nia.
    rewrite Hm2 in Hnum.
    assert (E53 : 2 ^ 53 = 2 ^ (dN - n) * 2 ^ n * 2 ^ (53 - dN)).
    { rewrite <- !Z.pow_add_r by lia. f_equal. lia. }
    rewrite E53 in Hnum.
    assert (0 < 2 ^ (53 - dN)) by (apply Z.pow_pos_nonneg; lia).
    assert (0 < 2 ^ (dN - n)) by (apply Z.pow_pos_nonneg; lia).
    assert (Hcore : Zpos mT * 2 ^ (dN - n) < (Q + 1) * N) by nia.
    assert (EP : 2 ^ 1250 = 2 ^ (dN - n) * 2 ^ (E + 1300)).
    { rewrite <- Z.pow_add_r by (unfold E; lia). f_equal. unfold E. lia. }
    assert (EV : Zpos m * 2 ^ (e + 1300) = Q * 2 ^ (E + 1300)).
    { unfold Q. rewrite <- Z.mul_assoc, <- Z.pow_add_r by (unfold E; lia).
      f_equal. f_equal. lia. }
    rewrite EP, EV.
    assert (HPE : 0 < 2 ^ (E + 1300)) by (apply Z.pow_pos_nonneg; unfold E; lia).
    assert (HN0 : 1 <= N) by lia.
    revert HPE Hcore HQ HN0. clear.
    generalize (2 ^ (E + 1300)) (2 ^ (dN - n)) (Zpos mT).
    intros P A T HP Hcore HQ HN0.
    change (2 ^ 52) with 4503599627370496 in *.
    change (2 ^ 53) with 9007199254740992 in *.
    assert (H1 : 4503599627370496 * (T * A) < N * (4503599627370496 + 1) * Q) by nia.
    replace (4503599627370496 * (T * (A * P)))
      with (4503599627370496 * (T * A) * P) by ring.
    replace (N * (4503599627370496 + 1) * (Q * P))
      with (N * (4503599627370496 + 1) * Q * P) by ring.
    apply Z.mul_lt_mono_pos_r; assumption.
Qed.

(** Narrowing a normal [double] of moderate size to [float]: the result
    is at most one unit in the last place below the argument. *)
Lemma f32_of_f64_lower (m : positive) (e : Z) :
  Zdigits2 (Zpos m) = 53 ->
  -80 <= e <= 0 ->
  exists (m' : positive) (e' : Z),
    f32_of_f64 (S754_finite false m e) = S754_finite false m' e'
    /\ bounded prec32 emax32 m' e' = true
    /\ 2 ^ 23 * (Zpos m * 2 ^ (e + 1300))
       < (2 ^ 23 + 1) * (Zpos m' * 2 ^ (e' + 1300)).
Proof.
  intros Hdm He. cbn [f32_of_f64]. unfold binary_round.
  change (Zpos (digits2_pos m)) with (Zdigits2 (Zpos m)). rewrite Hdm.
  assert (Efx : fexp prec32 emax32 (53 + e) = e + 29) by (rewrite fexp32_eq; lia).
  rewrite Efx.
  assert (Es : shl_align m e (e + 29) = (m, e)).
  { unfold shl_align. destruct (e + 29 - e) eqn:Ed; try reflexivity. lia. }
  rewrite Es.
  destruct (Zdigits2_pos_bounds (Zpos m) ltac:(lia)) as (_ & Hlo & Hhi).
  rewrite Hdm in Hlo, Hhi. change (2 ^ (53 - 1)) with (2 ^ 52) in Hlo.
  assert (Hq'lo : 2 ^ 23 <= Zpos m / 2 ^ 29).
  { apply Z.div_le_lower_bound; [lia |].
    change (2 ^ 29 * 2 ^ 23) with (2 ^ 52). lia. }
  pose proof (Z.mul_succ_div_gt (Zpos m) (2 ^ 29) ltac:(lia)) as Hq'gt.
  destruct (binary_round_aux_value prec32 emax32 ltac:(reflexivity) false
              (Zpos m) e loc_Exact ltac:(lia))
    as [[_ Hz] | [[_ Hbig] | (m' & e' & -> & Hbd & Hge & Hval & _)]].
  - rewrite Hdm, Efx. lia.
  - exfalso. rewrite Hdm, Efx in Hz.
    replace (e + 29 - e) with 29 in Hz by lia. lia.
  - exfalso. rewrite Hdm, Efx in Hbig. unfold emax32, prec32 in Hbig. lia.
  - rewrite Hdm, Efx in Hge, Hval.
    replace (e + 29 - e) with 29 in Hval by lia.
    exists m', e'. split; [reflexivity |]. split; [exact Hbd |].
    set (Q := Zpos m' * 2 ^ (e' - (e + 29))) in *.
    assert (HQ : 2 ^ 23 <= Q) by lia.
    assert (Hm : Zpos m < (Q + 1) * 2 ^ 29) by lia.
    assert (EV : Zpos m' * 2 ^ (e' + 1300) = Q * (2 ^ 29 * 2 ^ (e + 1300))).
    { unfold Q. rewrite <- Z.mul_assoc, <- !Z.pow_add_r by lia.
      f_equal. f_equal. lia. }
    rewrite EV.
    assert (HP : 0 < 2 ^ (e + 1300)) by (apply Z.pow_pos_nonneg; lia).
    revert HP Hm HQ. clear.
    generalize (2 ^ (e + 1300)) (Zpos m). intros P M HP Hm HQ.
    change (2 ^ 23) with 8388608 in *. change (2 ^ 29) with 536870912 in *. nia.
Qed.

(** The phase step [2 pi / N] as computed: a positive [float] that is
    below the exact quotient by at most one rounding in each precision. *)
Lemma ph_diff_shape (r : resampler) :
  1 <= size (d_filters r) < 2 ^ 24 ->
  exists (m : positive) (e : Z),
    ph_diff r = S754_finite false m e
    /\ bounded prec32 emax32 m e = true
    /\ 2 ^ 75 * (7074237752028440 * 2 ^ 1250)
       < size (d_filters r) * ((2 ^ 52 + 1) * (2 ^ 23 + 1))
         * (Zpos m * 2 ^ (e + 1300)).
Proof.
  intros HN. unfold ph_diff.
  set (N := size (d_filters r)) in *.
  assert (HdN : 1 <= Zdigits2 N <= 24).
  { split; [apply (Zdigits2_pos_bounds N); lia | apply Zdigits2_le; lia]. }
  destruct (f32_of_Z_small N ltac:(lia)) as (mN & EN & HmN). rewrite EN.
  assert (Hd24 : Zpos (digits2_pos mN) = 24).
  { change (Zpos (digits2_pos mN)) with (Zdigits2 (Zpos mN)).
    rewrite HmN, Zdigits2_mul_pow2 by lia. lia. }
  destruct (f64_of_f32_exact false mN (Zdigits2 N - 24) ltac:(lia) ltac:(lia))
    as (m2 & E2 & Hm2 & _).
  rewrite Hd24 in E2, Hm2.
  replace (24 + (Zdigits2 N - 24) - 53) with (Zdigits2 N - 53) in E2 by lia.
  assert (Hm2' : Zpos m2 = N * 2 ^ (53 - Zdigits2 N)).
  { rewrite Hm2, HmN, <- Z.mul_assoc, <- Z.pow_add_r by lia.
    f_equal. f_equal. lia. }
  rewrite E2, TWO_PI_value.
  destruct (f64_div_by_count 7074237752028440 N m2 ltac:(reflexivity) HN Hm2')
    as (m & e & Ediv & Hdm & He & Hv).
  rewrite Ediv.
  destruct (f32_of_f64_lower m e Hdm He) as (m' & e' & E32 & Hb & Hv2).
  rewrite E32. exists m', e'. split; [reflexivity |]. split; [exact Hb |].
  assert (HN1 : 1 <= N) by lia.
  revert Hv Hv2 HN1. clear.
  generalize (Zpos m * 2 ^ (e + 1300)) (Zpos m' * 2 ^ (e' + 1300))
    (7074237752028440 * 2 ^ 1250).
  intros Y W X Hv Hv2 HN1.
  change (2 ^ 75) with (2 ^ 23 * 2 ^ 52).
  change (2 ^ 23) with 8388608 in *. change (2 ^ 52) with 4503599627370496 in *.
  assert (H1 : N * (4503599627370496 + 1) * (8388608 * Y)
               < N * (4503599627370496 + 1) * ((8388608 + 1) * W)).
  { apply Z.mul_lt_mono_pos_l; lia. }
  nia.
Qed.

Lemma scaled_TWO_PI : scaled TWO_PI = 7074237752028440 * 2 ^ 1250.
Proof. rewrite TWO_PI_value. reflexivity. Qed.

Lemma at_least_TWO_PI (mp : positive) (ep : Z) :
  bounded prec32 emax32 mp ep = true ->
  f64_leb TWO_PI (f64_of_f32 (S754_finite false mp ep)) = true ->
  7074237752028440 * 2 ^ 1250 <= Zpos mp * 2 ^ (ep + 1300).
Proof.
  intros Hb Hleb. destruct (bounded_inv mp ep Hb) as [Hc He].
  pose proof (Pos2Z.is_pos (digits2_pos mp)) as Hdpos.
  destruct (f64_of_f32_exact false mp ep ltac:(lia) ltac:(lia)) as (mz & Ez & Hmz & Hdz).
  rewrite Ez, TWO_PI_value in Hleb.
  set (d := Zpos (digits2_pos mp)) in *.
  set (ez := d + ep - 53) in *.
  assert (Hval : Zpos mp * 2 ^ (ep + 1300) = Zpos mz * 2 ^ (ez + 1300)).
  { rewrite Hmz, <- Z.mul_assoc, <- Z.pow_add_r by (unfold ez; lia).
    f_equal. f_equal. unfold ez. lia. }
  rewrite Hval.
  destruct (Zdigits2_pos_bounds (Zpos mz) ltac:(lia)) as (_ & Hlo & _).
  rewrite Hdz in Hlo. change (2 ^ (53 - 1)) with 4503599627370496 in Hlo.
  unfold f64_leb, SFleb, SFcompare in Hleb.
  clear Ez.
  destruct (Z.compare_spec (-50) ez) as [Heq | Hlt | Hgt]; try discriminate Hleb.
  - replace (ez + 1300) with 1250 by lia.
    apply Z.mul_le_mono_nonneg_r; [apply Z.pow_nonneg; lia |].
    change (Pos.compare_cont Eq 7074237752028440 mz)
      with (Pos.compare 7074237752028440 mz) in Hleb.
    destruct (Pos.compare_spec 7074237752028440 mz) as [H | H | H];
      try discriminate Hleb.
    + rewrite <- H. apply Z.le_refl.
    + apply Pos2Z.pos_lt_pos in H. apply Z.lt_le_incl. exact H.
  - assert (HAB : 2 ^ 1250 * 2 <= 2 ^ (ez + 1300)).
    { change (2 ^ 1250 * 2) with (2 ^ 1250 * 2 ^ 1).
      rewrite <- Z.pow_add_r by lia.
      apply Z.pow_le_mono_r; lia. }
    assert (HB : 0 < 2 ^ 1250) by (apply Z.pow_pos_nonneg; lia).
    revert HB HAB. generalize (2 ^ (ez + 1300)) (2 ^ 1250). intros A B HB HAB.
    nia.
Qed.

(** X16.  [set_phase] on every [float]: a NaN passes the range test and
    its conversion to [int] is undefined; an infinity, a negative number
    and a number of at least [2.0*M_PI] throw the range error; every other
    number, those of [[0, 2.0*M_PI)], is accepted and stores an index
    between 0 and the number of filters, inclusive. *)
Theorem set_phase_index_at_most_N (r : resampler) (ph : float32) :
  valid_binary prec32 emax32 ph = true ->
  1 <= size (d_filters r) <= 2 ^ 21 ->
  match ph with
  | S754_nan => set_phase r ph = Undefined
  | S754_infinity _ => set_phase r ph = Throw set_phase_error
  | _ =>
      if (scaled ph <? 0) || (scaled TWO_PI <=? scaled ph)
      then set_phase r ph = Throw set_phase_error
      else exists k : Z,
             0 <= k <= size (d_filters r)
             /\ set_phase r ph = Ok (with_last_filter r k)
  end.
Proof.
  intros Hvalid HN.
  destruct (ph_diff_shape r ltac:(lia)) as (md & ed & Ed & Hbd & Hvd).
  assert (H2pi : 0 < scaled TWO_PI).
  { rewrite scaled_TWO_PI. apply Z.mul_pos_pos; [lia |].
    apply Z.pow_pos_nonneg; lia. }
  destruct ph as [s | s | | s mp ep]; cbv beta iota.
  - cbn [scaled]. change (0 <? 0) with false. cbn [orb].
    destruct (Z.leb_spec (scaled TWO_PI) 0) as [Hle | _]; [lia |].
    exists 0. split; [lia |]. unfold set_phase.
    assert (Hc : f32_ltb (S754_zero s) (f32_of_Z 0)
                 || f64_leb TWO_PI (f64_of_f32 (S754_zero s)) = false)
      by (destruct s; vm_compute; reflexivity).
    rewrite Hc, Ed. reflexivity.
  - unfold set_phase.
    assert (Hc : f32_ltb (S754_infinity s) (f32_of_Z 0)
                 || f64_leb TWO_PI (f64_of_f32 (S754_infinity s)) = true)
      by (destruct s; vm_compute; reflexivity).
    rewrite Hc. reflexivity.
  - unfold set_phase.
    assert (Hc : f32_ltb S754_nan (f32_of_Z 0)
                 || f64_leb TWO_PI (f64_of_f32 S754_nan) = false)
      by (vm_compute; reflexivity).
    rewrite Hc, Ed. reflexivity.
  - cbn [valid_binary] in Hvalid. destruct (bounded_inv mp ep Hvalid) as [_ Hep].
    assert (Hpow : 0 < 2 ^ (ep + 1300)).
    { apply Z.pow_pos_nonneg; [lia |].
      destruct (bounded_inv mp ep Hvalid) as [Hc _]. lia. }
    destruct s.
    + assert (E1 : (scaled (S754_finite true mp ep) <? 0) = true).
      { apply Z.ltb_lt. cbn [scaled cond_Zopp].
        apply Z.mul_neg_pos; [reflexivity | exact Hpow]. }
      rewrite E1. cbn [orb]. reflexivity.
    + assert (E1 : (scaled (S754_finite false mp ep) <? 0) = false).
      { apply Z.ltb_ge. cbn [scaled cond_Zopp].
        apply Z.mul_nonneg_nonneg; lia. }
      rewrite E1.
      change (scaled (S754_finite false mp ep)) with (Zpos mp * 2 ^ (ep + 1300)).
      cbn [orb]. rewrite scaled_TWO_PI. unfold set_phase.
      change (f32_ltb (S754_finite false mp ep) (f32_of_Z 0)) with false.
      cbn [orb].
      destruct (f64_leb TWO_PI (f64_of_f32 (S754_finite false mp ep))) eqn:Hleb.
      * pose proof (at_least_TWO_PI mp ep Hvalid Hleb) as Hph.
        apply Z.leb_le in Hph. rewrite Hph. reflexivity.
      * pose proof (below_TWO_PI mp ep Hvalid Hleb) as Hph.
        assert (Hnot : (7074237752028440 * 2 ^ 1250 <=? Zpos mp * 2 ^ (ep + 1300))
                       = false) by (apply Z.leb_gt; exact Hph).
        rewrite Hnot. rewrite Ed.
        destruct (f32_div_trunc_bound mp ep md ed (size (d_filters r)) Hvalid Hbd)
          as (k & Ek & Hk).
        -- change (2 ^ 22) with 4194304. change (2 ^ 21) with 2097152 in HN. lia.
        -- assert (HVd : 0 < Zpos md * 2 ^ (ed + 1300)).
           { destruct (bounded_inv md ed Hbd) as [Hc He].
             apply Z.mul_pos_pos; [lia | apply Z.pow_pos_nonneg; lia]. }
           revert Hph Hvd HVd HN. clear.
           generalize (Zpos mp * 2 ^ (ep + 1300)) (Zpos md * 2 ^ (ed + 1300))
             (7074237752028440 * 2 ^ 1250) (size (d_filters r)).
           intros P D X N Hph Hvd HVd HN.
           change (2 ^ 75) with 37778931862957161709568 in Hvd.
           change (2 ^ 52) with 4503599627370496 in Hvd.
           change (2 ^ 23) with 8388608 in Hvd.
           change (2 ^ 21) with 2097152 in HN.
           assert (H1 : 2 * N * ((4503599627370496 + 1) * (8388608 + 1))
                        <= (2 * N + 1) * 37778931862957161709568) by lia.
           assert (H2 : 2 * N * ((4503599627370496 + 1) * (8388608 + 1)) * D
                        <= (2 * N + 1) * 37778931862957161709568 * D)
             by (apply Z.mul_le_mono_nonneg_r; lia).
           nia.
        -- rewrite Ek. unfold cast_int.
           assert (Hfit : (INT_MIN <=? k) && (k <=? INT_MAX) = true).
           { change (2 ^ 21) with 2097152 in HN.
             apply andb_true_intro. split; apply Z.leb_le;
               [change INT_MIN with (-2147483648) | change INT_MAX with 2147483647];
               lia. }
           rewrite Hfit. cbn [bind].
           exists k. split; [exact Hk |].
           replace (uint k) with k; [reflexivity |].
           unfold uint. symmetry. apply Z.mod_small.
           change (2 ^ 21) with 2097152 in HN.
           change UINT_MOD with 4294967296. lia.
Qed.

Lemma set_phase_index_at_most_N_witness :
  valid_binary prec32 emax32 below_two_pi = true
  /\ 1 <= size (d_filters nine) <= 2 ^ 21
  /\ ((scaled below_two_pi <? 0) || (scaled TWO_PI <=? scaled below_two_pi)) = false
  /\ exists k : Z,
       0 <= k <= size (d_filters nine)
       /\ set_phase nine below_two_pi = Ok (with_last_filter nine k).
Proof.
  assert (Hv : valid_binary prec32 emax32 below_two_pi = true) by reflexivity.
  assert (HN : 1 <= size (d_filters nine) <= 2 ^ 21)
    by (vm_compute; split; discriminate).
  assert (Hc : ((scaled below_two_pi <? 0)
                || (scaled TWO_PI <=? scaled below_two_pi)) = false)
    by (vm_compute; reflexivity).
  split; [exact Hv |]. split; [exact HN |]. split; [exact Hc |].
  pose proof (set_phase_index_at_most_N nine below_two_pi Hv HN) as H.
  cbv beta iota delta [below_two_pi] in H.
  change (S754_finite false 13176794 (-21)) with below_two_pi in H.
  rewrite Hc in H. exact H.
Defined.
